(** * Antigravity provider of litellm: account pool, token cache, rate-limit
      ledger and payload translation, embedded from the Python sources

    Sources embedded here:
    - [litellm/llms/antigravity/common_utils.py]
    - [litellm/llms/antigravity/authenticator.py]
    - [litellm/llms/antigravity/account_manager.py]
    - [litellm/llms/antigravity/chat/transformation.py]
    - [litellm/proxy/antigravity_endpoints/endpoints.py] (the OAuth callback)

    Conventions of the embedding.
    - Python [str] values are [string]s of 8-bit characters; [lower()] and
      [re.IGNORECASE] act on the ASCII letters, and [\d] on the ASCII digits.
    - Clock readings ([time.time()], [time.time() * 1000]) are passed to each
      operation as an explicit argument.  The readings of the rate-limit
      ledger are floats: they are rational numbers of milliseconds ([Q]), with
      exact arithmetic (the rounding of floats is not modelled), and [int(...)]
      truncates a wait to whole milliseconds.  The token cache only adds to and
      compares its readings, which are taken in whole seconds ([Z]).
    - A Python dict used as a table is a [gmap]; a dict whose key order is
      visible (a JSON object) is an association list written through
      [dict_set], which overwrites in place or appends like [d[k] = v].
    - Account dicts are shared mutable objects: they live in a store and lists
      hold references to them. *)

From Stdlib Require Import ZArith QArith Qround Ascii String List Bool Lia Lqa.
From stdpp Require Import base option list gmap strings.

Local Open Scope string_scope.
Local Open Scope Z_scope.

(** ** Python string primitives *)

Module PyStr.

(** [sub in s] *)
Fixpoint contains (sub s : string) : bool :=
  String.prefix sub s ||
  match s with
  | EmptyString => false
  | String _ s' => contains sub s'
  end.

(** [s.endswith(suffix)] *)
Fixpoint endswith (s suffix : string) : bool :=
  String.eqb s suffix ||
  match s with
  | EmptyString => false
  | String _ s' => endswith s' suffix
  end.

Definition is_upper (c : ascii) : bool :=
  let n := N_of_ascii c in ((65 <=? n) && (n <=? 90))%N.

Definition is_digit (c : ascii) : bool :=
  let n := N_of_ascii c in ((48 <=? n) && (n <=? 57))%N.

Definition lower_char (c : ascii) : ascii :=
  if is_upper c then ascii_of_N (N_of_ascii c + 32) else c.

(** [s.lower()] *)
Fixpoint lower (s : string) : string :=
  match s with
  | EmptyString => EmptyString
  | String c s' => String (lower_char c) (lower s')
  end.

Definition digit_value (c : ascii) : Z := Z.of_N (N_of_ascii c) - 48.

(** [int(s)] on a run of decimal digits, most significant first. *)
Definition int (s : string) : Z :=
  fold_left (fun acc c => 10 * acc + digit_value c) (list_ascii_of_string s) 0.

(** Truthiness of an optional string: [None] and [""] are falsy. *)
Definition truthy (o : option string) : bool :=
  match o with
  | Some s => negb (String.eqb s "")
  | None => false
  end.

End PyStr.

(** ** Python floats

    A float is a rational number.  [a > b], [min(a, b)] and [int(x)], which
    truncates toward zero. *)

Module PyFloat.

Definition gtb (a b : Q) : bool := negb (Qle_bool a b).

Definition min (a b : Q) : Q := if gtb a b then b else a.

Definition int (x : Q) : Z := Z.quot (Qnum x) (Zpos (Qden x)).

End PyFloat.

(** ** A matcher for the regular expressions the sources use

    The patterns of [common_utils.py] are built from literal characters, the
    capture group [(\d+)] and the optional class [[.-]?].  The pattern text is
    kept as in the source and compiled to tokens; [re.search] tries every start
    position from the left.  A digit group takes the longest run of digits: in
    every pattern of the sources the group is followed by a letter or by the
    end of the pattern, so giving digits back never produces a match. *)

Module Re.

Inductive tok : Type :=
| Lit (c : ascii)      (* one literal character *)
| Digits               (* the capture group (\d+) *)
| OptDotDash.          (* the optional class [.-]? *)

Fixpoint compile (p : string) : list tok :=
  match p with
  | String "(" (String "\" (String "d" (String "+" (String ")" rest)))) =>
      Digits :: compile rest
  | String "[" (String "." (String "-" (String "]" (String "?" rest)))) =>
      OptDotDash :: compile rest
  | String c rest => Lit c :: compile rest
  | EmptyString => []
  end.

(** Longest run of leading digits and the remainder. *)
Fixpoint span_digits (s : string) : string * string :=
  match s with
  | String c s' =>
      if PyStr.is_digit c
      then let '(ds, rest) := span_digits s' in (String c ds, rest)
      else (EmptyString, s)
  | EmptyString => (EmptyString, EmptyString)
  end.

Definition is_dot_dash (c : ascii) : bool :=
  Ascii.eqb c "." || Ascii.eqb c "-".

(** Match the tokens at the start of [s]; the result lists the captured
    groups.  [ignorecase] is the flag [re.IGNORECASE]. *)
Fixpoint match_here (ignorecase : bool) (toks : list tok) (s : string)
  : option (list string) :=
  match toks with
  | [] => Some []
  | Lit c :: toks' =>
      match s with
      | String d s' =>
          if (if ignorecase
              then Ascii.eqb (PyStr.lower_char c) (PyStr.lower_char d)
              else Ascii.eqb c d)
          then match_here ignorecase toks' s'
          else None
      | EmptyString => None
      end
  | Digits :: toks' =>
      let '(ds, rest) := span_digits s in
      match ds with
      | EmptyString => None
      | _ => option_map (cons ds) (match_here ignorecase toks' rest)
      end
  | OptDotDash :: toks' =>
      match s with
      | String d s' =>
          if is_dot_dash d
          then match match_here ignorecase toks' s' with
               | Some g => Some g
               | None => match_here ignorecase toks' s
               end
          else match_here ignorecase toks' s
      | EmptyString => match_here ignorecase toks' s
      end
  end.

(** [re.search(pattern, s, flags).groups()], [None] when nothing matches. *)
Fixpoint search_toks (ignorecase : bool) (toks : list tok) (s : string)
  : option (list string) :=
  match match_here ignorecase toks s with
  | Some g => Some g
  | None =>
      match s with
      | EmptyString => None
      | String _ s' => search_toks ignorecase toks s'
      end
  end.

Definition search (pattern : string) (s : string) (ignorecase : bool)
  : option (list string) :=
  search_toks ignorecase (compile pattern) s.

End Re.

(** ** common_utils.py *)

Module CommonUtils.

Definition DEFAULT_PROJECT_ID : string := "rising-fact-p41fc".
Definition DEFAULT_COOLDOWN_MS : Z := 60 * 1000.
Definition MAX_RETRIES : Z := 5.
Definition MAX_WAIT_BEFORE_ERROR_MS : Z := 120000.
Definition MIN_SIGNATURE_LENGTH : Z := 50.
Definition GEMINI_MAX_OUTPUT_TOKENS : Z := 16384.

Inductive family : Type := claude | gemini | unknown.

Definition family_eqb (a b : family) : bool :=
  match a, b with
  | claude, claude | gemini, gemini | unknown, unknown => true
  | _, _ => false
  end.

Definition get_model_family (model_name : string) : family :=
  let lower := PyStr.lower model_name in
  if PyStr.contains "claude" lower then claude
  else if PyStr.contains "gemini" lower then gemini
  else unknown.

Definition is_thinking_model (model_name : string) : bool :=
  let lower := PyStr.lower model_name in
  if PyStr.contains "claude" lower && PyStr.contains "thinking" lower then true
  else if PyStr.contains "gemini" lower then
    if PyStr.contains "thinking" lower then true
    else
      match Re.search "gemini[.-]?(\d+)" lower false with
      | Some (g :: _) => 3 <=? PyStr.int g
      | _ => false
      end
  else false.

Definition patterns : list string :=
  [ "reset after (\d+)h(\d+)m(\d+)s";
    "reset after (\d+)h(\d+)m";
    "reset after (\d+)h";
    "reset after (\d+)m(\d+)s";
    "reset after (\d+)m";
    "reset after (\d+)s" ].

(** [int(groups[i])]; every pattern has at least one group, so the default
    of [nth] is never read. *)
Definition group (groups : list string) (i : nat) : Z :=
  PyStr.int (nth i groups "").

(** The body of the loop once [pattern] has matched with [groups]. *)
Definition reset_ms_of (pattern : string) (groups : list string) : Z :=
  if (length groups =? 3)%nat then
    group groups 0 * 3600000 + group groups 1 * 60000 + group groups 2 * 1000
  else if (length groups =? 2)%nat then
    if PyStr.contains "h" pattern && PyStr.contains "m" pattern
    then group groups 0 * 3600000 + group groups 1 * 60000
    else group groups 0 * 60000 + group groups 1 * 1000
  else
    if PyStr.contains "h" pattern then group groups 0 * 3600000
    else if PyStr.contains "m" pattern then group groups 0 * 60000
    else group groups 0 * 1000.

Fixpoint parse_loop (ps : list string) (error_text : string) : option Z :=
  match ps with
  | [] => None
  | pattern :: ps' =>
      match Re.search pattern error_text true with
      | Some groups => Some (reset_ms_of pattern groups)
      | None => parse_loop ps' error_text
      end
  end.

Definition parse_reset_time_from_error (error_text : string) : option Z :=
  parse_loop patterns error_text.

End CommonUtils.

(** ** authenticator.py *)

Module Auth.

(** *** TokenCache *)

Record TokenEntry : Type := mkTokenEntry {
  access_token : string;
  expires_at : Z
}.

Definition TokenCache_get (cache : gmap string TokenEntry) (email : string)
    (now : Z) : option string :=
  match cache !! email with
  | Some entry =>
      if expires_at entry >? now then Some (access_token entry) else None
  | None => None
  end.

Definition TokenCache_set (cache : gmap string TokenEntry) (email : string)
    (token : string) (expires_in : Z) (now : Z) : gmap string TokenEntry :=
  <[email := mkTokenEntry token (now + expires_in - 60)]> cache.

Definition TokenCache_clear (cache : gmap string TokenEntry)
    (email : option string) : gmap string TokenEntry :=
  if PyStr.truthy email then delete (default "" email) cache else ∅.

(** *** ProjectCache *)

Definition ProjectCache_get (cache : gmap string string) (email : string)
  : option string := cache !! email.

Definition ProjectCache_set (cache : gmap string string) (email : string)
    (project_id : string) : gmap string string :=
  <[email := project_id]> cache.

Definition ProjectCache_clear (cache : gmap string string)
    (email : option string) : gmap string string :=
  if PyStr.truthy email then delete (default "" email) cache else ∅.

(** *** Account dicts

    An account is a dict with the key ["email"] and the optional keys
    ["refresh_token"], ["project_id"], ["is_invalid"] and
    ["invalid_reason"]; [None] stands for a key that is absent (or, for the
    two string fields, holds [None]).  [json.dump] writes the keys that are
    present. *)

Record Account : Type := mkAccount {
  email : string;
  refresh_token : option string;
  project_id : option string;
  is_invalid : option bool;
  invalid_reason : option string
}.

Definition ref : Type := nat.

(** The state of an [Authenticator], together with the two things its
    methods reach through it: the store of account dicts ([heap], addressed
    by reference) and the content of the accounts file on disk. *)
Record Authenticator : Type := mkAuthenticator {
  heap : list Account;
  _accounts : list ref;
  _token_cache : gmap string TokenEntry;
  _project_cache : gmap string string;
  accounts_file : list Account
}.

Definition with_heap (a : Authenticator) (h : list Account) : Authenticator :=
  mkAuthenticator h (_accounts a) (_token_cache a) (_project_cache a) (accounts_file a).
Definition with_accounts (a : Authenticator) (l : list ref) : Authenticator :=
  mkAuthenticator (heap a) l (_token_cache a) (_project_cache a) (accounts_file a).
Definition with_token_cache (a : Authenticator) (c : gmap string TokenEntry) : Authenticator :=
  mkAuthenticator (heap a) (_accounts a) c (_project_cache a) (accounts_file a).
Definition with_project_cache (a : Authenticator) (c : gmap string string) : Authenticator :=
  mkAuthenticator (heap a) (_accounts a) (_token_cache a) c (accounts_file a).
Definition with_file (a : Authenticator) (f : list Account) : Authenticator :=
  mkAuthenticator (heap a) (_accounts a) (_token_cache a) (_project_cache a) f.

(** Reading the dict behind a reference.  References held by a list never
    dangle; the placeholder is what an address outside the store reads as. *)
Definition placeholder : Account := mkAccount "" None None None None.
Definition deref (h : list Account) (r : ref) : Account :=
  default placeholder (h !! r).

(** [json.dump({"accounts": self._accounts}, f)]: the file receives the
    dicts the list refers to, as they are at that moment. *)
Definition _save_accounts (a : Authenticator) : Authenticator :=
  with_file a (map (deref (heap a)) (_accounts a)).

(** [self._accounts.copy()]: a new list of the same dict objects. *)
Definition get_accounts (a : Authenticator) : list ref := _accounts a.

(** [next((a for a in accounts if a["email"] == email), None)] *)
Definition find_by_email (h : list Account) (accounts : list ref)
    (e : string) : option ref :=
  List.find (fun r => String.eqb (email (deref h r)) e) accounts.

(** The outcome of a successful OAuth flow: what [exchange_code],
    [get_user_email] and [discover_project_id] returned. *)
Record OAuthResult : Type := mkOAuthResult {
  oa_email : string;
  oa_access_token : string;
  oa_refresh_token : option string;
  oa_expires_in : Z;
  oa_project_id : option string
}.

Definition add_account_interactive (a : Authenticator) (r : OAuthResult)
    (now : Z) : Authenticator :=
  let a1 :=
    match find_by_email (heap a) (_accounts a) (oa_email r) with
    | Some existing =>
        let d := deref (heap a) existing in
        with_heap a
          (<[existing := mkAccount (email d) (oa_refresh_token r)
                           (oa_project_id r) (is_invalid d) (invalid_reason d)]>
             (heap a))
    | None =>
        let fresh := length (heap a) in
        with_accounts
          (with_heap a
             (heap a ++ [mkAccount (oa_email r) (oa_refresh_token r)
                           (oa_project_id r) None None]))
          (_accounts a ++ [fresh])
    end in
  let a2 := _save_accounts a1 in
  with_token_cache a2
    (TokenCache_set (_token_cache a2) (oa_email r) (oa_access_token r)
       (oa_expires_in r) now).

(** [get_project_for_account(account, token)]; [discovered] is what
    [discover_project_id(token)] answers when it is called. *)
Definition get_project_for_account (a : Authenticator) (account : ref)
    (discovered : option string) : string * Authenticator :=
  let d := deref (heap a) account in
  let e := email d in
  let cached := ProjectCache_get (_project_cache a) e in
  if PyStr.truthy cached then (default "" cached, a)
  else
    let stored := project_id d in
    if PyStr.truthy stored then
      (default "" stored,
       with_project_cache a (ProjectCache_set (_project_cache a) e (default "" stored)))
    else if PyStr.truthy discovered then
      let p := default "" discovered in
      let a1 := with_project_cache a (ProjectCache_set (_project_cache a) e p) in
      let a2 := with_heap a1
                  (<[account := mkAccount (email d) (refresh_token d) (Some p)
                                  (is_invalid d) (invalid_reason d)]> (heap a1)) in
      (p, _save_accounts a2)
    else (CommonUtils.DEFAULT_PROJECT_ID, a).

Definition remove_account (a : Authenticator) (e : string)
  : bool * Authenticator :=
  let before := length (_accounts a) in
  let a1 := with_accounts a
              (List.filter (fun r => negb (String.eqb (email (deref (heap a) r)) e))
                 (_accounts a)) in
  if (length (_accounts a1) <? before)%nat then
    let a2 := _save_accounts a1 in
    let a3 := with_token_cache a2 (TokenCache_clear (_token_cache a2) (Some e)) in
    (true, with_project_cache a3 (ProjectCache_clear (_project_cache a3) (Some e)))
  else (false, a1).

End Auth.

(** ** account_manager.py *)

Module Manager.
Import Auth.

Record RateLimit : Type := mkRateLimit {
  reset_time : Q;
  model_id : option string
}.

Record AccountManager : Type := mkAccountManager {
  _authenticator : Authenticator;
  _current_index : nat;
  _rate_limits : gmap string RateLimit
}.

Definition with_authenticator (m : AccountManager) (a : Authenticator) : AccountManager :=
  mkAccountManager a (_current_index m) (_rate_limits m).
Definition with_index (m : AccountManager) (i : nat) : AccountManager :=
  mkAccountManager (_authenticator m) i (_rate_limits m).
Definition with_rate_limits (m : AccountManager) (l : gmap string RateLimit) : AccountManager :=
  mkAccountManager (_authenticator m) (_current_index m) l.

Definition get_account_count (m : AccountManager) : nat :=
  length (get_accounts (_authenticator m)).

Definition _get_rate_limit_key (email : string) (model_id : option string)
  : string :=
  if PyStr.truthy model_id
  then email +:+ ":" +:+ default "" model_id
  else email.

(** [key in self._rate_limits and self._rate_limits[key]["reset_time"] > now] *)
Definition key_limited (limits : gmap string RateLimit) (key : string)
    (now : Q) : bool :=
  match limits !! key with
  | Some limit => PyFloat.gtb (reset_time limit) now
  | None => false
  end.

Definition _is_account_rate_limited (m : AccountManager) (account : Account)
    (model_id : option string) (now : Q) : bool :=
  let e := email account in
  let model_key := _get_rate_limit_key e model_id in
  if key_limited (_rate_limits m) model_key now then true
  else
    let global_key := _get_rate_limit_key e None in
    if key_limited (_rate_limits m) global_key now then true
    else false.

(** [account.get("is_invalid", False)] *)
Definition _is_account_invalid (account : Account) : bool :=
  default false (is_invalid account).

Definition usable (m : AccountManager) (model_id : option string) (now : Q)
    (r : ref) : bool :=
  let account := deref (heap (_authenticator m)) r in
  negb (_is_account_rate_limited m account model_id now)
  && negb (_is_account_invalid account).

Definition get_available_accounts (m : AccountManager)
    (model_id : option string) (now : Q) : list ref :=
  List.filter (usable m model_id now) (get_accounts (_authenticator m)).

Definition is_all_rate_limited (m : AccountManager)
    (model_id : option string) (now : Q) : bool :=
  (length (get_available_accounts m model_id now) =? 0)%nat
  && (0 <? get_account_count m)%nat.

Definition clear_expired_limits (m : AccountManager) (now : Q)
  : nat * AccountManager :=
  let expired :=
    filter (fun kv => Qle_bool (reset_time kv.2) now = true) (_rate_limits m) in
  (size expired,
   with_rate_limits m
     (filter (fun kv => ¬ Qle_bool (reset_time kv.2) now = true) (_rate_limits m))).

(** [reset_ms or DEFAULT_COOLDOWN_MS]: [None] and [0] are falsy. *)
Definition reset_or_default (reset_ms : option Z) : Z :=
  match reset_ms with
  | Some r => if r =? 0 then CommonUtils.DEFAULT_COOLDOWN_MS else r
  | None => CommonUtils.DEFAULT_COOLDOWN_MS
  end.

Definition mark_rate_limited (m : AccountManager) (email : string)
    (reset_ms : option Z) (model_id : option string) (now : Q)
  : AccountManager :=
  let key := _get_rate_limit_key email model_id in
  let reset_time := (now + inject_Z (reset_or_default reset_ms))%Q in
  with_rate_limits m (<[key := mkRateLimit reset_time model_id]> (_rate_limits m)).

(** The loop of [mark_invalid]: the first dict of [accounts] whose email
    matches is updated in place, through its reference. *)
Fixpoint mark_invalid_loop (h : list Account) (accounts : list ref)
    (e reason : string) : list Account :=
  match accounts with
  | [] => h
  | r :: rest =>
      let d := deref h r in
      if String.eqb (email d) e
      then <[r := mkAccount (email d) (refresh_token d) (project_id d)
                    (Some true) (Some reason)]> h
      else mark_invalid_loop h rest e reason
  end.

Definition mark_invalid (m : AccountManager) (e reason : string)
  : AccountManager :=
  let a := _authenticator m in
  let accounts := get_accounts a in
  with_authenticator m (with_heap a (mark_invalid_loop (heap a) accounts e reason)).

(** [min(min_wait, wait)] where [None] is [float("inf")]. *)
Definition min_inf (min_wait : option Q) (wait : Q) : option Q :=
  match min_wait with
  | Some w => Some (PyFloat.min w wait)
  | None => Some wait
  end.

(** The guard of the loop of [get_min_wait_time_ms]: the entry is skipped
    when [model_id and f":{model_id}" not in key and ":" in key]. *)
Definition skipped (model_id : option string) (key : string) : bool :=
  PyStr.truthy model_id
  && negb (PyStr.contains (":" +:+ default "" model_id) key)
  && PyStr.contains ":" key.

Definition min_wait_step (model_id : option string) (now : Q)
    (min_wait : option Q) (item : string * RateLimit) : option Q :=
  let '(key, limit) := item in
  if skipped model_id key then min_wait
  else
    if PyFloat.gtb (reset_time limit) now
    then min_inf min_wait (reset_time limit - now)%Q
    else min_wait.

(** [int(min_wait) if min_wait != float("inf") else 0] *)
Definition get_min_wait_time_ms (m : AccountManager)
    (model_id : option string) (now : Q) : Z :=
  let min_wait :=
    fold_left (min_wait_step model_id now) (map_to_list (_rate_limits m)) None in
  match min_wait with
  | Some w => PyFloat.int w
  | None => 0
  end.

(** The [for _ in range(len(accounts))] loop of [pick_next]; [fuel] counts
    the iterations left and [idx] is [self._current_index]. *)
Fixpoint pick_next_loop (m : AccountManager) (accounts : list ref)
    (model_id : option string) (now : Q) (fuel : nat) (idx : nat)
  : option (ref * nat) :=
  match fuel with
  | O => None
  | S fuel' =>
      let idx' := ((idx + 1) mod length accounts)%nat in
      let account := default 0%nat (accounts !! idx') in
      if usable m model_id now account
      then Some (account, idx')
      else pick_next_loop m accounts model_id now fuel' idx'
  end.

Definition pick_next (m : AccountManager) (model_id : option string)
    (now : Q) : option ref * AccountManager :=
  let accounts := get_accounts (_authenticator m) in
  match accounts with
  | [] => (None, m)
  | _ =>
      let start_index := _current_index m in
      match pick_next_loop m accounts model_id now (length accounts) start_index with
      | Some (account, idx) => (Some account, with_index m idx)
      | None => (None, with_index m start_index)
      end
  end.

Definition get_current_sticky_account (m : AccountManager)
    (model_id : option string) (now : Q) : option ref * AccountManager :=
  let accounts := get_accounts (_authenticator m) in
  match accounts with
  | [] => (None, m)
  | _ =>
      let m1 := if (length accounts <=? _current_index m)%nat
                then with_index m 0%nat else m in
      let account := default 0%nat (accounts !! _current_index m1) in
      if usable m1 model_id now account then (Some account, m1) else (None, m1)
  end.

Definition should_wait_for_current_account (m : AccountManager)
    (model_id : option string) (now : Q) : bool * Z * option ref :=
  let accounts := get_accounts (_authenticator m) in
  match accounts !! _current_index m with
  | None => (false, 0, None)
  | Some account =>
      let d := deref (heap (_authenticator m)) account in
      if _is_account_invalid d then (false, 0, None)
      else
        let key := _get_rate_limit_key (email d) model_id in
        let global_key := _get_rate_limit_key (email d) None in
        let wait_ms :=
          fold_left
            (fun wait_ms k =>
               match _rate_limits m !! k with
               | Some limit =>
                   if PyFloat.gtb (reset_time limit) now
                   then Z.max wait_ms (PyFloat.int (reset_time limit - now))
                   else wait_ms
               | None => wait_ms
               end)
            [key; global_key] 0 in
        if (0 <? wait_ms) && (wait_ms <=? CommonUtils.MAX_WAIT_BEFORE_ERROR_MS)
        then (true, wait_ms, Some account)
        else (false, 0, None)
  end.

Definition pick_sticky_account (m : AccountManager)
    (model_id : option string) (now : Q)
  : option ref * Z * AccountManager :=
  match get_current_sticky_account m model_id now with
  | (Some sticky, m1) => (Some sticky, 0, m1)
  | (None, m1) =>
      let '(should_wait, wait_ms, _) :=
        should_wait_for_current_account m1 model_id now in
      if should_wait && (wait_ms <=? CommonUtils.MAX_WAIT_BEFORE_ERROR_MS / 2)
      then (None, wait_ms, m1)
      else
        let '(next_account, m2) := pick_next m1 model_id now in
        (next_account, 0, m2)
  end.

Definition reset_all_rate_limits (m : AccountManager) : AccountManager :=
  with_rate_limits m ∅.

End Manager.

(** ** The OAuth callback of proxy/antigravity_endpoints/endpoints.py *)

Module Endpoints.
Import Auth Manager.

(** The body of [antigravity_auth_callback] after the token exchange: the
    account is added to (or refreshed in) a copy of the list, which then
    replaces [_accounts], and the file is written. *)
Definition antigravity_auth_callback (m : AccountManager) (r : OAuthResult)
    (now : Z) : AccountManager :=
  let a := _authenticator m in
  let accounts := get_accounts a in
  let a1 :=
    match find_by_email (heap a) accounts (oa_email r) with
    | Some existing =>
        let d := deref (heap a) existing in
        with_accounts
          (with_heap a
             (<[existing := mkAccount (email d) (oa_refresh_token r)
                              (oa_project_id r) None (invalid_reason d)]>
                (heap a)))
          accounts
    | None =>
        let fresh := length (heap a) in
        with_accounts
          (with_heap a
             (heap a ++ [mkAccount (oa_email r) (oa_refresh_token r)
                           (oa_project_id r) None None]))
          (accounts ++ [fresh])
    end in
  let a2 := _save_accounts a1 in
  with_authenticator m
    (with_token_cache a2
       (TokenCache_set (_token_cache a2) (oa_email r) (oa_access_token r)
          (oa_expires_in r) now)).

End Endpoints.

(** ** chat/transformation.py *)

Module Transformation.
Import CommonUtils.

(** JSON values as Python sees them after [json.loads]: a dict is an
    association list in insertion order; [JFloat m e] is the float
    [m * 2 ** e]. *)
Unset Elimination Schemes.
Inductive json : Type :=
| JNull
| JBool (b : bool)
| JInt (n : Z)
| JFloat (m e : Z)
| JStr (s : string)
| JArr (l : list json)
| JObj (items : list (string * json)).
Set Elimination Schemes.

Definition is_dict (v : json) : bool :=
  match v with JObj _ => true | _ => false end.

(** [d[k] = v]: overwrite the value of an existing key where it stands,
    otherwise append the key. *)
Fixpoint dict_set {V : Type} (d : list (string * V)) (k : string) (v : V)
  : list (string * V) :=
  match d with
  | [] => [(k, v)]
  | (k', v') :: d' =>
      if String.eqb k' k then (k', v) :: d' else (k', v') :: dict_set d' k v
  end.

(** [k in d] *)
Definition dict_has {V : Type} (k : string) (d : list (string * V)) : bool :=
  existsb (fun kv => String.eqb kv.1 k) d.

Definition dropped_keys : list string :=
  ["$schema"; "$id"; "$ref"; "definitions"; "$defs"; "examples"; "default"].

Definition key_in (key : string) (keys : list string) : bool :=
  existsb (String.eqb key) keys.

Definition dict_items (v : json) : list (string * json) :=
  match v with JObj items => items | _ => [] end.

(** [value is False] *)
Definition is_False (v : json) : bool :=
  match v with JBool false => true | _ => false end.

(** One iteration of the loop of [_sanitize_schema] over [schema.items()];
    [rec] is [_sanitize_schema] itself. *)
Definition sanitize_entry (rec : json -> json)
    (result : list (string * json)) (key : string) (value : json)
  : list (string * json) :=
  if key_in key dropped_keys then result
  else if String.eqb key "properties" && is_dict value then
    dict_set result key
      (JObj (match value with
             | JObj props => fold_left (fun d kv => dict_set d kv.1 (rec kv.2)) props []
             | _ => []
             end))
  else if String.eqb key "items" && is_dict value then
    dict_set result key (rec value)
  else if String.eqb key "additionalProperties" then
    if is_dict value then dict_set result key (rec value)
    else if is_False value then dict_set result key (JBool false)
    else result
  else if is_dict value then dict_set result key (rec value)
  else dict_set result key value.

Fixpoint _sanitize_schema (schema : json) : json :=
  match schema with
  | JObj items =>
      let result :=
        fold_left (fun result kv => sanitize_entry _sanitize_schema result kv.1 kv.2)
          items [] in
      JObj (if dict_has "type" result then result
            else dict_set result "type" (JStr "object"))
  | _ => JObj [("type", JStr "object")]
  end.

(** *** The generation config and the tool declarations of
    [_build_request_payload] *)

Record Thinking : Type := mkThinking { budget_tokens : option Z }.

(** [optional_params]; [None] is a key that is absent. *)
Record OptionalParams : Type := mkOptionalParams {
  max_tokens : option Z;
  temperature : option json;
  top_p : option json;
  stop : option json;
  thinking : option Thinking;
  tools : list json
}.

Inductive ThinkingConfig : Type :=
| ClaudeThinking (include_thoughts : bool) (thinking_budget : option Z)
| GeminiThinking (includeThoughts : bool) (thinkingBudget : Z).

Record GenerationConfig : Type := mkGenerationConfig {
  maxOutputTokens : option Z;
  gc_temperature : option json;
  topP : option json;
  stopSequences : option json;
  thinkingConfig : option ThinkingConfig
}.

Definition with_maxOutputTokens (g : GenerationConfig) (v : Z) : GenerationConfig :=
  mkGenerationConfig (Some v) (gc_temperature g) (topP g) (stopSequences g) (thinkingConfig g).
Definition with_thinkingConfig (g : GenerationConfig) (t : ThinkingConfig) : GenerationConfig :=
  mkGenerationConfig (maxOutputTokens g) (gc_temperature g) (topP g) (stopSequences g) (Some t).

(** [optional_params.get("thinking", {}).get("budget_tokens")] *)
Definition thinking_budget_tokens (optional_params : OptionalParams) : option Z :=
  match thinking optional_params with
  | Some t => budget_tokens t
  | None => None
  end.

(** Truthiness of an integer. *)
Definition nonzero (n : Z) : bool := negb (n =? 0).

Definition build_generation_config (model : string)
    (optional_params : OptionalParams) : GenerationConfig :=
  let model_family := get_model_family model in
  let is_thinking := is_thinking_model model in
  let g0 :=
    mkGenerationConfig (max_tokens optional_params) (temperature optional_params)
      (top_p optional_params)
      (match stop optional_params with
       | Some (JStr s) => Some (JArr [JStr s])
       | Some (JArr l) => Some (JArr l)
       | _ => None
       end)
      None in
  let g1 :=
    if is_thinking then
      if family_eqb model_family claude then
        match thinking_budget_tokens optional_params with
        | Some budget =>
            if nonzero budget then
              let max_tokens := default 0 (maxOutputTokens g0) in
              let g :=
                if nonzero max_tokens && (max_tokens <=? budget)
                then with_maxOutputTokens g0 (budget + 8192)
                else g0 in
              with_thinkingConfig g (ClaudeThinking true (Some budget))
            else with_thinkingConfig g0 (ClaudeThinking true None)
        | None => with_thinkingConfig g0 (ClaudeThinking true None)
        end
      else
        with_thinkingConfig g0
          (GeminiThinking true (default 16000 (thinking_budget_tokens optional_params)))
    else g0 in
  if family_eqb model_family gemini then
    let max_tokens := default 0 (maxOutputTokens g1) in
    if max_tokens >? GEMINI_MAX_OUTPUT_TOKENS
    then with_maxOutputTokens g1 GEMINI_MAX_OUTPUT_TOKENS
    else g1
  else g1.

(** [d.get(k)] on a JSON value that is a dict. *)
Definition dict_get (v : json) (k : string) : option json :=
  option_map snd (List.find (fun kv => String.eqb kv.1 k) (dict_items v)).

Record FunctionDeclaration : Type := mkFunctionDeclaration {
  fd_name : json;
  fd_description : json;
  fd_parameters : json
}.

Definition function_declaration (tool : json) : FunctionDeclaration :=
  let func := default tool (dict_get tool "function") in
  let name := default (JStr "") (dict_get func "name") in
  let description := default (JStr "") (dict_get func "description") in
  let parameters :=
    default (default (JObj [("type", JStr "object")]) (dict_get func "input_schema"))
      (dict_get func "parameters") in
  mkFunctionDeclaration name description (_sanitize_schema parameters).

(** The part of the payload built from [model], [optional_params] and
    [project_id].  The fields [contents], [systemInstruction], [sessionId]
    and [requestId] come from the message list, SHA-256 and random tokens and
    are not part of this record. *)
Record RequestPayload : Type := mkRequestPayload {
  project : string;
  payload_model : string;
  generationConfig : GenerationConfig;
  payload_tools : option (list FunctionDeclaration);
  userAgent : string
}.

Definition _build_request_payload (model : string)
    (optional_params : OptionalParams) (project_id : string) : RequestPayload :=
  mkRequestPayload project_id model
    (build_generation_config model optional_params)
    (match tools optional_params with
     | [] => None
     | ts => Some (map function_declaration ts)
     end)
    "antigravity-litellm".

(** *** [_convert_google_response_to_openai] *)

Record FunctionCall : Type := mkFunctionCall {
  fc_id : option string;
  fc_name : option string;
  fc_args : option json
}.

(** A part dict: [text] and [functionCall] are [None] when the key is
    absent; [thought] is the truthiness of [part.get("thought")]. *)
Record Part : Type := mkPart {
  text : option string;
  thought : bool;
  thoughtSignature : option string;
  functionCall : option FunctionCall
}.

Record Candidate : Type := mkCandidate {
  parts : list Part;
  finishReason : option string
}.

Record UsageMetadata : Type := mkUsageMetadata {
  promptTokenCount : option Z;
  cachedContentTokenCount : option Z;
  candidatesTokenCount : option Z
}.

Record GoogleBody : Type := mkGoogleBody {
  candidates : list Candidate;
  usageMetadata : UsageMetadata
}.

(** The reply either carries the body under the key ["response"] or is the
    body itself. *)
Inductive GoogleResponse : Type :=
| Wrapped (response : GoogleBody)
| Bare (body : GoogleBody).

Inductive ContentBlock : Type :=
| ThinkingBlock (thinking signature : string)
| TextBlock (text : string).

(** [tc_arguments] is the value that [json.dumps] serialises. *)
Record ToolCall : Type := mkToolCall {
  tc_id : string;
  tc_type : string;
  tc_name : string;
  tc_arguments : json
}.

Record Message : Type := mkMessage {
  role : string;
  content : option string;
  tool_calls : option (list ToolCall)
}.

Record Usage : Type := mkUsage {
  prompt_tokens : Z;
  completion_tokens : Z;
  total_tokens : Z
}.

Record OpenAIResponse : Type := mkOpenAIResponse {
  id : string;
  object : string;
  created : Z;
  resp_model : string;
  message : Message;
  finish_reason : string;
  usage : Usage
}.

(** The loop over [parts]; [token_hex k] is the [k]-th random token drawn
    from [secrets]. *)
Fixpoint convert_parts (token_hex : nat -> string) (ps : list Part)
    (content_blocks : list ContentBlock) (tool_calls : list ToolCall)
  : list ContentBlock * list ToolCall :=
  match ps with
  | [] => (content_blocks, tool_calls)
  | part :: rest =>
      match text part with
      | Some t =>
          if thought part
          then convert_parts token_hex rest
                 (content_blocks ++ [ThinkingBlock t (default "" (thoughtSignature part))])
                 tool_calls
          else convert_parts token_hex rest (content_blocks ++ [TextBlock t]) tool_calls
      | None =>
          match functionCall part with
          | Some fc =>
              convert_parts token_hex rest content_blocks
                (tool_calls ++
                 [mkToolCall
                    (default ("call_" +:+ token_hex (length tool_calls)) (fc_id fc))
                    "function"
                    (default "" (fc_name fc))
                    (default (JObj []) (fc_args fc))])
          | None => convert_parts token_hex rest content_blocks tool_calls
          end
      end
  end.

(** The loop that joins the text blocks. *)
Fixpoint join_text (content_blocks : list ContentBlock) (text_content : string)
  : string :=
  match content_blocks with
  | [] => text_content
  | TextBlock t :: rest => join_text rest (text_content +:+ t)
  | ThinkingBlock _ _ :: rest => join_text rest text_content
  end.

Definition unwrap (google_response : GoogleResponse) : GoogleBody :=
  match google_response with
  | Wrapped response => response
  | Bare body => body
  end.

Definition _convert_google_response_to_openai (token_hex : nat -> string)
    (now : Z) (google_response : GoogleResponse) (model : string)
  : OpenAIResponse :=
  let response := unwrap google_response in
  let first_candidate := head (candidates response) in
  let ps := match first_candidate with Some c => parts c | None => [] end in
  let '(content_blocks, tool_calls) := convert_parts token_hex ps [] [] in
  let has_tool_calls := negb (length tool_calls =? 0)%nat in
  let finish_reason :=
    default "STOP" (first_candidate ≫= finishReason) in
  let stop_reason :=
    if String.eqb finish_reason "STOP" then "stop"
    else if String.eqb finish_reason "MAX_TOKENS" then "length"
    else if String.eqb finish_reason "TOOL_USE" || has_tool_calls then "tool_calls"
    else "stop" in
  let usage_metadata := usageMetadata response in
  let prompt_tokens := default 0 (promptTokenCount usage_metadata) in
  let cached_tokens := default 0 (cachedContentTokenCount usage_metadata) in
  let completion_tokens := default 0 (candidatesTokenCount usage_metadata) in
  let text_content := join_text content_blocks "" in
  let message :=
    mkMessage "assistant"
      (if String.eqb text_content "" then None else Some text_content)
      (match tool_calls with [] => None | _ => Some tool_calls end) in
  mkOpenAIResponse
    ("chatcmpl-" +:+ token_hex (length tool_calls))
    "chat.completion"
    now
    model
    message
    stop_reason
    (mkUsage (prompt_tokens - cached_tokens) completion_tokens
       (prompt_tokens - cached_tokens + completion_tokens)).

End Transformation.

(** ** account_manager.py: [get_status] *)

Module Status.
Import Auth Manager.

Record AccountStatus : Type := mkAccountStatus {
  st_email : string;
  st_is_rate_limited : bool;
  st_is_invalid : bool
}.

Record Status : Type := mkStatus {
  total : nat;
  available : nat;
  rate_limited : nat;
  invalid : nat;
  accounts : list AccountStatus
}.

(** [get_status]; [now] is the clock reading of every test it makes, the
    call being taken as instantaneous. *)
Definition get_status (m : AccountManager) (now : Q) : Status :=
  let h := heap (_authenticator m) in
  let accounts := get_accounts (_authenticator m) in
  let available := get_available_accounts m None now in
  let rate_limited :=
    List.filter
      (fun a => _is_account_rate_limited m (deref h a) None now
                && negb (_is_account_invalid (deref h a)))
      accounts in
  let invalid :=
    List.filter (fun a => _is_account_invalid (deref h a)) accounts in
  mkStatus (length accounts) (length available) (length rate_limited)
    (length invalid)
    (map (fun a =>
            mkAccountStatus (email (deref h a))
              (_is_account_rate_limited m (deref h a) None now)
              (_is_account_invalid (deref h a)))
       accounts).

End Status.

(** ** Notions used to state further properties *)

Module Cover.
Import Auth Manager.

(** The remaining wait of the ledger entry under [key] at [now], in whole
    milliseconds: 0 when there is no entry or its reset has passed. *)
Definition residual_wait (limits : gmap string RateLimit) (key : string)
    (now : Q) : Z :=
  match limits !! key with
  | Some limit =>
      if PyFloat.gtb (reset_time limit) now
      then PyFloat.int (reset_time limit - now)
      else 0
  | None => 0
  end.

(** The emails of the listed accounts, in list order. *)
Definition listed_emails (a : Authenticator) : list string :=
  map (fun r => email (deref (heap a) r)) (_accounts a).

(** The account list is well formed: its references point into the store and
    no two listed accounts carry the same email. *)
Definition unique_emails (a : Authenticator) : Prop :=
  NoDup (listed_emails a)
  /\ Forall (fun r => (r < length (heap a))%nat) (_accounts a).

End Cover.

(** ** common_utils.py: the model tables *)

Module Models.

Definition ANTIGRAVITY_MODELS : list string :=
  [ "claude-sonnet-4.5-thinking";
    "claude-opus-4.5-thinking";
    "claude-sonnet-4.5";
    "gemini-3-flash";
    "gemini-3-pro-high";
    "gemini-3-pro-low";
    "gemini-2.5-flash";
    "gemini-2.5-pro" ].

Definition MODEL_FALLBACK_MAP : list (string * string) :=
  [ ("gemini-3-pro-high", "claude-opus-4.5-thinking");
    ("gemini-3-pro-low", "claude-sonnet-4.5");
    ("gemini-3-flash", "claude-sonnet-4.5-thinking");
    ("gemini-2.5-flash", "claude-sonnet-4.5");
    ("gemini-2.5-pro", "claude-opus-4.5-thinking");
    ("claude-opus-4.5-thinking", "gemini-3-pro-high");
    ("claude-sonnet-4.5-thinking", "gemini-3-flash");
    ("claude-sonnet-4.5", "gemini-2.5-flash") ].

(** [MODEL_FALLBACK_MAP.get(model)] *)
Definition get_fallback_model (model : string) : option string :=
  option_map snd
    (List.find (fun kv => String.eqb kv.1 model) MODEL_FALLBACK_MAP).

End Models.

(** ** chat/transformation.py: how [completion] chooses the account *)

Module Dispatch.
Import Auth Manager.

(** What the part of [completion] that precedes the HTTP exchange ends in:
    an account to use, [AntigravityQuotaExhaustedError], a restart of
    [completion] with the fallback model, or [AntigravityNoAccountsError]. *)
Inductive selection : Type :=
| Use (account : ref)
| QuotaExhausted (all_wait_ms : Z)
| Fallback (fallback_model : string)
| NoAccounts.

(** The clock readings of the calls, in the order in which they are made:
    [pick_sticky_account]; after the first sleep [clear_expired_limits] and
    [get_current_sticky_account]; [is_all_rate_limited];
    [get_min_wait_time_ms]; after the second sleep [clear_expired_limits] and
    [pick_next]. *)
Record Clocks : Type := mkClocks {
  t_pick_sticky : Q;
  t_sweep1 : Q;
  t_sticky : Q;
  t_all_limited : Q;
  t_min_wait : Q;
  t_sweep2 : Q;
  t_pick_next : Q
}.

(** The last step: no account was found. *)
Definition no_account (model : string) (m : AccountManager)
  : selection * AccountManager :=
  match Models.get_fallback_model model with
  | Some fallback_model =>
      if String.eqb fallback_model "" then (NoAccounts, m)
      else (Fallback fallback_model, m)
  | None => (NoAccounts, m)
  end.

(** One attempt of [completion] up to the point where an account is in hand
    or the attempt is given up. *)
Definition select_account (m : AccountManager) (model : string) (c : Clocks)
  : selection * AccountManager :=
  let '(account, wait_ms, m1) :=
    pick_sticky_account m (Some model) (t_pick_sticky c) in
  let '(account, m2) :=
    match account with
    | Some _ => (account, m1)
    | None =>
        if (0 <? wait_ms) && (wait_ms <=? CommonUtils.MAX_WAIT_BEFORE_ERROR_MS)
        then
          let m' := (clear_expired_limits m1 (t_sweep1 c)).2 in
          get_current_sticky_account m' (Some model) (t_sticky c)
        else (None, m1)
    end in
  match account with
  | Some a => (Use a, m2)
  | None =>
      if is_all_rate_limited m2 (Some model) (t_all_limited c) then
        let all_wait_ms := get_min_wait_time_ms m2 (Some model) (t_min_wait c) in
        if all_wait_ms >? CommonUtils.MAX_WAIT_BEFORE_ERROR_MS
        then (QuotaExhausted all_wait_ms, m2)
        else
          let m3 := (clear_expired_limits m2 (t_sweep2 c)).2 in
          match pick_next m3 (Some model) (t_pick_next c) with
          | (Some a, m4) => (Use a, m4)
          | (None, m4) => no_account model m4
          end
      else no_account model m2
  end.

(** The restarts of [completion] with the fallback model, followed for at
    most [fuel] rounds; [None] means that the rounds were used up with
    [completion] still restarting. *)
Fixpoint select_with_fallback (fuel : nat) (m : AccountManager)
    (model : string) (clocks : nat -> Clocks)
  : option (selection * AccountManager) :=
  match fuel with
  | O => None
  | S fuel' =>
      match select_account m model (clocks fuel') with
      | (Fallback fallback_model, m') =>
          select_with_fallback fuel' m' fallback_model clocks
      | res => Some res
      end
  end.

End Dispatch.

(** ** Shapes of texts *)

Module Texts.

(** A run of decimal digits, possibly empty. *)
Fixpoint all_digits (s : string) : bool :=
  match s with
  | EmptyString => true
  | String c s' => PyStr.is_digit c && all_digits s'
  end.

(** A number as the server prints it: one decimal digit or more. *)
Definition number (s : string) : bool :=
  negb (String.eqb s "") && all_digits s.

(** The text does not begin with a digit. *)
Definition no_leading_digit (s : string) : bool :=
  match s with
  | String c _ => negb (PyStr.is_digit c)
  | EmptyString => true
  end.

(** The character [c] does not occur in the text, in either letter case. *)
Fixpoint free_of (c : ascii) (s : string) : bool :=
  match s with
  | EmptyString => true
  | String d s' =>
      negb (Ascii.eqb (PyStr.lower_char c) (PyStr.lower_char d)) && free_of c s'
  end.

End Texts.

(** ** Readings of a reply, part by part *)

Module Reply.
Import Transformation.

(** The content block that a part contributes: a part with the key ["text"]
    gives a thinking block or a text block. *)
Definition block_of (part : Part) : option ContentBlock :=
  match text part with
  | Some t =>
      Some (if thought part
            then ThinkingBlock t (default "" (thoughtSignature part))
            else TextBlock t)
  | None => None
  end.

(** The function call that a part contributes: only a part without the key
    ["text"] is looked at for ["functionCall"]. *)
Definition call_of (part : Part) : option FunctionCall :=
  match text part with
  | Some _ => None
  | None => functionCall part
  end.

(** The tool call built from the [k]-th function call of the reply. *)
Definition tool_call (token_hex : nat -> string) (k : nat) (fc : FunctionCall)
  : ToolCall :=
  mkToolCall (default ("call_" +:+ token_hex k) (fc_id fc)) "function"
    (default "" (fc_name fc)) (default (JObj []) (fc_args fc)).

(** The parts of the first candidate. *)
Definition first_parts (google_response : GoogleResponse) : list Part :=
  match head (candidates (unwrap google_response)) with
  | Some c => parts c
  | None => []
  end.

(** [first_candidate.get("finishReason", "STOP")] *)
Definition reason (google_response : GoogleResponse) : string :=
  default "STOP" (head (candidates (unwrap google_response)) ≫= finishReason).

End Reply.

(** ** chat/transformation.py: from OpenAI messages to Google contents

    Messages and content blocks are dicts.  They are modelled by records and
    by one constructor per value of the key ["type"], with the fields typed as
    the code reads them (strings where it calls string methods, lists where
    it iterates); a key that is absent is [None].  The key ["tool_calls"],
    which clients send as a list or as [None], has both values.  A result
    [None] of the conversion stands for an exception of the code: the
    [ValueError] on a [data:] URL without a comma, or the [TypeError] of the
    loop over ["tool_calls"] when the key holds [None]. *)

Module Messages.
Import CommonUtils Transformation.

Definition _convert_role (role : string) : string :=
  if String.eqb role "assistant" then "model" else "user".

(** [o == s] for the value [o] of a key that may be absent. *)
Definition is_str (o : option string) (s : string) : bool :=
  match o with
  | Some t => String.eqb t s
  | None => false
  end.

(** [s.split(c, 1)] when [c] occurs in [s]: the text before the first [c]
    and the text after it. *)
Fixpoint split_once (c : ascii) (s : string) : option (string * string) :=
  match s with
  | EmptyString => None
  | String d s' =>
      if Ascii.eqb d c then Some (EmptyString, s')
      else
        match split_once c s' with
        | Some (a, b) => Some (String d a, b)
        | None => None
        end
  end.

(** [s.split(c)[0]] *)
Definition before (c : ascii) (s : string) : string :=
  match split_once c s with
  | Some (a, _) => a
  | None => s
  end.

(** [s.replace("data:", "")] *)
Fixpoint remove_data (s : string) : string :=
  match s with
  | String "d" (String "a" (String "t" (String "a" (String ":" rest)))) =>
      remove_data rest
  | String c s' => String c (remove_data s')
  | EmptyString => EmptyString
  end.

(** [sep.join(l)] *)
Fixpoint join (sep : string) (l : list string) : string :=
  match l with
  | [] => ""
  | x :: rest =>
      match rest with
      | [] => x
      | _ => x +:+ sep +:+ join sep rest
      end
  end.

(** [block.get("source", {})] of an image block. *)
Record ImageSource : Type := mkImageSource {
  src_type : option string;
  src_media_type : option string;
  src_data : option string;
  src_url : option string
}.

(** An item of the list content of a tool result. *)
Record ResultItem : Type := mkResultItem {
  ri_type : option string;
  ri_text : option string
}.

Inductive ResultContent : Type :=
| RStr (s : string)
| RList (items : list ResultItem)
| ROther (v : json).

(** A content block: the empty dict, one constructor per block type that
    [_convert_content_to_parts] knows, and [BOther] for a dict with any other
    ["type"] or none. *)
Inductive Block : Type :=
| BEmpty
| BText (text : option string)
| BImage (source : ImageSource)
| BImageUrl (url : option string)
| BToolUse (name : option string) (input : option json)
    (id thoughtSignature : option string)
| BToolResult (content : option ResultContent) (tool_use_id : option string)
| BThinking (thinking signature : option string)
| BOther.

(** The value of ["content"]: a string, a list of blocks, or anything else
    (such as [None]). *)
Inductive Content : Type :=
| CStr (s : string)
| CList (blocks : list Block)
| COther (v : json).

(** The value of ["response"] in a function response: [{"result": s}] or a
    value passed on as it came. *)
Inductive Response : Type :=
| RespResult (s : string)
| RespRaw (v : json).

(** A part of a Google content. *)
Inductive GPart : Type :=
| PText (text : string)
| PThought (text thoughtSignature : string)
| PInlineData (mimeType : string) (data : option string)
| PFileData (mimeType : string) (fileUri : option string)
| PFunctionCall (name : option string) (args : json)
    (id thoughtSignature : option string)
| PFunctionResponse (name : string) (response : Response) (id : option string).

(** An entry of ["tool_calls"]; the fields [name] and [arguments] are those
    of [tc.get("function", {})]. *)
Record ToolCallIn : Type := mkToolCallIn {
  tci_id : option string;
  tci_name : option string;
  tci_arguments : option string
}.

(** The value of ["tool_calls"]: a list of entries, or [None]. *)
Inductive ToolCalls : Type :=
| TCList (calls : list ToolCallIn)
| TCNone.

Record MessageIn : Type := mkMessageIn {
  msg_role : option string;
  msg_content : option Content;
  msg_tool_call_id : option string;
  msg_tool_calls : option ToolCalls
}.

Record GContent : Type := mkGContent {
  gc_role : string;
  gc_parts : list GPart
}.

Definition newline : string := String "010"%char EmptyString.

Section Convert.

(** [str.strip], [str] and [json.loads] ([None] is [JSONDecodeError]). *)
Variable strip : string -> string.
Variable py_str : Content -> string.
Variable json_loads : string -> option json.

(** One iteration of the loop of [_convert_content_to_parts]: the parts it
    appends. *)
Definition convert_block (block : Block) (is_claude is_gemini : bool)
  : option (list GPart) :=
  match block with
  | BEmpty => Some []
  | BText text =>
      let text := default "" text in
      if negb (String.eqb text "") && negb (String.eqb (strip text) "")
      then Some [PText text]
      else Some []
  | BImage source =>
      if is_str (src_type source) "base64" then
        Some [PInlineData (default "image/jpeg" (src_media_type source))
                (src_data source)]
      else if is_str (src_type source) "url" then
        Some [PFileData (default "image/jpeg" (src_media_type source))
                (src_url source)]
      else Some []
  | BImageUrl url =>
      let url := default "" url in
      if String.prefix "data:" url then
        match split_once "," url with
        | Some (header, data) =>
            let mime_type := remove_data (before ";" header) in
            Some [PInlineData mime_type (Some data)]
        | None => None
        end
      else Some [PFileData "image/jpeg" (Some url)]
  | BToolUse name input id thoughtSignature =>
      Some [PFunctionCall name (default (JObj []) input)
              (if is_claude && PyStr.truthy id then id else None)
              (if is_gemini && PyStr.truthy thoughtSignature
               then thoughtSignature else None)]
  | BToolResult content tool_use_id =>
      let response_content :=
        match default (RStr "") content with
        | RStr s => RespResult s
        | RList items =>
            let texts :=
              map (fun c => default "" (ri_text c))
                (List.filter (fun c => is_str (ri_type c) "text") items) in
            RespResult (join newline texts)
        | ROther v => RespRaw v
        end in
      Some [PFunctionResponse (default "unknown" tool_use_id) response_content
              (if is_claude && PyStr.truthy tool_use_id then tool_use_id else None)]
  | BThinking thinking signature =>
      let signature := default "" signature in
      if negb (String.eqb signature "") && (50 <=? String.length signature)%nat
      then Some [PThought (default "" thinking) signature]
      else Some []
  | BOther => Some []
  end.

Fixpoint convert_blocks (content : list Block) (is_claude is_gemini : bool)
    (parts : list GPart) : option (list GPart) :=
  match content with
  | [] => Some parts
  | block :: rest =>
      match convert_block block is_claude is_gemini with
      | Some new => convert_blocks rest is_claude is_gemini (parts ++ new)%list
      | None => None
      end
  end.

Definition _convert_content_to_parts (content : Content)
    (is_claude is_gemini : bool) : option (list GPart) :=
  match content with
  | CStr s => Some [PText s]
  | CList blocks => convert_blocks blocks is_claude is_gemini []
  | COther _ => Some [PText (py_str content)]
  end.

(** What a system message makes of [system_instruction]: its new parts,
    [None] when the message leaves it as it is. *)
Definition system_parts (content : Content) : option (list GPart) :=
  match content with
  | CStr s => Some [PText s]
  | CList blocks =>
      let text_parts :=
        omap (fun c => match c with
                       | BText text => Some (PText (default "" text))
                       | _ => None
                       end) blocks in
      match text_parts with
      | [] => None
      | _ => Some text_parts
      end
  | COther _ => None
  end.

(** The part appended for one entry of ["tool_calls"]. *)
Definition tool_call_part (tc : ToolCallIn) (is_claude : bool) : GPart :=
  PFunctionCall (Some (default "" (tci_name tc)))
    (default (JObj []) (json_loads (default "{}" (tci_arguments tc))))
    (if is_claude then Some (default "" (tci_id tc)) else None)
    None.

(** [for tc in tool_calls: ... parts.append(...)]: the parts appended, and
    [None] for the [TypeError] that iterating over [None] raises. *)
Definition tool_call_parts (tool_calls : ToolCalls) (is_claude : bool)
  : option (list GPart) :=
  match tool_calls with
  | TCList calls => Some (map (fun tc => tool_call_part tc is_claude) calls)
  | TCNone => None
  end.

(** The loop of [_convert_openai_messages_to_google]. *)
Fixpoint convert_messages (messages : list MessageIn) (is_claude is_gemini : bool)
    (contents : list GContent) (system_instruction : option (list GPart))
  : option (list GContent * option (list GPart)) :=
  match messages with
  | [] => Some (contents, system_instruction)
  | msg :: rest =>
      let role := default "user" (msg_role msg) in
      let content := default (CStr "") (msg_content msg) in
      if String.eqb role "system" then
        convert_messages rest is_claude is_gemini contents
          (match system_parts content with
           | Some text_parts => Some text_parts
           | None => system_instruction
           end)
      else if String.eqb role "tool" then
        let tool_call_id := default "unknown" (msg_tool_call_id msg) in
        let tool_content :=
          match content with
          | CStr s => s
          | _ => py_str content
          end in
        convert_messages rest is_claude is_gemini
          (contents ++
           [mkGContent "user"
              [PFunctionResponse tool_call_id (RespResult tool_content) None]])%list
          system_instruction
      else
        match _convert_content_to_parts content is_claude is_gemini with
        | None => None
        | Some parts =>
            let tool_calls := default (TCList []) (msg_tool_calls msg) in
            match tool_call_parts tool_calls is_claude with
            | None => None
            | Some calls =>
                let parts := (parts ++ calls)%list in
                let parts :=
                  match parts with
                  | [] => [PText "."]
                  | _ => parts
                  end in
                convert_messages rest is_claude is_gemini
                  (contents ++ [mkGContent (_convert_role role) parts])%list
                  system_instruction
            end
        end
  end.

Definition _convert_openai_messages_to_google (messages : list MessageIn)
    (model : string) : option (list GContent * option (list GPart)) :=
  let model_family := get_model_family model in
  let is_claude := family_eqb model_family claude in
  let is_gemini := family_eqb model_family gemini in
  convert_messages messages is_claude is_gemini [] None.

End Convert.

(** *** Readings of the conversion *)

(** The block on which [_convert_content_to_parts] raises: an image URL that
    begins with [data:] and has no comma. *)
Definition raises (block : Block) : bool :=
  match block with
  | BImageUrl url =>
      String.prefix "data:" (default "" url)
      && negb (PyStr.contains "," (default "" url))
  | _ => false
  end.


(** The message is a system message. *)
Definition is_system (msg : MessageIn) : bool :=
  String.eqb (default "user" (msg_role msg)) "system".



End Messages.

(** ** The wording of the specification *)

Module Spec.
Import Auth Manager Transformation.

(** The text content as the specification words it: the concatenation of
    the texts of the parts that carry a text and are not thoughts. *)
Fixpoint text_of_parts (ps : list Part) : string :=
  match ps with
  | [] => ""
  | part :: rest =>
      match text part with
      | Some t => if thought part then text_of_parts rest
                  else t +:+ text_of_parts rest
      | None => text_of_parts rest
      end
  end.

(** The parts of the first candidate, [[]] when there is none. *)
Definition first_parts (google_response : GoogleResponse) : list Part :=
  match candidates (unwrap google_response) with
  | c :: _ => parts c
  | [] => []
  end.

(** The entries that the specification says [min_wait_ms] scans under a
    model filter: keys ending in [":" + model_id] and keys without [":"]. *)
Definition scanned_by_suffix (model_id key : string) : bool :=
  PyStr.endswith key (":" +:+ model_id) || negb (PyStr.contains ":" key).

End Spec.

(** ** Derived notions used to state the properties *)

Module Derived.
Import Auth Manager Transformation.

(** What the loop of [get_min_wait_time_ms] scans: everything when the
    filter is absent or empty, otherwise the keys that contain
    [":" + model_id] and the keys without [":"]. *)
Definition scanned_by_substring (model_id : option string) (key : string) : bool :=
  negb (PyStr.truthy model_id)
  || PyStr.contains (":" +:+ default "" model_id) key
  || negb (PyStr.contains ":" key).

(** Successive calls of [pick_next], one per clock reading, with nothing
    else happening in between; the results are listed in call order. *)
Fixpoint pick_next_calls (m : AccountManager) (model_id : option string)
    (clocks : list Q) : list (option ref) * AccountManager :=
  match clocks with
  | [] => ([], m)
  | now :: rest =>
      let '(r, m1) := pick_next m model_id now in
      let '(rs, m2) := pick_next_calls m1 model_id rest in
      (r :: rs, m2)
  end.

(** The value that one iteration of the loop of [_sanitize_schema] stores
    under [key], [None] when the iteration stores nothing. *)
Definition entry_value (rec : json -> json) (key : string) (value : json)
  : option json :=
  if key_in key dropped_keys then None
  else if String.eqb key "properties" && is_dict value then
    Some (JObj (match value with
                | JObj props => fold_left (fun d kv => dict_set d kv.1 (rec kv.2)) props []
                | _ => []
                end))
  else if String.eqb key "items" && is_dict value then Some (rec value)
  else if String.eqb key "additionalProperties" then
    if is_dict value then Some (rec value)
    else if is_False value then Some (JBool false)
    else None
  else if is_dict value then Some (rec value)
  else Some value.

(** A loop that stores [h key value] under [key] for every item, as the loop
    of [_sanitize_schema] and its dict comprehension do. *)
Definition store_all (h : string -> json -> option json)
    (items result : list (string * json)) : list (string * json) :=
  fold_left (fun result kv =>
               match h kv.1 kv.2 with
               | Some v => dict_set result kv.1 v
               | None => result
               end) items result.

(** The literal [lit] matches (ignoring case) at none of the first [n]
    positions of [s]. *)
Fixpoint literal_absent_before (lit : string) (n : nat) (s : string) : bool :=
  match n with
  | O => true
  | S n' =>
      match Re.match_here true (Re.compile lit) s with
      | Some _ => false
      | None =>
          match s with
          | String _ s' => literal_absent_before lit n' s'
          | EmptyString => true
          end
      end
  end.

(** The operations that touch the account dicts or the accounts file. *)
Inductive op : Type :=
| MarkInvalid (email reason : string)
| AddAccountInteractive (r : OAuthResult) (now : Z)
| AuthCallback (r : OAuthResult) (now : Z)
| RemoveAccount (email : string)
| GetProject (account : ref) (discovered : option string)
| Save.

Definition step (m : AccountManager) (o : op) : AccountManager :=
  match o with
  | MarkInvalid e reason => mark_invalid m e reason
  | AddAccountInteractive r now =>
      with_authenticator m (add_account_interactive (_authenticator m) r now)
  | AuthCallback r now => Endpoints.antigravity_auth_callback m r now
  | RemoveAccount e =>
      with_authenticator m (remove_account (_authenticator m) e).2
  | GetProject account discovered =>
      with_authenticator m
        (get_project_for_account (_authenticator m) account discovered).2
  | Save => with_authenticator m (_save_accounts (_authenticator m))
  end.

Definition run (m : AccountManager) (ops : list op) : AccountManager :=
  fold_left step ops m.






(** An entry that the loop of [get_min_wait_time_ms] takes into account:
    it is not skipped and its reset lies in the future. *)
Definition counted (model_id : option string) (now : Q)
    (item : string * RateLimit) : Prop :=
  skipped model_id item.1 = false /\ (now < reset_time item.2)%Q.

End Derived.

(** ** Sample states *)

Module Samples.
Import Auth Manager Transformation.

Definition no_accounts : Authenticator := mkAuthenticator [] [] ∅ ∅ [].

(** A freshly constructed manager with no account on file. *)
Definition empty_manager : AccountManager := mkAccountManager no_accounts 0 ∅.

Definition acct (e : string) : Account :=
  mkAccount e (Some ("rt-" +:+ e)) (Some "proj-1") None None.

(** A manager that loaded the accounts [a@x] and [b@x] from the file. *)
Definition two_accounts : AccountManager :=
  mkAccountManager
    (mkAuthenticator [acct "a@x"; acct "b@x"] [0%nat; 1%nat] ∅ ∅
       [acct "a@x"; acct "b@x"])
    0 ∅.

Definition three_accounts : AccountManager :=
  mkAccountManager
    (mkAuthenticator [acct "a@x"; acct "b@x"; acct "c@x"] [0%nat; 1%nat; 2%nat] ∅ ∅
       [acct "a@x"; acct "b@x"; acct "c@x"])
    0 ∅.

(** [a@x] is limited for the thinking variant of Claude Sonnet only. *)
Definition thinking_limited : AccountManager :=
  mark_rate_limited two_accounts "a@x" (Some 5000)
    (Some "claude-sonnet-4.5-thinking") 1000.

Definition params (m : option Z) (b : option Z) : OptionalParams :=
  mkOptionalParams m None None None (option_map (fun v => mkThinking (Some v)) b) [].

End Samples.

(** * Properties *)

Import Auth Manager Transformation CommonUtils.

Local Open Scope list_scope.

(** ** Python floats *)

Lemma gtb_lt a b : PyFloat.gtb a b = true <-> (b < a)%Q.
Proof.
  unfold PyFloat.gtb. rewrite negb_true_iff. split.
  - intros H. apply Qnot_le_lt. intros Hle. apply Qle_bool_iff in Hle. congruence.
  - intros H. destruct (Qle_bool a b) eqn:E; [| done].
    apply Qle_bool_iff in E. lra.
Qed.

Lemma gtb_le a b : PyFloat.gtb a b = false <-> (a <= b)%Q.
Proof.
  unfold PyFloat.gtb. rewrite negb_false_iff. apply Qle_bool_iff.
Qed.

Lemma gtb_spec a b : reflect (b < a)%Q (PyFloat.gtb a b).
Proof.
  destruct (PyFloat.gtb a b) eqn:E; constructor.
  - by apply gtb_lt.
  - apply gtb_le in E. lra.
Qed.

Lemma Qle_bool_spec a b : reflect (a <= b)%Q (Qle_bool a b).
Proof.
  destruct (Qle_bool a b) eqn:E; constructor.
  - by apply Qle_bool_iff.
  - intros H. apply Qle_bool_iff in H. congruence.
Qed.

Lemma min_spec a b :
  ((a <= b)%Q /\ PyFloat.min a b = a) \/ ((b < a)%Q /\ PyFloat.min a b = b).
Proof.
  unfold PyFloat.min. destruct (gtb_spec a b); [right | left]; split; try done; lra.
Qed.

(** [int] truncates a float that is not negative to the whole number below
    it. *)
Lemma int_bounds x :
  (0 <= x)%Q ->
  0 <= PyFloat.int x
  /\ (inject_Z (PyFloat.int x) <= x)%Q
  /\ (x < inject_Z (PyFloat.int x) + 1)%Q.
Proof.
  intros Hx. unfold PyFloat.int.
  assert (Hn : 0 <= Qnum x).
  { unfold Qle in Hx. simpl in Hx. lia. }
  rewrite Z.quot_div_nonneg by lia.
  replace (Qnum x / Z.pos (Qden x)) with (Qfloor x) by (by destruct x).
  split; [| split].
  - destruct x as [n d]. simpl in *. apply Z.div_pos; lia.
  - apply Qfloor_le.
  - pose proof (Qlt_floor x) as H. rewrite inject_Z_plus in H. exact H.
Qed.

Lemma int_inject_Z n : PyFloat.int (inject_Z n) = n.
Proof. unfold PyFloat.int. simpl. apply Z.quot_1_r. Qed.

Lemma int_mono x y : (0 <= x)%Q -> (x <= y)%Q -> PyFloat.int x <= PyFloat.int y.
Proof.
  intros Hx Hxy.
  destruct (int_bounds x Hx) as (_ & Hx1 & _).
  destruct (int_bounds y ltac:(lra)) as (_ & _ & Hy2).
  assert (H : (inject_Z (PyFloat.int x) < inject_Z (PyFloat.int y) + 1)%Q) by lra.
  rewrite <- (inject_Z_plus _ 1) in H. rewrite <- Zlt_Qlt in H. lia.
Qed.

(** ** The embedding on concrete inputs *)

Example parse_examples :
  CommonUtils.parse_reset_time_from_error "reset after 1h0m0s" = Some 3600000
  /\ CommonUtils.parse_reset_time_from_error "Quota: Reset After 5m" = Some 300000
  /\ CommonUtils.parse_reset_time_from_error "reset after 5m30s" = Some 330000
  /\ CommonUtils.parse_reset_time_from_error "reset after 45s." = Some 45000
  /\ CommonUtils.parse_reset_time_from_error "reset after 2h15m" = Some 8100000
  /\ CommonUtils.parse_reset_time_from_error "try later" = None
  /\ CommonUtils.is_thinking_model "gemini-3-flash" = true
  /\ CommonUtils.is_thinking_model "gemini-2.5-pro" = false
  /\ CommonUtils.is_thinking_model "claude-sonnet-4.5" = false
  /\ CommonUtils.is_thinking_model "Claude-Opus-4.5-Thinking" = true.
Proof. vm_compute. repeat split; reflexivity. Qed.

Example sanitize_example :
  _sanitize_schema
    (JObj [("$schema", JStr "http://json-schema.org/draft-07/schema#");
           ("title", JStr "T");
           ("properties",
            JObj [("a", JObj [("type", JStr "string"); ("default", JStr "x")]);
                  ("default", JInt 5)]);
           ("items", JArr [JInt 1; JFloat 3 (-1)]);
           ("additionalProperties", JBool true);
           ("extra", JObj [("$ref", JStr "#/d")])])
  = JObj [("title", JStr "T");
          ("properties",
           JObj [("a", JObj [("type", JStr "string")]);
                 ("default", JObj [("type", JStr "object")])]);
          ("items", JArr [JInt 1; JFloat 3 (-1)]);
          ("extra", JObj [("type", JStr "object")]);
          ("type", JStr "object")].
Proof. vm_compute. reflexivity. Qed.

Example pick_next_skips_limited_account :
  let m := mark_rate_limited Samples.two_accounts "a@x" (Some 30000)
             (Some "gemini-3-flash") 1000 in
  let '(first, m1) := pick_next m (Some "gemini-3-flash") 2000 in
  let '(second, m2) := pick_next m1 (Some "gemini-3-flash") 2000 in
  first = Some 1%nat /\ second = Some 1%nat /\ _current_index m2 = 1%nat
  /\ (pick_next m2 (Some "gemini-3-flash") 31000).1 = Some 0%nat.
Proof. vm_compute. repeat split; reflexivity. Qed.

(** Waits are truncated to whole milliseconds.  Half a millisecond before the
    reset at 6000 [get_min_wait_time_ms] answers 0 although the account is
    still limited; the wait computed at 1000.5 is 4999, and when it has
    passed, at 5999.5, the account is still limited. *)
Example waits_are_truncated :
  get_min_wait_time_ms Samples.thinking_limited
    (Some "claude-sonnet-4.5-thinking") (11999 # 2) = 0
  /\ _is_account_rate_limited Samples.thinking_limited (Samples.acct "a@x")
       (Some "claude-sonnet-4.5-thinking") (11999 # 2) = true
  /\ should_wait_for_current_account Samples.thinking_limited
       (Some "claude-sonnet-4.5-thinking") (2001 # 2) = (true, 4999, Some 0%nat)
  /\ _is_account_rate_limited Samples.thinking_limited (Samples.acct "a@x")
       (Some "claude-sonnet-4.5-thinking") ((2001 # 2) + inject_Z 4999) = true
  /\ _is_account_rate_limited Samples.thinking_limited (Samples.acct "a@x")
       (Some "claude-sonnet-4.5-thinking") ((2001 # 2) + inject_Z 4999 + 1) = false.
Proof. vm_compute. repeat split; reflexivity. Qed.

(** A message whose ["tool_calls"] holds [None] makes the conversion raise;
    without the key the message is converted. *)
Example tool_calls_none_raises :
  Messages._convert_openai_messages_to_google (fun s => s) (fun _ => "None")
    (fun _ => None)
    [Messages.mkMessageIn (Some "assistant") (Some (Messages.CStr "hi")) None
       (Some Messages.TCNone)]
    "gemini-3-flash" = None
  /\ Messages._convert_openai_messages_to_google (fun s => s) (fun _ => "None")
       (fun _ => None)
       [Messages.mkMessageIn (Some "assistant") (Some (Messages.CStr "hi")) None None]
       "gemini-3-flash"
     = Some ([Messages.mkGContent "model" [Messages.PText "hi"]], None).
Proof. vm_compute. split; reflexivity. Qed.

Example response_example :
  let r := _convert_google_response_to_openai (fun _ => "0123456789abcdef01234567") 1700000000
             (Wrapped
                (mkGoogleBody
                   [mkCandidate
                      [mkPart (Some "plan") true (Some "sig") None;
                       mkPart (Some "Hello, ") false None None;
                       mkPart None false None
                         (Some (mkFunctionCall None (Some "lookup") None));
                       mkPart (Some "world") false None None]
                      (Some "TOOL_USE")]
                   (mkUsageMetadata (Some 100) (Some 40) (Some 7))))
             "gemini-3-flash" in
  content (message r) = Some "Hello, world"
  /\ option_map (map tc_id) (tool_calls (message r))
     = Some ["call_0123456789abcdef01234567"]
  /\ finish_reason r = "tool_calls"
  /\ usage r = mkUsage 60 7 67.
Proof. vm_compute. repeat split; reflexivity. Qed.

(** ** Token cache *)

Lemma TokenCache_get_set_same cache e t ttl set_time now :
  TokenCache_get (TokenCache_set cache e t ttl set_time) e now
  = if set_time + ttl - 60 >? now then Some t else None.
Proof.
  unfold TokenCache_get, TokenCache_set.
  by rewrite lookup_insert_eq.
Qed.

(** C3. After [set(email, t, ttl)] at time [set_time], [get(email)] returns
    [t] at every time [now < set_time + ttl - 60] and [None] at every time
    [now >= set_time + ttl - 60]; hence a token that [get] returns is at
    least 60 seconds away from its stated expiry [set_time + ttl]. *)
Theorem C3_token_cache_set_get (cache : gmap string TokenEntry)
    (e t : string) (ttl set_time now : Z) :
  (now < set_time + ttl - 60 ->
     TokenCache_get (TokenCache_set cache e t ttl set_time) e now = Some t)
  /\ (now >= set_time + ttl - 60 ->
     TokenCache_get (TokenCache_set cache e t ttl set_time) e now = None)
  /\ (forall tok,
     TokenCache_get (TokenCache_set cache e t ttl set_time) e now = Some tok ->
     tok = t /\ now + 60 < set_time + ttl).
Proof.
  rewrite TokenCache_get_set_same.
  destruct (Z.gtb_spec (set_time + ttl - 60) now) as [Hgt | Hle].
  - repeat split; [lia | congruence | lia].
  - repeat split; try (intros; lia); try done.
Qed.

Lemma C3_witness :
  TokenCache_get (TokenCache_set ∅ "a@x" "ya29.tok" 3600 1000) "a@x" 4539
    = Some "ya29.tok"
  /\ TokenCache_get (TokenCache_set ∅ "a@x" "ya29.tok" 3600 1000) "a@x" 4540
    = None.
Proof.
  split.
  - apply (proj1 (C3_token_cache_set_get ∅ "a@x" "ya29.tok" 3600 1000 4539)). lia.
  - apply (proj1 (proj2 (C3_token_cache_set_get ∅ "a@x" "ya29.tok" 3600 1000 4540))). lia.
Defined.

(** ** Rate-limit ledger: marking *)

Lemma mark_rate_limited_lookup m e reset_ms model now :
  _rate_limits (mark_rate_limited m e reset_ms model now)
    !! _get_rate_limit_key e model
  = Some (mkRateLimit (now + inject_Z (reset_or_default reset_ms)) model).
Proof. unfold mark_rate_limited; simpl. apply lookup_insert_eq. Qed.

(** C6, as the specification states it, fails for [reset_ms = 0]: the entry
    stored for [mark_rate_limited("a@x", 0)] at time 1000 has
    [reset_time = 61000], not [1000 + 0]. *)
Lemma C6_counterexample_zero_reset :
  reset_time <$>
    (_rate_limits (mark_rate_limited Samples.empty_manager "a@x" (Some 0) None 1000)
       !! "a@x")
  = Some 61000%Q
  /\ ~ (61000 == 1000 + 0)%Q.
Proof. split; [vm_compute; reflexivity | intros H; lra]. Qed.

(** C6 (amended). [mark_rate_limited] stores, under the key of
    [(email, model)], [reset_time = now + reset_ms] when [reset_ms] is given
    and is not zero, and [reset_time = now + 60_000] when [reset_ms] is absent
    or zero. *)
Theorem C6_mark_rate_limited_reset_time (m : AccountManager) (e : string)
    (model : option string) (reset_ms : option Z) (now : Q) :
  (forall r, reset_ms = Some r -> r <> 0 ->
     _rate_limits (mark_rate_limited m e reset_ms model now)
       !! _get_rate_limit_key e model
     = Some (mkRateLimit (now + inject_Z r) model))
  /\ (reset_ms = None \/ reset_ms = Some 0 ->
     _rate_limits (mark_rate_limited m e reset_ms model now)
       !! _get_rate_limit_key e model
     = Some (mkRateLimit (now + 60000) model)).
Proof.
  rewrite mark_rate_limited_lookup. split.
  - intros r -> Hr. unfold reset_or_default.
    destruct (Z.eqb_spec r 0); [contradiction | reflexivity].
  - intros [-> | ->]; reflexivity.
Qed.

Lemma C6_witness :
  _rate_limits
    (mark_rate_limited Samples.empty_manager "a@x" (Some 30000)
       (Some "gemini-3-flash") 1000)
    !! "a@x:gemini-3-flash"
  = Some (mkRateLimit 31000 (Some "gemini-3-flash"))
  /\ _rate_limits
       (mark_rate_limited Samples.empty_manager "a@x" None
          (Some "gemini-3-flash") 1000)
       !! "a@x:gemini-3-flash"
     = Some (mkRateLimit 61000 (Some "gemini-3-flash")).
Proof.
  split.
  - apply (proj1 (C6_mark_rate_limited_reset_time Samples.empty_manager "a@x"
                    (Some "gemini-3-flash") (Some 30000) 1000) 30000);
      [reflexivity | lia].
  - apply (proj2 (C6_mark_rate_limited_reset_time Samples.empty_manager "a@x"
                    (Some "gemini-3-flash") None 1000)).
    left; reflexivity.
Defined.

(** ** Generation config *)

Lemma family_eqb_eq a b : family_eqb a b = true <-> a = b.
Proof. destruct a, b; simpl; split; congruence. Qed.

(** For a Claude thinking model with a budget [b] and [max_tokens = m]. *)
Lemma claude_thinking_max_output model optional_params b m :
  get_model_family model = claude ->
  is_thinking_model model = true ->
  thinking_budget_tokens optional_params = Some b ->
  max_tokens optional_params = Some m ->
  maxOutputTokens (build_generation_config model optional_params)
  = Some (if nonzero b && (nonzero m && (m <=? b)) then b + 8192 else m).
Proof.
  intros Hfam Hthink Hb Hm.
  unfold build_generation_config.
  rewrite Hfam, Hthink, Hb; simpl.
  rewrite Hm; simpl.
  destruct (nonzero b); simpl; [| reflexivity].
  destruct (nonzero m && (m <=? b)); reflexivity.
Qed.

(** C4, as the specification states it, fails when the budget equals
    [max_tokens]: with [b = m = 10000] on [claude-sonnet-4.5-thinking] the
    payload carries [maxOutputTokens = 18192], although [b] does not exceed
    [m]. *)
Lemma C4_counterexample_budget_equals_max :
  maxOutputTokens
    (generationConfig
       (_build_request_payload "claude-sonnet-4.5-thinking"
          (Samples.params (Some 10000) (Some 10000)) "proj-1"))
  = Some 18192
  /\ ~ (10000 > 10000)
  /\ 18192 <> 10000.
Proof. split; [vm_compute; reflexivity | lia]. Qed.

(** C4 (amended). For a Claude-family thinking model and a request with a
    thinking budget [b] and [max_tokens = m], the payload's [maxOutputTokens]
    is [b + 8192] exactly when [m <= b] (the budget reaches or exceeds
    [max_tokens]) and neither is zero, and is [m] otherwise. *)
Theorem C4_claude_thinking_budget_raises_max (model : string)
    (optional_params : OptionalParams) (project_id : string) (b m : Z) :
  get_model_family model = claude ->
  is_thinking_model model = true ->
  thinking_budget_tokens optional_params = Some b ->
  max_tokens optional_params = Some m ->
  (b <> 0 /\ m <> 0 /\ m <= b ->
     maxOutputTokens
       (generationConfig (_build_request_payload model optional_params project_id))
     = Some (b + 8192))
  /\ (~ (b <> 0 /\ m <> 0 /\ m <= b) ->
     maxOutputTokens
       (generationConfig (_build_request_payload model optional_params project_id))
     = Some m).
Proof.
  intros Hfam Hthink Hb Hm. simpl.
  rewrite (claude_thinking_max_output model optional_params b m) by assumption.
  unfold nonzero.
  destruct (Z.eqb_spec b 0), (Z.eqb_spec m 0), (Z.leb_spec m b); simpl;
    split; intros; try reflexivity; lia.
Qed.

Lemma C4_witness :
  maxOutputTokens
    (generationConfig
       (_build_request_payload "claude-opus-4.5-thinking"
          (Samples.params (Some 4096) (Some 16000)) "proj-1"))
  = Some (16000 + 8192)
  /\ maxOutputTokens
       (generationConfig
          (_build_request_payload "claude-opus-4.5-thinking"
             (Samples.params (Some 32000) (Some 16000)) "proj-1"))
     = Some 32000.
Proof.
  split.
  - apply (C4_claude_thinking_budget_raises_max "claude-opus-4.5-thinking"
             (Samples.params (Some 4096) (Some 16000)) "proj-1" 16000 4096);
      try reflexivity; lia.
  - apply (proj2 (C4_claude_thinking_budget_raises_max "claude-opus-4.5-thinking"
                    (Samples.params (Some 32000) (Some 16000)) "proj-1" 16000 32000
                    eq_refl eq_refl eq_refl eq_refl)).
    lia.
Defined.

(** C8. For a request with [max_tokens = t > 16384], the payload's
    [maxOutputTokens] is 16384 when the model is of the Gemini family; when the
    model is of the Claude family it is not reduced: it is [t], or the larger
    [budget + 8192] of a thinking request. *)
Theorem C8_gemini_clamped_claude_not (model : string)
    (optional_params : OptionalParams) (project_id : string) (t : Z) :
  max_tokens optional_params = Some t ->
  t > 16384 ->
  (get_model_family model = gemini ->
     maxOutputTokens
       (generationConfig (_build_request_payload model optional_params project_id))
     = Some 16384)
  /\ (get_model_family model = claude ->
     exists v,
       maxOutputTokens
         (generationConfig (_build_request_payload model optional_params project_id))
       = Some v
       /\ t <= v
       /\ (v = t \/ exists b, thinking_budget_tokens optional_params = Some b
                              /\ t <= b /\ v = b + 8192)).
Proof.
  intros Hm Ht. simpl. unfold build_generation_config.
  rewrite Hm. split; intros Hfam; rewrite Hfam; simpl.
  - assert (Hg : forall g : GenerationConfig,
               maxOutputTokens g = Some t ->
               maxOutputTokens
                 (if default 0 (maxOutputTokens g) >? GEMINI_MAX_OUTPUT_TOKENS
                  then with_maxOutputTokens g GEMINI_MAX_OUTPUT_TOKENS else g)
               = Some 16384).
    { intros g Hg. rewrite Hg; simpl.
      unfold GEMINI_MAX_OUTPUT_TOKENS.
      destruct (Z.gtb_spec t 16384); [reflexivity | lia]. }
    apply Hg. destruct (is_thinking_model model); reflexivity.
  - destruct (is_thinking_model model); simpl;
      [| exists t; repeat split; [lia | auto]].
    destruct (thinking_budget_tokens optional_params) as [b |]; simpl;
      [| exists t; repeat split; [lia | auto]].
    destruct (nonzero b); simpl; [| exists t; repeat split; [lia | auto]].
    destruct (nonzero t); simpl; [| exists t; repeat split; [lia | auto]].
    destruct (Z.leb_spec t b); simpl.
    + exists (b + 8192). repeat split; [lia |]. right. exists b. auto.
    + exists t. repeat split; [lia | auto].
Qed.

Lemma C8_witness :
  maxOutputTokens
    (generationConfig
       (_build_request_payload "gemini-3-pro-high"
          (Samples.params (Some 20000) None) "proj-1"))
  = Some 16384
  /\ exists v,
       maxOutputTokens
         (generationConfig
            (_build_request_payload "claude-sonnet-4.5"
               (Samples.params (Some 20000) None) "proj-1"))
       = Some v
       /\ 20000 <= v
       /\ (v = 20000
           \/ exists b, thinking_budget_tokens (Samples.params (Some 20000) None) = Some b
                        /\ 20000 <= b /\ v = b + 8192).
Proof.
  split.
  - apply (proj1 (C8_gemini_clamped_claude_not "gemini-3-pro-high"
                    (Samples.params (Some 20000) None) "proj-1" 20000
                    eq_refl ltac:(lia))).
    reflexivity.
  - apply (proj2 (C8_gemini_clamped_claude_not "claude-sonnet-4.5"
                    (Samples.params (Some 20000) None) "proj-1" 20000
                    eq_refl ltac:(lia))).
    reflexivity.
Defined.

(** ** Strings *)

Lemma append_cons c s t : String c s +:+ t = String c (s +:+ t).
Proof. reflexivity. Qed.

Lemma append_empty_l s : "" +:+ s = s.
Proof. reflexivity. Qed.

Lemma append_empty_r s : s +:+ "" = s.
Proof. induction s as [| c s IH]; [done |]. by rewrite append_cons, IH. Qed.

Lemma append_assoc s t u : (s +:+ t) +:+ u = s +:+ (t +:+ u).
Proof.
  induction s as [| c s IH]; [done |]. by rewrite !append_cons, IH.
Qed.

(** ** Response translation *)

Lemma join_text_acc blocks acc :
  join_text blocks acc = acc +:+ join_text blocks "".
Proof.
  revert acc. induction blocks as [| b blocks IH]; intros acc; simpl.
  - by rewrite append_empty_r.
  - destruct b as [th sg | t]; [apply IH |].
    rewrite (IH (acc +:+ t)), (IH ("" +:+ t)), append_empty_l.
    apply append_assoc.
Qed.

Lemma join_text_snoc blocks b acc :
  join_text (blocks ++ [b]) acc
  = match b with
    | TextBlock t => join_text blocks acc +:+ t
    | ThinkingBlock _ _ => join_text blocks acc
    end.
Proof.
  revert acc. induction blocks as [| b' blocks IH]; intros acc; simpl.
  - by destruct b.
  - destruct b'; apply IH.
Qed.

Lemma convert_parts_text token_hex ps blocks calls :
  join_text (convert_parts token_hex ps blocks calls).1 ""
  = join_text blocks "" +:+ Spec.text_of_parts ps.
Proof.
  revert blocks calls. induction ps as [| part ps IH]; intros blocks calls; simpl.
  - by rewrite append_empty_r.
  - destruct (text part) as [t |].
    + destruct (thought part); rewrite IH, join_text_snoc; [done |].
      apply append_assoc.
    + destruct (functionCall part); apply IH.
Qed.

(** C5, as the specification states it, fails on a reply without text and
    without function calls: the message carries no [tool_calls], and its
    content is null, not the empty string. *)
Lemma C5_counterexample_empty_reply :
  let r := _convert_google_response_to_openai (fun _ => "00") 0
             (Bare (mkGoogleBody [mkCandidate [] (Some "STOP")]
                      (mkUsageMetadata None None None)))
             "gemini-3-flash" in
  tool_calls (message r) = None
  /\ content (message r) = None
  /\ content (message r) <> Some "".
Proof. vm_compute. repeat split; congruence. Qed.

(** C5 (amended). The content of the assistant message is the concatenation
    of the texts of the non-thought text parts of the first candidate when that
    concatenation is not empty, and is null whenever it is empty, whether or
    not tool calls are present. *)
Theorem C5_content_is_text_or_null (token_hex : nat -> string) (now : Z)
    (google_response : GoogleResponse) (model : string) :
  content (message (_convert_google_response_to_openai token_hex now
                      google_response model))
  = if String.eqb (Spec.text_of_parts (Spec.first_parts google_response)) ""
    then None
    else Some (Spec.text_of_parts (Spec.first_parts google_response)).
Proof.
  unfold _convert_google_response_to_openai, Spec.first_parts.
  set (ps := match head (candidates (unwrap google_response)) with
             | Some c => parts c
             | None => []
             end).
  replace (match candidates (unwrap google_response) with
           | c :: _ => parts c
           | [] => []
           end) with ps
    by (unfold ps; by destruct (candidates (unwrap google_response))).
  pose proof (convert_parts_text token_hex ps [] []) as Htext.
  destruct (convert_parts token_hex ps [] []) as [blocks calls].
  simpl in Htext |- *. by rewrite Htext.
Qed.

(** ** Rate-limit ledger: minimum wait *)

Lemma skipped_scanned model_id key :
  skipped model_id key = negb (Derived.scanned_by_substring model_id key).
Proof.
  unfold skipped, Derived.scanned_by_substring.
  destruct (PyStr.truthy model_id), (PyStr.contains _ key), (PyStr.contains ":" key);
    reflexivity.
Qed.

Section MinWaitFold.
Variables (model_id : option string) (now : Q).

Lemma min_wait_step_counted acc key limit :
  Derived.counted model_id now (key, limit) ->
  min_wait_step model_id now acc (key, limit)
  = min_inf acc (reset_time limit - now).
Proof.
  intros [Hs Ht]; simpl in *. rewrite Hs.
  destruct (gtb_spec (reset_time limit) now); [done | lra].
Qed.

Lemma min_wait_step_not_counted acc key limit :
  ~ Derived.counted model_id now (key, limit) ->
  min_wait_step model_id now acc (key, limit) = acc.
Proof.
  intros Hn; simpl. destruct (skipped model_id key) eqn:Hs; [done |].
  destruct (gtb_spec (reset_time limit) now); [| done].
  exfalso; apply Hn; split; simpl; done.
Qed.

Lemma counted_dec item :
  Derived.counted model_id now item \/ ~ Derived.counted model_id now item.
Proof.
  unfold Derived.counted. destruct (skipped model_id item.1); [right; intros []; done |].
  destruct (Qlt_le_dec now (reset_time item.2)); [left | right]; [done |].
  intros [_ H]. lra.
Qed.

(** The accumulator only decreases along the loop. *)
Lemma fold_min_wait_le l acc w :
  acc = Some w ->
  exists w', fold_left (min_wait_step model_id now) l acc = Some w' /\ (w' <= w)%Q.
Proof.
  revert acc w. induction l as [| [key limit] l IH]; intros acc w ->; cbn [fold_left].
  - exists w; split; [done | lra].
  - destruct (counted_dec (key, limit)) as [Hc | Hc].
    + rewrite (min_wait_step_counted _ _ _ Hc); cbn [min_inf].
      destruct (IH (Some (PyFloat.min w (reset_time limit - now))) _ eq_refl)
        as (w' & -> & Hle).
      exists w'; split; [done |].
      destruct (min_spec w (reset_time limit - now)) as [[? Hm] | [? Hm]];
        rewrite Hm in Hle; lra.
    + rewrite (min_wait_step_not_counted _ _ _ Hc). by apply IH.
Qed.

(** The result is below the wait of every counted entry. *)
Lemma fold_min_wait_lower l acc key limit :
  (key, limit) ∈ l -> Derived.counted model_id now (key, limit) ->
  exists w', fold_left (min_wait_step model_id now) l acc = Some w'
             /\ (w' <= reset_time limit - now)%Q.
Proof.
  revert acc. induction l as [| item l IH]; intros acc Hin Hc.
  - by apply elem_of_nil in Hin.
  - apply elem_of_cons in Hin as [<- | Hin]; cbn [fold_left].
    + rewrite (min_wait_step_counted _ _ _ Hc).
      destruct acc as [w |]; cbn [min_inf].
      * destruct (fold_min_wait_le l (Some (PyFloat.min w (reset_time limit - now))) _
                    eq_refl) as (w' & -> & Hle).
        exists w'; split; [done |].
        destruct (min_spec w (reset_time limit - now)) as [[? Hm] | [? Hm]];
          rewrite Hm in Hle; lra.
      * destruct (fold_min_wait_le l (Some (reset_time limit - now)%Q) _ eq_refl)
          as (w' & -> & Hle).
        exists w'; split; [done | lra].
    + by apply IH.
Qed.

(** The result is the initial accumulator or the wait of a counted entry. *)
Lemma fold_min_wait_attained l acc w' :
  fold_left (min_wait_step model_id now) l acc = Some w' ->
  acc = Some w'
  \/ exists key limit, (key, limit) ∈ l /\ Derived.counted model_id now (key, limit)
                       /\ w' = (reset_time limit - now)%Q.
Proof.
  revert acc. induction l as [| [key limit] l IH]; intros acc; cbn [fold_left].
  - by left.
  - intros Hres. apply IH in Hres as [Hacc | (k & lim & Hin & Hc & ->)].
    + destruct (counted_dec (key, limit)) as [Hc | Hc].
      * rewrite (min_wait_step_counted _ _ _ Hc) in Hacc.
        destruct acc as [w |]; simpl in Hacc; injection Hacc as <-.
        -- destruct (min_spec w (reset_time limit - now)) as [[_ ->] | [_ ->]].
           ++ by left.
           ++ right. exists key, limit. split; [apply elem_of_cons; by left | done].
        -- right. exists key, limit. split; [apply elem_of_cons; by left | done].
      * rewrite (min_wait_step_not_counted _ _ _ Hc) in Hacc. by left.
    + right. exists k, lim. split; [apply elem_of_cons; by right | done].
Qed.

End MinWaitFold.

(** What [get_min_wait_time_ms] computes: the smallest remaining wait
    [reset_time - now] over the entries that its loop does not skip and whose
    reset lies ahead, truncated to whole milliseconds, and 0 when there is no
    such entry. *)
Lemma min_wait_over_scanned_entries (m : AccountManager)
    (model_id : option string) (now : Q) :
  let r := get_min_wait_time_ms m model_id now in
  0 <= r
  /\ (forall key limit,
        _rate_limits m !! key = Some limit ->
        Derived.scanned_by_substring model_id key = true ->
        (now < reset_time limit)%Q ->
        r <= PyFloat.int (reset_time limit - now))
  /\ (r = 0
      \/ exists key limit,
           _rate_limits m !! key = Some limit
           /\ Derived.scanned_by_substring model_id key = true
           /\ (now < reset_time limit)%Q
           /\ r = PyFloat.int (reset_time limit - now)).
Proof.
  unfold get_min_wait_time_ms.
  destruct (fold_left _ _ None) as [w |] eqn:Hfold; cbn zeta.
  - pose proof (fold_min_wait_attained model_id now _ _ _ Hfold)
      as [Hnone | (k & lim & Hin & [Hs Ht] & Hw)]; [done |].
    simpl in Hs, Ht. subst w. split; [| split].
    + apply int_bounds. lra.
    + intros key limit Hlook Hscan Hlt.
      destruct (fold_min_wait_lower model_id now (map_to_list (_rate_limits m))
                  None key limit) as (w' & Hw' & Hle).
      * by apply elem_of_map_to_list.
      * split; simpl; [| done]. rewrite skipped_scanned, Hscan. done.
      * rewrite Hfold in Hw'. injection Hw' as <-. apply int_mono; lra.
    + right. exists k, lim. repeat split; try done.
      * by apply elem_of_map_to_list.
      * rewrite skipped_scanned in Hs. by destruct (Derived.scanned_by_substring _ _).
  - split; [done |]. split; [| by left].
    intros key limit Hlook Hscan Hlt.
    destruct (fold_min_wait_lower model_id now (map_to_list (_rate_limits m))
                None key limit) as (w' & Hw' & _).
    + by apply elem_of_map_to_list.
    + split; simpl; [| done]. rewrite skipped_scanned, Hscan. done.
    + rewrite Hfold in Hw'. done.
Qed.

(** C1.  The loop of [get_min_wait_time_ms] tests whether the key contains
    [":" + model_id], where [_is_account_rate_limited] looks the key
    [email + ":" + model_id] up: the entry of another model whose name
    begins with the filter is counted.  With the only ledger entry keyed
    [a@x:claude-sonnet-4.5-thinking] (reset at 6000) and the filter
    [claude-sonnet-4.5] at time 1000, no key ends in [:claude-sonnet-4.5] or
    lacks [":"], no account is rate-limited for the filter, and yet the
    function returns the wait of that entry, 5000, where the claim has no wait
    to return. *)
Theorem C1_substring_scan_counts_another_model :
  get_min_wait_time_ms Samples.thinking_limited (Some "claude-sonnet-4.5") 1000
  = 5000
  /\ (forall key limit,
        _rate_limits Samples.thinking_limited !! key = Some limit ->
        Spec.scanned_by_suffix "claude-sonnet-4.5" key = false)
  /\ (forall r, r ∈ get_accounts (_authenticator Samples.thinking_limited) ->
        _is_account_rate_limited Samples.thinking_limited
          (deref (heap (_authenticator Samples.thinking_limited)) r)
          (Some "claude-sonnet-4.5") 1000 = false)
  /\ is_all_rate_limited Samples.thinking_limited (Some "claude-sonnet-4.5") 1000
     = false
  /\ get_min_wait_time_ms Samples.thinking_limited
       (Some "claude-sonnet-4.5-thinking") 1000 = 5000.
Proof.
  split; [vm_compute; reflexivity |].
  split; [| split; [| split; vm_compute; reflexivity]].
  - intros key limit H. unfold Samples.thinking_limited, mark_rate_limited in H.
    simpl in H. apply lookup_insert_Some in H as [[<- _] | [_ H]].
    + vm_compute; reflexivity.
    + by rewrite lookup_empty in H.
  - intros r Hr. apply list_elem_of_In in Hr. simpl in Hr.
    destruct Hr as [<- | [<- | []]]; vm_compute; reflexivity.
Qed.

(** ** Round-robin selection *)

Section RoundRobin.
Variables (m : AccountManager) (model_id : option string).

Let accounts : list ref := get_accounts (_authenticator m).

Lemma usable_with_index i now r :
  usable (with_index m i) model_id now r = usable m model_id now r.
Proof. reflexivity. Qed.

Lemma next_index_lt i : accounts <> [] -> ((i + 1) mod length accounts < length accounts)%nat.
Proof.
  intros Hne. apply Nat.mod_upper_bound. by destruct accounts.
Qed.

(** With every account usable at [now], a call returns the account that
    follows the current index and moves the index there. *)
Lemma pick_next_all_usable i now :
  accounts <> [] ->
  (forall r, r ∈ accounts -> usable m model_id now r = true) ->
  pick_next (with_index m i) model_id now
  = (accounts !! ((i + 1) mod length accounts)%nat,
     with_index m ((i + 1) mod length accounts)%nat).
Proof.
  intros Hne Hall. unfold pick_next.
  change (get_accounts (_authenticator (with_index m i))) with accounts.
  change (_current_index (with_index m i)) with i.
  destruct (lookup_lt_is_Some_2 accounts ((i + 1) mod length accounts)%nat
              (next_index_lt i Hne)) as [r Hr].
  assert (Hstep : pick_next_loop (with_index m i) accounts model_id now
                    (length accounts) i
                  = Some (r, ((i + 1) mod length accounts)%nat)).
  { destruct (length accounts) as [| n'] eqn:Hlen; [by destruct accounts |].
    cbn [pick_next_loop]. unfold ref in *. rewrite Hlen, Hr.
    cbn [from_option]. unfold Datatypes.id.
    rewrite usable_with_index, (Hall r) by (by eapply list_elem_of_lookup_2).
    reflexivity. }
  rewrite Hstep, Hr. by destruct accounts.
Qed.

Lemma pick_next_calls_nth clocks i k :
  accounts <> [] ->
  (forall now r, now ∈ clocks -> r ∈ accounts -> usable m model_id now r = true) ->
  (k < length clocks)%nat ->
  (Derived.pick_next_calls (with_index m i) model_id clocks).1 !! k
  = Some (accounts !! ((i + 1 + k) mod length accounts)%nat).
Proof.
  intros Hne. revert i k.
  induction clocks as [| now rest IH]; intros i k Hall Hk; simpl in Hk; [lia |].
  cbn [Derived.pick_next_calls].
  rewrite pick_next_all_usable;
    [| done | intros r Hr; apply (Hall now); [apply elem_of_cons; by left | done]].
  destruct (Derived.pick_next_calls _ model_id rest) as [rs m2] eqn:Hrest.
  destruct k as [| k']; simpl.
  - by rewrite Nat.add_0_r.
  - specialize (IH ((i + 1) mod length accounts)%nat k').
    rewrite Hrest in IH. simpl in IH. rewrite IH.
    + do 2 f_equal.
      rewrite <- (Nat.add_assoc _ 1 k'), Nat.Div0.add_mod_idemp_l.
      f_equal; lia.
    + intros now' r Hn Hr. apply Hall; [apply elem_of_cons; by right | done].
    + lia.
Qed.

(** Every position of the list is reached within [length accounts] steps. *)
Lemma every_index_reached i j :
  (j < length accounts)%nat ->
  exists k, (k < length accounts)%nat /\ ((i + 1 + k) mod length accounts)%nat = j.
Proof.
  intros Hj. set (n := length accounts) in *.
  set (a := ((i + 1) mod n)%nat).
  assert (Ha : (a < n)%nat) by (apply Nat.mod_upper_bound; lia).
  destruct (le_lt_dec a j) as [Hle | Hlt].
  - exists (j - a)%nat. split; [lia |].
    rewrite <- Nat.Div0.add_mod_idemp_l. fold a.
    replace (a + (j - a))%nat with j by lia. by apply Nat.mod_small.
  - exists (j + n - a)%nat. split; [lia |].
    rewrite <- Nat.Div0.add_mod_idemp_l. fold a.
    replace (a + (j + n - a))%nat with (j + 1 * n)%nat by lia.
    rewrite Nat.Div0.mod_add. by apply Nat.mod_small.
Qed.

End RoundRobin.

(** C9. On a non-empty account list of size [n] in which no account is
    invalid or rate-limited, and with nothing else changing the state, every
    call of [pick_next] moves the index from [i] to [(i + 1) mod n] and returns
    the account at the new index; [n] successive calls therefore return every
    account of the list at least once. *)
Theorem C9_pick_next_visits_every_account (m : AccountManager)
    (model_id : option string) (clocks : list Q) :
  let accounts := get_accounts (_authenticator m) in
  accounts <> [] ->
  length clocks = length accounts ->
  (forall now r, now ∈ clocks -> r ∈ accounts ->
     _is_account_rate_limited m (deref (heap (_authenticator m)) r) model_id now = false
     /\ _is_account_invalid (deref (heap (_authenticator m)) r) = false) ->
  (forall r, r ∈ accounts -> Some r ∈ (Derived.pick_next_calls m model_id clocks).1)
  /\ (forall k, (k < length accounts)%nat ->
        (Derived.pick_next_calls m model_id clocks).1 !! k
        = Some (accounts !! ((_current_index m + 1 + k) mod length accounts)%nat))
  /\ (forall i now, now ∈ clocks ->
        pick_next (with_index m i) model_id now
        = (accounts !! ((i + 1) mod length accounts)%nat,
           with_index m ((i + 1) mod length accounts)%nat)).
Proof.
  intros accounts Hne Hlen Hok.
  assert (Husable : forall now r, now ∈ clocks -> r ∈ accounts ->
                      usable m model_id now r = true).
  { intros now r Hn Hr. unfold usable.
    destruct (Hok now r Hn Hr) as [-> ->]. reflexivity. }
  assert (Hm : with_index m (_current_index m) = m) by (by destruct m).
  assert (Hnth : forall k, (k < length accounts)%nat ->
            (Derived.pick_next_calls m model_id clocks).1 !! k
            = Some (accounts !! ((_current_index m + 1 + k) mod length accounts)%nat)).
  { intros k Hk. rewrite <- Hm at 1.
    apply pick_next_calls_nth; [done | done | by rewrite Hlen]. }
  split; [| split; [exact Hnth |]].
  - intros r Hr. apply list_elem_of_lookup_1 in Hr as [j Hj].
    destruct (every_index_reached m (_current_index m) j) as (k & Hk & Hkj).
    { by eapply lookup_lt_Some. }
    apply list_elem_of_lookup. exists k.
    rewrite (Hnth k Hk). fold accounts in Hkj. by rewrite Hkj, Hj.
  - intros i now Hn. apply pick_next_all_usable; [done |].
    intros r Hr. by apply Husable.
Qed.

Lemma C9_witness :
  (forall r, r ∈ [0; 1; 2]%nat ->
     Some r ∈ (Derived.pick_next_calls Samples.three_accounts None [0; 10; 20]%Q).1)
  /\ (forall k, (k < 3)%nat ->
        (Derived.pick_next_calls Samples.three_accounts None [0; 10; 20]%Q).1 !! k
        = Some ([0; 1; 2]%nat !! ((0 + 1 + k) mod 3)%nat))
  /\ (forall i now, now ∈ [0; 10; 20]%Q ->
        pick_next (with_index Samples.three_accounts i) None now
        = ([0; 1; 2]%nat !! ((i + 1) mod 3)%nat,
           with_index Samples.three_accounts ((i + 1) mod 3)%nat)).
Proof.
  apply (C9_pick_next_visits_every_account Samples.three_accounts None [0; 10; 20]%Q).
  - discriminate.
  - reflexivity.
  - intros now r _ Hr. apply list_elem_of_In in Hr. simpl in Hr.
    destruct Hr as [<- | [<- | [<- | []]]]; split; reflexivity.
Defined.

(** ** The invalid flag and the accounts file *)






Lemma mark_invalid_loop_found h accounts e reason r d :
  find_by_email h accounts e = Some r ->
  h !! r = Some d ->
  mark_invalid_loop h accounts e reason
  = <[r := mkAccount (email d) (refresh_token d) (project_id d)
             (Some true) (Some reason)]> h.
Proof.
  unfold find_by_email.
  induction accounts as [| r0 rest IH]; intros Hfind Hd; simpl in *; [done |].
  destruct (String.eqb (email (deref h r0)) e) eqn:He.
  - injection Hfind as ->. unfold deref. by rewrite Hd.
  - by apply IH.
Qed.

Lemma find_by_email_elem h accounts e r :
  find_by_email h accounts e = Some r -> r ∈ accounts.
Proof.
  unfold find_by_email. intros H. apply find_some in H as [H _].
  by apply list_elem_of_In.
Qed.





(** ** Reset-time parsing *)

Lemma lower_char_idem c : PyStr.lower_char (PyStr.lower_char c) = PyStr.lower_char c.
Proof. destruct c as [[] [] [] [] [] [] [] []]; reflexivity. Qed.

Lemma is_digit_lower_char c : PyStr.is_digit (PyStr.lower_char c) = PyStr.is_digit c.
Proof. destruct c as [[] [] [] [] [] [] [] []]; reflexivity. Qed.

Lemma lower_char_digit c : PyStr.is_digit c = true -> PyStr.lower_char c = c.
Proof. destruct c as [[] [] [] [] [] [] [] []]; simpl; intros H; done. Qed.

Lemma is_dot_dash_lower_char c : Re.is_dot_dash (PyStr.lower_char c) = Re.is_dot_dash c.
Proof. destruct c as [[] [] [] [] [] [] [] []]; reflexivity. Qed.

Lemma span_digits_lower s :
  Re.span_digits (PyStr.lower s)
  = ((Re.span_digits s).1, PyStr.lower (Re.span_digits s).2).
Proof.
  induction s as [| c s IH]; [done |]. simpl.
  rewrite is_digit_lower_char. destruct (PyStr.is_digit c) eqn:Hc; [| done].
  rewrite IH, (lower_char_digit c Hc). by destruct (Re.span_digits s).
Qed.

(** Under [re.IGNORECASE] a match does not depend on the case of the text. *)
Lemma match_here_lower toks s :
  Re.match_here true toks (PyStr.lower s) = Re.match_here true toks s.
Proof.
  revert s. induction toks as [| t toks IH]; intros s; [done |].
  destruct t as [c | |]; cbn [Re.match_here].
  - destruct s as [| d s]; [done |]. cbn [PyStr.lower].
    rewrite lower_char_idem. by destruct (Ascii.eqb _ _).
  - rewrite span_digits_lower. destruct (Re.span_digits s) as [ds rest]. simpl.
    by rewrite IH.
  - destruct s as [| d s]; [apply (IH "") |]. cbn [PyStr.lower].
    rewrite is_dot_dash_lower_char.
    change (String (PyStr.lower_char d) (PyStr.lower s))
      with (PyStr.lower (String d s)).
    by rewrite !IH.
Qed.

Lemma search_toks_lower toks s :
  Re.search_toks true toks (PyStr.lower s) = Re.search_toks true toks s.
Proof.
  induction s as [| c s IH].
  - done.
  - cbn [PyStr.lower Re.search_toks].
    change (String (PyStr.lower_char c) (PyStr.lower s))
      with (PyStr.lower (String c s)).
    by rewrite match_here_lower, IH.
Qed.

Lemma parse_loop_lower ps s :
  parse_loop ps (PyStr.lower s) = parse_loop ps s.
Proof.
  induction ps as [| p ps IH]; [done |]. simpl. unfold Re.search.
  by rewrite search_toks_lower, IH.
Qed.

Lemma parse_loop_none ps s :
  parse_loop ps s = None <-> Forall (fun p => Re.search p s true = None) ps.
Proof.
  induction ps as [| p ps IH]; simpl.
  - split; [constructor | done].
  - destruct (Re.search p s true) eqn:Hp.
    + split; [done |]. intros H. apply Forall_cons in H as [H _]. congruence.
    + rewrite IH. split; [by constructor | intros H; by apply Forall_cons in H as [_ H]].
Qed.

(** A token list that begins with literals fails wherever the literals fail. *)
Lemma match_here_literal_prefix lit toks s :
  Re.match_here true (map Re.Lit lit) s = None ->
  Re.match_here true (map Re.Lit lit ++ toks) s = None.
Proof.
  revert s. induction lit as [| c lit IH]; intros s; [done |]. simpl.
  destruct s as [| d s]; [done |]. destruct (Ascii.eqb _ _); [apply IH | done].
Qed.

(** The search passes over a prefix in which the literal start of the
    pattern does not match. *)
Lemma search_toks_skip lit toks pre rest :
  Derived.literal_absent_before lit (String.length pre) (pre +:+ rest) = true ->
  Re.compile lit = map Re.Lit (list_ascii_of_string lit) ->
  Re.search_toks true (Re.compile lit ++ toks) (pre +:+ rest)
  = Re.search_toks true (Re.compile lit ++ toks) rest.
Proof.
  intros Habs Hlit. induction pre as [| c pre IH]; [done |].
  rewrite append_cons in *. cbn [String.length Derived.literal_absent_before] in Habs.
  destruct (Re.match_here true (Re.compile lit) _) eqn:Hm; [done |].
  cbn [Re.search_toks]. rewrite Hlit in *.
  rewrite (match_here_literal_prefix _ toks _ Hm). by apply IH.
Qed.

Lemma parse_first_reset_after_1h0m0s pre post :
  Derived.literal_absent_before "reset after " (String.length pre)
    (pre +:+ "reset after 1h0m0s" +:+ post) = true ->
  parse_reset_time_from_error (pre +:+ "reset after 1h0m0s" +:+ post) = Some 3600000.
Proof.
  intros Habs. unfold parse_reset_time_from_error, patterns.
  cbn [parse_loop]. unfold Re.search at 1.
  change (Re.compile "reset after (\d+)h(\d+)m(\d+)s")
    with (Re.compile "reset after "
          ++ [Re.Digits; Re.Lit "h"; Re.Digits; Re.Lit "m"; Re.Digits; Re.Lit "s"])%list.
  rewrite (search_toks_skip _ _ _ _ Habs eq_refl).
  reflexivity.
Qed.

(** Every pattern of [patterns] begins with the literal ["reset after "]. *)
Lemma search_skip_reset_after pattern toks pre rest :
  Re.compile pattern = (Re.compile "reset after " ++ toks)%list ->
  Derived.literal_absent_before "reset after " (String.length pre) (pre +:+ rest)
    = true ->
  Re.search pattern (pre +:+ rest) true = Re.search pattern rest true.
Proof.
  intros Hpat Habs. unfold Re.search. rewrite Hpat.
  by apply search_toks_skip.
Qed.

Lemma parse_first_reset_after_5m pre :
  Derived.literal_absent_before "reset after " (String.length pre)
    (pre +:+ "reset after 5m") = true ->
  parse_reset_time_from_error (pre +:+ "reset after 5m") = Some 300000.
Proof.
  intros Habs. unfold parse_reset_time_from_error, patterns.
  cbn [parse_loop].
  rewrite (search_skip_reset_after "reset after (\d+)h(\d+)m(\d+)s"
             [Re.Digits; Re.Lit "h"; Re.Digits; Re.Lit "m"; Re.Digits; Re.Lit "s"]
             pre _ eq_refl Habs).
  rewrite (search_skip_reset_after "reset after (\d+)h(\d+)m"
             [Re.Digits; Re.Lit "h"; Re.Digits; Re.Lit "m"] pre _ eq_refl Habs).
  rewrite (search_skip_reset_after "reset after (\d+)h"
             [Re.Digits; Re.Lit "h"] pre _ eq_refl Habs).
  rewrite (search_skip_reset_after "reset after (\d+)m(\d+)s"
             [Re.Digits; Re.Lit "m"; Re.Digits; Re.Lit "s"] pre _ eq_refl Habs).
  rewrite (search_skip_reset_after "reset after (\d+)m"
             [Re.Digits; Re.Lit "m"] pre _ eq_refl Habs).
  reflexivity.
Qed.

(** C7, as the specification states it, fails on inputs that contain the
    two texts: the patterns are searched in order and each takes its first
    match, so an earlier ["reset after ..."] is the one that is read, and
    ["reset after 5m"] followed by seconds is read with its seconds. *)
Lemma C7_counterexample_another_match_is_read :
  PyStr.contains "reset after 1h0m0s" "reset after 2h0m0s; then reset after 1h0m0s"
  = true
  /\ parse_reset_time_from_error "reset after 2h0m0s; then reset after 1h0m0s"
     = Some 7200000
  /\ PyStr.contains "reset after 5m" "reset after 5m30s" = true
  /\ parse_reset_time_from_error "reset after 5m30s" = Some 330000.
Proof. vm_compute. repeat split; reflexivity. Qed.

(** C7 (amended). [parse_reset_time_from_error] returns 3_600_000 for
    ["reset after 1h0m0s"], also when the text goes on before and after it and
    no ["reset after "] starts earlier; it returns 300_000 for
    ["reset after 5m"], also at the end of a longer text in which no
    ["reset after "] starts earlier; its result does not depend on the letter
    case of the input; and it returns [None] exactly when none of the six
    patterns matches, in which case [mark_rate_limited] applies the default
    cooldown of 60_000 ms. *)
Theorem C7_parse_reset_time_from_error :
  parse_reset_time_from_error "reset after 1h0m0s" = Some 3600000
  /\ (forall pre post,
        Derived.literal_absent_before "reset after " (String.length pre)
          (pre +:+ "reset after 1h0m0s" +:+ post) = true ->
        parse_reset_time_from_error (pre +:+ "reset after 1h0m0s" +:+ post)
        = Some 3600000)
  /\ parse_reset_time_from_error "reset after 5m" = Some 300000
  /\ (forall pre,
        Derived.literal_absent_before "reset after " (String.length pre)
          (pre +:+ "reset after 5m") = true ->
        parse_reset_time_from_error (pre +:+ "reset after 5m") = Some 300000)
  /\ (forall error_text,
        parse_reset_time_from_error (PyStr.lower error_text)
        = parse_reset_time_from_error error_text)
  /\ (forall error_text,
        parse_reset_time_from_error error_text = None
        <-> Forall (fun pattern => Re.search pattern error_text true = None) patterns)
  /\ (forall error_text m e model now,
        Forall (fun pattern => Re.search pattern error_text true = None) patterns ->
        _rate_limits
          (mark_rate_limited m e (parse_reset_time_from_error error_text) model now)
          !! _get_rate_limit_key e model
        = Some (mkRateLimit (now + 60000) model)).
Proof.
  split; [vm_compute; reflexivity |].
  split; [exact parse_first_reset_after_1h0m0s |].
  split; [vm_compute; reflexivity |].
  split; [exact parse_first_reset_after_5m |].
  split; [intros s; apply parse_loop_lower |].
  split; [intros s; apply parse_loop_none |].
  intros s m e model now Hnone.
  apply parse_loop_none in Hnone. unfold parse_reset_time_from_error.
  rewrite Hnone. apply mark_rate_limited_lookup.
Qed.

Lemma C7_witness :
  parse_reset_time_from_error
    ("HTTP 429 RESOURCE_EXHAUSTED: quota will " +:+ "reset after 1h0m0s" +:+ ". Retry.")
  = Some 3600000
  /\ parse_reset_time_from_error ("Rate limited (429): " +:+ "reset after 5m")
     = Some 300000
  /\ parse_reset_time_from_error "RESET AFTER 5M"
     = parse_reset_time_from_error "reset after 5m"
  /\ _rate_limits
       (mark_rate_limited Samples.empty_manager "a@x"
          (parse_reset_time_from_error "quota exceeded") (Some "gemini-3-flash") 1000)
       !! "a@x:gemini-3-flash"
     = Some (mkRateLimit 61000 (Some "gemini-3-flash")).
Proof.
  destruct C7_parse_reset_time_from_error
    as (_ & Hctx & _ & Hend & Hcase & _ & Hdefault).
  split; [| split; [| split]].
  - apply Hctx. vm_compute. reflexivity.
  - apply (Hend "Rate limited (429): "). vm_compute. reflexivity.
  - symmetry. apply (Hcase "RESET AFTER 5M").
  - apply (Hdefault "quota exceeded" Samples.empty_manager "a@x"
             (Some "gemini-3-flash") 1000%Q).
    repeat constructor.
Defined.

(** ** JSON-Schema sanitizer *)

Lemma json_nested_ind (P : json -> Prop) :
  P JNull ->
  (forall b, P (JBool b)) ->
  (forall n, P (JInt n)) ->
  (forall m e, P (JFloat m e)) ->
  (forall s, P (JStr s)) ->
  (forall l, P (JArr l)) ->
  (forall items, Forall (fun kv => P kv.2) items -> P (JObj items)) ->
  forall v, P v.
Proof.
  intros Hnull Hbool Hint Hfloat Hstr Harr Hobj. fix IH 1. intros v.
  destruct v as [| b | n | m e | s | l | items];
    [exact Hnull | apply Hbool | apply Hint | apply Hfloat | apply Hstr
    | apply Harr |].
  apply Hobj. induction items as [| kv items IHitems]; constructor.
  - apply IH.
  - exact IHitems.
Qed.

(** *** Dicts as association lists *)

Section Dict.
Context {V : Type}.
Implicit Types (d : list (string * V)) (k : string) (v : V).

Lemma dict_set_fresh d k v : k ∉ d.*1 -> dict_set d k v = d ++ [(k, v)].
Proof.
  induction d as [| [k' v'] d IH]; intros Hk; simpl; [done |].
  rewrite fmap_cons in Hk. apply not_elem_of_cons in Hk as [Hne Hk]. simpl in Hne.
  destruct (String.eqb_spec k' k); [congruence |]. by rewrite IH.
Qed.

Lemma dict_set_keys_present d k v : k ∈ d.*1 -> (dict_set d k v).*1 = d.*1.
Proof.
  induction d as [| [k' v'] d IH]; intros Hk; simpl.
  - by apply elem_of_nil in Hk.
  - destruct (String.eqb_spec k' k); [done |].
    rewrite fmap_cons in Hk. apply elem_of_cons in Hk as [-> | Hk]; [done |].
    rewrite !fmap_cons. by rewrite IH.
Qed.

Lemma string_elem_dec k (l : list string) : k ∈ l \/ k ∉ l.
Proof. destruct (decide (k ∈ l)); auto. Qed.

Lemma dict_set_NoDup d k v : NoDup d.*1 -> NoDup (dict_set d k v).*1.
Proof.
  intros Hd. destruct (string_elem_dec k d.*1) as [Hin | Hnin].
  - by rewrite dict_set_keys_present.
  - rewrite dict_set_fresh, fmap_app by done. apply NoDup_app. repeat split.
    + done.
    + intros x Hx Hx'. simpl in Hx'. apply list_elem_of_singleton in Hx'. by subst.
    + apply NoDup_singleton.
Qed.

Lemma dict_set_elem d k v k' v' :
  (k', v') ∈ dict_set d k v -> (k', v') = (k, v) \/ (k', v') ∈ d.
Proof.
  induction d as [| [k0 v0] d IH]; simpl; intros H.
  - apply list_elem_of_singleton in H. by left.
  - destruct (String.eqb_spec k0 k) as [-> | Hne].
    + apply elem_of_cons in H as [H | H]; [by left | right; by apply elem_of_cons; right].
    + apply elem_of_cons in H as [H | H].
      * right. apply elem_of_cons. by left.
      * destruct (IH H) as [? | ?]; [by left | right; apply elem_of_cons; by right].
Qed.

Lemma dict_has_keys k d : dict_has k d = true <-> k ∈ d.*1.
Proof.
  unfold dict_has. induction d as [| [k' v'] d IH]; simpl.
  - split; [done | intros H; by apply elem_of_nil in H].
  - rewrite elem_of_cons, orb_true_iff, IH, String.eqb_eq.
    split; intros [? | ?]; auto.
Qed.

End Dict.

(** *** The storing loop *)

Section StoreAll.
Variable h : string -> json -> option json.

Lemma store_all_cons kv items result :
  Derived.store_all h (kv :: items) result
  = Derived.store_all h items
      (match h kv.1 kv.2 with
       | Some v => dict_set result kv.1 v
       | None => result
       end).
Proof. reflexivity. Qed.

Lemma store_all_NoDup items result :
  NoDup result.*1 -> NoDup (Derived.store_all h items result).*1.
Proof.
  revert result. induction items as [| kv items IH]; intros result Hr; [done |].
  rewrite store_all_cons. apply IH.
  destruct (h kv.1 kv.2); [by apply dict_set_NoDup | done].
Qed.

Lemma store_all_elem items result k v' :
  (k, v') ∈ Derived.store_all h items result ->
  (k, v') ∈ result \/ exists x, (k, x) ∈ items /\ h k x = Some v'.
Proof.
  revert result. induction items as [| [k0 x0] items IH]; intros result Hin.
  - by left.
  - rewrite store_all_cons in Hin. apply IH in Hin as [Hin | (x & Hx & Hh)].
    + simpl in Hin. destruct (h k0 x0) as [v0 |] eqn:Hh0; [| by left].
      apply dict_set_elem in Hin as [Heq | Hin]; [| by left].
      injection Heq as -> ->. right. exists x0. split; [apply elem_of_cons; by left | done].
    + right. exists x. split; [apply elem_of_cons; by right | done].
Qed.

(** A list with distinct keys whose values the loop stores unchanged is
    rebuilt as it is. *)
Lemma store_all_stable items result :
  NoDup (result ++ items).*1 ->
  (forall k v, (k, v) ∈ items -> h k v = Some v) ->
  Derived.store_all h items result = result ++ items.
Proof.
  revert result. induction items as [| [k v] items IH]; intros result Hnd Hst.
  - by rewrite app_nil_r.
  - rewrite store_all_cons. simpl.
    rewrite (Hst k v) by (apply elem_of_cons; by left).
    assert (Hfresh : k ∉ result.*1).
    { rewrite fmap_app in Hnd. apply NoDup_app in Hnd as (_ & Hdisj & _).
      intros Hk. apply (Hdisj k Hk). rewrite fmap_cons. apply elem_of_cons. by left. }
    rewrite dict_set_fresh by done.
    rewrite IH.
    + by rewrite <- app_assoc.
    + by rewrite <- app_assoc.
    + intros k' v' Hin. apply Hst. apply elem_of_cons. by right.
Qed.

End StoreAll.

Lemma sanitize_entry_entry_value rec result key value :
  sanitize_entry rec result key value
  = match Derived.entry_value rec key value with
    | Some v => dict_set result key v
    | None => result
    end.
Proof.
  unfold sanitize_entry, Derived.entry_value.
  destruct (key_in key dropped_keys); [done |].
  destruct (String.eqb key "properties" && is_dict value); [done |].
  destruct (String.eqb key "items" && is_dict value); [done |].
  destruct (String.eqb key "additionalProperties").
  - destruct (is_dict value); [done |]. by destruct (is_False value).
  - by destruct (is_dict value).
Qed.

Lemma sanitize_loop_store_all items result :
  fold_left (fun result kv => sanitize_entry _sanitize_schema result kv.1 kv.2)
    items result
  = Derived.store_all (Derived.entry_value _sanitize_schema) items result.
Proof.
  revert result. induction items as [| kv items IH]; intros result; [done |].
  rewrite store_all_cons. simpl. by rewrite IH, sanitize_entry_entry_value.
Qed.

Lemma sanitize_schema_dict items :
  _sanitize_schema (JObj items)
  = let result := Derived.store_all (Derived.entry_value _sanitize_schema) items [] in
    JObj (if dict_has "type" result then result
          else dict_set result "type" (JStr "object")).
Proof. simpl. by rewrite sanitize_loop_store_all. Qed.

Lemma sanitize_schema_is_dict v : is_dict (_sanitize_schema v) = true.
Proof. by destruct v. Qed.

(** *** Idempotence *)

(** The dict comprehension over sanitized properties rebuilds its own
    result. *)
Lemma properties_comprehension_idem props :
  Forall (fun kv => _sanitize_schema (_sanitize_schema kv.2) = _sanitize_schema kv.2)
    props ->
  Derived.store_all (fun _ x => Some (_sanitize_schema x))
    (Derived.store_all (fun _ x => Some (_sanitize_schema x)) props []) []
  = Derived.store_all (fun _ x => Some (_sanitize_schema x)) props [].
Proof.
  intros Hprops.
  set (D := Derived.store_all (fun _ x => Some (_sanitize_schema x)) props []).
  apply (store_all_stable _ D []).
  - simpl. apply store_all_NoDup. constructor.
  - intros k w Hin. apply store_all_elem in Hin as [Hin | (x & Hx & Hw)].
    + by apply elem_of_nil in Hin.
    + injection Hw as <-. f_equal.
      rewrite Forall_forall in Hprops. apply (Hprops (k, x) Hx).
Qed.

(** A value that the loop has stored under [k] is stored unchanged when the
    loop meets it again under [k]. *)
Lemma entry_value_stable k x v' :
  _sanitize_schema (_sanitize_schema x) = _sanitize_schema x ->
  (forall props, x = JObj props ->
     Forall (fun kv => _sanitize_schema (_sanitize_schema kv.2) = _sanitize_schema kv.2)
       props) ->
  Derived.entry_value _sanitize_schema k x = Some v' ->
  Derived.entry_value _sanitize_schema k v' = Some v'.
Proof.
  intros Hx Hprops. unfold Derived.entry_value.
  pose proof (sanitize_schema_is_dict x) as Hsd.
  destruct (key_in k dropped_keys) eqn:Hdrop; [done |].
  destruct (String.eqb_spec k "properties") as [-> | Hp].
  { destruct x as [| b | n | m e | t | l | props]; simpl; intros [= <-]; try done.
    cbn [is_dict]. do 2 f_equal.
    apply (properties_comprehension_idem props). by apply Hprops. }
  destruct (String.eqb_spec k "items") as [-> | Hi].
  { destruct (is_dict x) eqn:Hd; cbn [andb]; intros [= <-].
    - by rewrite Hsd, Hx.
    - by rewrite Hd. }
  destruct (String.eqb_spec k "additionalProperties") as [-> | Ha].
  { destruct (is_dict x) eqn:Hd; cbn [andb].
    - intros [= <-]. by rewrite Hsd, Hx.
    - destruct x as [| [] | n | m e | t | l | props]; simpl; intros [= <-]; done. }
  destruct (is_dict x) eqn:Hd; cbn [andb]; intros [= <-].
  - by rewrite Hsd, Hx.
  - by rewrite Hd.
Qed.

Lemma sanitize_schema_idem_strong v :
  _sanitize_schema (_sanitize_schema v) = _sanitize_schema v
  /\ (forall props, v = JObj props ->
        Forall (fun kv => _sanitize_schema (_sanitize_schema kv.2)
                          = _sanitize_schema kv.2) props).
Proof.
  induction v as [| b | n | m e | t | l | items IH] using json_nested_ind;
    try (split; [reflexivity | intros props [=]]).
  assert (Hvals : Forall (fun kv => _sanitize_schema (_sanitize_schema kv.2)
                                    = _sanitize_schema kv.2) items).
  { eapply Forall_impl; [exact IH |]. by intros kv [H _]. }
  split; [| by intros props [= <-]].
  rewrite sanitize_schema_dict. cbn zeta.
  set (R := Derived.store_all (Derived.entry_value _sanitize_schema) items []).
  assert (HND : NoDup R.*1) by (apply store_all_NoDup; constructor).
  assert (Hst : forall k v, (k, v) ∈ R ->
                  Derived.entry_value _sanitize_schema k v = Some v).
  { intros k v Hin. apply store_all_elem in Hin as [Hin | (x & Hx & Hv)].
    - by apply elem_of_nil in Hin.
    - rewrite Forall_forall in IH. destruct (IH (k, x) Hx) as [H1 H2].
      by apply (entry_value_stable k x v). }
  set (R' := if dict_has "type" R then R else dict_set R "type" (JStr "object")).
  assert (HR' : NoDup R'.*1
                /\ (forall k v, (k, v) ∈ R' ->
                      Derived.entry_value _sanitize_schema k v = Some v)
                /\ dict_has "type" R' = true).
  { unfold R'. destruct (dict_has "type" R) eqn:Htype; [done |].
    split; [by apply dict_set_NoDup | split].
    - intros k v Hin. apply dict_set_elem in Hin as [[= -> ->] | Hin];
        [reflexivity | by apply Hst].
    - apply dict_has_keys. rewrite dict_set_fresh, fmap_app.
      + apply elem_of_app. right. simpl. apply list_elem_of_singleton. done.
      + intros Hin. apply dict_has_keys in Hin. congruence. }
  destruct HR' as (HND' & Hst' & Htype').
  rewrite sanitize_schema_dict. cbn zeta.
  rewrite (store_all_stable _ R' [] HND' Hst'). simpl. by rewrite Htype'.
Qed.

(** C10. The JSON-Schema sanitizer is idempotent: for every JSON value [s],
    [_sanitize_schema (_sanitize_schema s) = _sanitize_schema s]. *)
Theorem C10_sanitize_schema_idempotent (s : json) :
  _sanitize_schema (_sanitize_schema s) = _sanitize_schema s.
Proof.
  destruct s as [| b | n | m e | t | l | items];
    try reflexivity.
  destruct (sanitize_schema_idem_strong (JObj items)) as [Hidem _].
  exact Hidem.
Qed.

(** * Further properties of the code *)

(** ** Ledger keys *)

Lemma append_length s t :
  String.length (s +:+ t) = (String.length s + String.length t)%nat.
Proof.
  induction s as [| c s IH]; [done |]. rewrite append_cons. simpl. by rewrite IH.
Qed.

Lemma key_with_model_ne_email e model_id :
  PyStr.truthy model_id = true -> _get_rate_limit_key e model_id <> e.
Proof.
  intros Ht Heq. unfold _get_rate_limit_key in Heq. rewrite Ht in Heq.
  apply (f_equal String.length) in Heq. rewrite !append_length in Heq.
  simpl in Heq. lia.
Qed.

Lemma contains_cons sub c s :
  PyStr.contains sub (String c s) = String.prefix sub (String c s) || PyStr.contains sub s.
Proof. reflexivity. Qed.

Lemma contains_colon_cons c s :
  PyStr.contains ":" (String c s) = false ->
  c <> ":"%char /\ PyStr.contains ":" s = false.
Proof.
  rewrite contains_cons. intros H. apply orb_false_iff in H as [H1 H2].
  split; [| done]. intros ->. simpl in H1. by destruct s.
Qed.

Lemma contains_colon_key e model :
  PyStr.contains ":" (e +:+ ":" +:+ model) = true.
Proof.
  induction e as [| c e IH].
  - rewrite append_empty_l. change (":" +:+ model) with (String ":" model).
    rewrite contains_cons. simpl. by destruct model.
  - rewrite append_cons, contains_cons, IH. apply orb_true_r.
Qed.

(** For emails without [":"], the key determines the email and the model. *)
Lemma key_with_model_inj e e' model model' :
  PyStr.contains ":" e = false ->
  PyStr.contains ":" e' = false ->
  e +:+ ":" +:+ model = e' +:+ ":" +:+ model' ->
  e = e' /\ model = model'.
Proof.
  revert e'. induction e as [| c e IH]; intros e' He He' Heq.
  - destruct e' as [| c' e'].
    + rewrite !append_empty_l in Heq.
      change (String ":" model = String ":" model') in Heq. by injection Heq as ->.
    + apply contains_colon_cons in He' as [Hc' _].
      rewrite append_empty_l, append_cons in Heq. injection Heq as Hc _. congruence.
  - apply contains_colon_cons in He as [Hc He].
    destruct e' as [| c' e'].
    + rewrite append_empty_l, append_cons in Heq. injection Heq as Hc' _. congruence.
    + apply contains_colon_cons in He' as [_ He'].
      rewrite !append_cons in Heq. injection Heq as -> Heq.
      destruct (IH e' He He' Heq) as [-> ->]. done.
Qed.

Lemma key_limited_insert limits key limit key' t :
  key_limited (<[key := limit]> limits) key' t
  = if decide (key = key') then PyFloat.gtb (reset_time limit) t
    else key_limited limits key' t.
Proof.
  unfold key_limited. rewrite lookup_insert. by destruct (decide (key = key')).
Qed.

(** X1. After [mark_rate_limited(email, reset_ms, model_id)] at time [now],
    the account is limited for that model at every time before
    [now + (reset_ms or 60_000)]; from then on it is limited exactly when a
    model was given and the account-wide entry that the ledger already held is
    still running. *)
Theorem X1_mark_limits_until_reset (m : AccountManager) (account : Account)
    (reset_ms : option Z) (model : option string) (now t : Q) :
  _is_account_rate_limited
    (mark_rate_limited m (email account) reset_ms model now) account model t
  = PyFloat.gtb (now + inject_Z (reset_or_default reset_ms)) t
    || (PyStr.truthy model && key_limited (_rate_limits m) (email account) t).
Proof.
  unfold _is_account_rate_limited, mark_rate_limited. simpl.
  rewrite !key_limited_insert. rewrite decide_True by done. cbn [reset_time].
  destruct (PyFloat.gtb (now + inject_Z (reset_or_default reset_ms)) t) eqn:Hlt;
    [done |].
  cbn [orb].
  destruct (PyStr.truthy model) eqn:Hm; cbn [andb].
  - rewrite decide_False.
    + by destruct (key_limited _ _ _).
    + change (email account) with (_get_rate_limit_key (email account) None) at 2.
      intros Heq. apply (key_with_model_ne_email (email account) model Hm).
      unfold _get_rate_limit_key in *. by rewrite Hm in *.
  - unfold _get_rate_limit_key. rewrite Hm. by rewrite decide_True.
Qed.

(** X2. A mark under a model is specific to the pair (email, model): for
    emails without [":"], it does not change whether any other account, or the
    same account under another model or under no model, is limited. *)
Theorem X2_mark_is_per_account_and_model (m : AccountManager) (e : string)
    (reset_ms : option Z) (model : option string) (now : Q)
    (account' : Account) (model' : option string) (t : Q) :
  PyStr.contains ":" e = false ->
  PyStr.contains ":" (email account') = false ->
  PyStr.truthy model = true ->
  email account' <> e \/ default "" model' <> default "" model ->
  _is_account_rate_limited (mark_rate_limited m e reset_ms model now)
    account' model' t
  = _is_account_rate_limited m account' model' t.
Proof.
  intros He He' Hm Hdiff.
  unfold _is_account_rate_limited, mark_rate_limited. simpl.
  rewrite !key_limited_insert.
  assert (Hkey : _get_rate_limit_key e model = e +:+ ":" +:+ default "" model)
    by (unfold _get_rate_limit_key; by rewrite Hm).
  assert (Hglobal : _get_rate_limit_key e model
                    <> _get_rate_limit_key (email account') None).
  { rewrite Hkey. change (_get_rate_limit_key (email account') None)
      with (email account'). intros Heq.
    pose proof (contains_colon_key e (default "" model)) as Hc.
    rewrite Heq in Hc. congruence. }
  assert (Hmodel : _get_rate_limit_key e model
                   <> _get_rate_limit_key (email account') model').
  { unfold _get_rate_limit_key at 2.
    destruct (PyStr.truthy model') eqn:Hm'; [| exact Hglobal].
    rewrite Hkey. intros Heq.
    apply key_with_model_inj in Heq as [-> Hmod]; [| done | done].
    destruct Hdiff as [Hd | Hd]; congruence. }
  by rewrite (decide_False _ _ Hmodel), (decide_False _ _ Hglobal).
Qed.

Lemma X2_witness :
  _is_account_rate_limited
    (mark_rate_limited Samples.two_accounts "a@x" (Some 30000)
       (Some "gemini-3-flash") 1000)
    (Samples.acct "a@x") (Some "gemini-3-pro-high") 2000
  = _is_account_rate_limited Samples.two_accounts (Samples.acct "a@x")
      (Some "gemini-3-pro-high") 2000.
Proof.
  apply X2_mark_is_per_account_and_model; try reflexivity.
  right. simpl. discriminate.
Defined.

(** ** Sweeping the ledger *)

Lemma sweep_lookup (limits : gmap string RateLimit) now key limit :
  filter (fun kv : string * RateLimit => ~ Qle_bool (reset_time kv.2) now = true)
    limits !! key
    = Some limit
  <-> limits !! key = Some limit /\ (now < reset_time limit)%Q.
Proof.
  rewrite map_lookup_filter_Some. simpl.
  destruct (Qle_bool_spec (reset_time limit) now);
    split; intros [H1 H2]; split; try done; lra.
Qed.

Lemma key_limited_sweep (limits : gmap string RateLimit) now t key :
  (now <= t)%Q ->
  key_limited
    (filter (fun kv : string * RateLimit => ~ Qle_bool (reset_time kv.2) now = true)
       limits) key t
  = key_limited limits key t.
Proof.
  intros Ht. unfold key_limited.
  destruct (filter _ limits !! key) as [limit |] eqn:Hf.
  - apply sweep_lookup in Hf as [-> _]. done.
  - destruct (limits !! key) as [limit |] eqn:Hl; [| done].
    destruct (gtb_spec (reset_time limit) t); [| done].
    assert (Hin : filter (fun kv : string * RateLimit =>
                            ~ Qle_bool (reset_time kv.2) now = true)
                    limits !! key = Some limit)
      by (apply sweep_lookup; split; [done | lra]).
    congruence.
Qed.

Lemma int_Qeq x y : (0 <= x)%Q -> (x == y)%Q -> PyFloat.int x = PyFloat.int y.
Proof.
  intros Hx Hxy.
  pose proof (int_mono x y Hx ltac:(lra)).
  pose proof (int_mono y x ltac:(lra) ltac:(lra)). lia.
Qed.

(** Two item lists with the same counted entries give the same minimum. *)
Lemma fold_min_wait_same_counted model_id now l1 l2 :
  (forall item, Derived.counted model_id now item -> item ∈ l1 <-> item ∈ l2) ->
  match fold_left (min_wait_step model_id now) l1 None,
        fold_left (min_wait_step model_id now) l2 None with
  | Some w1, Some w2 => (w1 == w2)%Q /\ (0 < w1)%Q
  | None, None => True
  | _, _ => False
  end.
Proof.
  assert (Hle : forall la lb w,
             (forall item, Derived.counted model_id now item -> item ∈ la -> item ∈ lb) ->
             fold_left (min_wait_step model_id now) la None = Some w ->
             (0 < w)%Q
             /\ exists w', fold_left (min_wait_step model_id now) lb None = Some w'
                           /\ (w' <= w)%Q).
  { intros la lb w Hsub Hfold.
    apply fold_min_wait_attained in Hfold as [Hnone | (k & lim & Hin & Hc & ->)];
      [done |].
    split; [destruct Hc as [_ Hc]; simpl in Hc; lra |].
    apply (fold_min_wait_lower model_id now lb None k lim); [by apply Hsub | done]. }
  intros Hsame.
  destruct (fold_left _ l1 None) as [w1 |] eqn:H1,
           (fold_left _ l2 None) as [w2 |] eqn:H2; try done.
  - destruct (Hle l1 l2 w1) as (Hpos & w2' & Hw2 & Hle12);
      [intros item Hc; by apply Hsame | done |].
    destruct (Hle l2 l1 w2) as (_ & w1' & Hw1 & Hle21);
      [intros item Hc; by apply Hsame | done |].
    rewrite H1 in Hw1. rewrite H2 in Hw2.
    injection Hw1 as <-. injection Hw2 as <-. split; [lra | done].
  - destruct (Hle l1 l2 w1) as (_ & w2' & Hw2 & _);
      [intros item Hc; by apply Hsame | done |]. congruence.
  - destruct (Hle l2 l1 w2) as (_ & w1' & Hw1 & _);
      [intros item Hc; by apply Hsame | done |]. congruence.
Qed.

(** X3. [clear_expired_limits] at time [now] deletes exactly the entries with
    [reset_time <= now] and returns how many they were; at [now] and at every
    later time the swept ledger limits the same accounts and gives the same
    minimum wait as the ledger before the sweep. *)
Theorem X3_sweep_removes_only_expired (m : AccountManager) (now t : Q)
    (model : option string) :
  (now <= t)%Q ->
  (forall key limit,
      _rate_limits (clear_expired_limits m now).2 !! key = Some limit
      <-> _rate_limits m !! key = Some limit /\ (now < reset_time limit)%Q)
  /\ ((clear_expired_limits m now).1 + size (_rate_limits (clear_expired_limits m now).2)
      = size (_rate_limits m))%nat
  /\ (forall account,
        _is_account_rate_limited (clear_expired_limits m now).2 account model t
        = _is_account_rate_limited m account model t)
  /\ get_min_wait_time_ms (clear_expired_limits m now).2 model t
     = get_min_wait_time_ms m model t.
Proof.
  intros Ht. unfold clear_expired_limits. cbn [fst snd].
  change (_rate_limits (with_rate_limits m ?l)) with l.
  split; [intros key limit; apply sweep_lookup |].
  split; [| split].
  - rewrite <- map_size_disj_union by apply map_disjoint_filter_complement.
    by rewrite map_filter_union_complement.
  - intros account. unfold _is_account_rate_limited. cbn [_rate_limits with_rate_limits].
    by rewrite !key_limited_sweep.
  - unfold get_min_wait_time_ms. cbn [_rate_limits with_rate_limits].
    pose proof (fold_min_wait_same_counted model t
                  (map_to_list
                     (filter (fun kv : string * RateLimit =>
                                ~ Qle_bool (reset_time kv.2) now = true)
                        (_rate_limits m)))
                  (map_to_list (_rate_limits m))) as Hsame.
    destruct (fold_left _ (map_to_list (filter _ _)) None) as [w1 |],
             (fold_left _ (map_to_list (_rate_limits m)) None) as [w2 |].
    + destruct Hsame as [Heq Hpos].
      * intros [key limit] [_ Hc]. simpl in Hc.
        rewrite !elem_of_map_to_list, sweep_lookup. split; [tauto |].
        intros H. split; [done | lra].
      * apply int_Qeq; lra.
    + exfalso. apply Hsame.
      intros [key limit] [_ Hc]. simpl in Hc.
      rewrite !elem_of_map_to_list, sweep_lookup. split; [tauto |].
      intros H. split; [done | lra].
    + exfalso. apply Hsame.
      intros [key limit] [_ Hc]. simpl in Hc.
      rewrite !elem_of_map_to_list, sweep_lookup. split; [tauto |].
      intros H. split; [done | lra].
    + done.
Qed.

Lemma X3_witness :
  get_min_wait_time_ms
    (clear_expired_limits Samples.thinking_limited 3000).2
    (Some "claude-sonnet-4.5-thinking") 4000
  = get_min_wait_time_ms Samples.thinking_limited
      (Some "claude-sonnet-4.5-thinking") 4000.
Proof.
  apply (X3_sweep_removes_only_expired Samples.thinking_limited 3000 4000).
  lra.
Defined.

(** ** The selector *)

Lemma pick_next_loop_Some m (accounts : list ref) model now fuel idx r idx' :
  accounts <> [] ->
  pick_next_loop m accounts model now fuel idx = Some (r, idx') ->
  (idx' < length accounts)%nat
  /\ accounts !! idx' = Some r
  /\ usable m model now r = true.
Proof.
  intros Hne. revert idx. induction fuel as [| fuel IH]; intros idx; [done |].
  cbn [pick_next_loop].
  assert (Hlt : ((idx + 1) mod length accounts < length accounts)%nat).
  { apply Nat.mod_upper_bound. by destruct accounts. }
  destruct (lookup_lt_is_Some_2 accounts _ Hlt) as [a Ha].
  unfold ref in *. rewrite Ha. cbn [from_option]. unfold Datatypes.id.
  destruct (usable m model now a) eqn:Hu.
  - intros [= <- <-]. done.
  - apply IH.
Qed.

Lemma pick_next_loop_None m (accounts : list ref) model now fuel idx k :
  pick_next_loop m accounts model now fuel idx = None ->
  (1 <= k <= fuel)%nat ->
  usable m model now (default 0%nat (accounts !! ((idx + k) mod length accounts)%nat))
  = false.
Proof.
  revert idx k. induction fuel as [| fuel IH]; intros idx k Hloop Hk; [lia |].
  cbn [pick_next_loop] in Hloop.
  destruct (usable m model now
              (default 0%nat (accounts !! ((idx + 1) mod length accounts)%nat)))
    eqn:Hu; [done |].
  destruct (decide (k = 1%nat)) as [-> | Hk1]; [done |].
  specialize (IH _ (k - 1)%nat Hloop ltac:(lia)).
  rewrite Nat.Div0.add_mod_idemp_l in IH.
  by replace (idx + 1 + (k - 1))%nat with (idx + k)%nat in IH by lia.
Qed.

(** X4. [pick_next] is sound and complete.  When it returns an account, that
    account stands at the new index, is neither rate-limited nor invalid, and
    nothing but the index has changed; when it returns [None] the manager is
    unchanged (the index is restored) and no account of the list is usable. *)
Theorem X4_pick_next_sound_and_complete (m : AccountManager)
    (model : option string) (now : Q) :
  match pick_next m model now with
  | (Some r, m') =>
      get_accounts (_authenticator m) !! _current_index m' = Some r
      /\ _is_account_rate_limited m (deref (heap (_authenticator m)) r) model now
         = false
      /\ _is_account_invalid (deref (heap (_authenticator m)) r) = false
      /\ m' = with_index m (_current_index m')
  | (None, m') =>
      m' = m
      /\ forall r, r ∈ get_accounts (_authenticator m) ->
           usable m model now r = false
  end.
Proof.
  unfold pick_next.
  destruct (get_accounts (_authenticator m)) as [| a0 rest] eqn:Hacc.
  - split; [done |]. intros r Hr. by apply elem_of_nil in Hr.
  - rewrite <- Hacc.
    assert (Hne : get_accounts (_authenticator m) <> []) by (by rewrite Hacc).
    destruct (pick_next_loop _ _ _ _ _ _) as [[r idx] |] eqn:Hloop.
    + destruct (pick_next_loop_Some _ _ _ _ _ _ _ _ Hne Hloop) as (_ & Hr & Hu).
      unfold usable in Hu. apply andb_true_iff in Hu as [H1 H2].
      apply negb_true_iff in H1, H2. done.
    + split; [by destruct m |].
      intros r Hr. apply list_elem_of_lookup_1 in Hr as [j Hj].
      destruct (every_index_reached m (_current_index m) j) as (k & Hk & Hkj).
      { by eapply lookup_lt_Some. }
      pose proof (pick_next_loop_None _ _ _ _ _ _ (S k) Hloop ltac:(lia)) as Hu.
      replace (_current_index m + S k)%nat with (_current_index m + 1 + k)%nat
        in Hu by lia.
      unfold ref in *. rewrite Hkj, Hj in Hu. exact Hu.
Qed.

Lemma available_nil_iff m model now :
  get_available_accounts m model now = []
  <-> forall r, r ∈ get_accounts (_authenticator m) -> usable m model now r = false.
Proof.
  unfold get_available_accounts. split.
  - intros Hnil r Hr. destruct (usable m model now r) eqn:Hu; [| done].
    assert (Hin : In r (List.filter (usable m model now) (get_accounts (_authenticator m)))).
    { apply filter_In. split; [by apply list_elem_of_In | done]. }
    rewrite Hnil in Hin. done.
  - intros Hall.
    destruct (List.filter _ _) as [| r rest] eqn:Hf; [done |].
    assert (Hin : In r (List.filter (usable m model now) (get_accounts (_authenticator m))))
      by (rewrite Hf; by left).
    apply filter_In in Hin as [Hin Hu].
    rewrite (Hall r) in Hu; [done | by apply list_elem_of_In].
Qed.

(** X5. [is_all_rate_limited] holds exactly when the list is not empty and no
    account is usable; it does not tell invalid accounts from limited ones, so
    it also holds, whatever the ledger, for a pool whose accounts are all
    invalid.  Whenever it holds, [pick_next] returns [None]. *)
Theorem X5_is_all_rate_limited_meaning (m : AccountManager)
    (model : option string) (now : Q) :
  (is_all_rate_limited m model now = true
   <-> get_accounts (_authenticator m) <> []
       /\ forall r, r ∈ get_accounts (_authenticator m) ->
            usable m model now r = false)
  /\ (get_accounts (_authenticator m) <> [] ->
      (forall r, r ∈ get_accounts (_authenticator m) ->
         _is_account_invalid (deref (heap (_authenticator m)) r) = true) ->
      is_all_rate_limited m model now = true)
  /\ (is_all_rate_limited m model now = true ->
      (pick_next m model now).1 = None).
Proof.
  assert (Hiff : is_all_rate_limited m model now = true
                 <-> get_accounts (_authenticator m) <> []
                     /\ forall r, r ∈ get_accounts (_authenticator m) ->
                          usable m model now r = false).
  { unfold is_all_rate_limited, get_account_count.
    rewrite andb_true_iff, Nat.eqb_eq, Nat.ltb_lt, <- available_nil_iff.
    split; intros [H1 H2].
    - split; [| by destruct (get_available_accounts m model now)].
      intros Hnil. rewrite Hnil in H2. simpl in H2. lia.
    - split; [by rewrite H2 |].
      destruct (get_accounts (_authenticator m)); [done | simpl; lia]. }
  split; [exact Hiff | split].
  - intros Hne Hinv. apply Hiff. split; [done |].
    intros r Hr. unfold usable. rewrite (Hinv r Hr). apply andb_false_r.
  - intros Hall. apply Hiff in Hall as [Hne Hnone].
    unfold pick_next.
    destruct (get_accounts (_authenticator m)) as [| a0 rest] eqn:Hacc; [done |].
    rewrite <- Hacc in *.
    destruct (pick_next_loop _ _ _ _ _ _) as [[r idx] |] eqn:Hloop; [| done].
    destruct (pick_next_loop_Some _ _ _ _ _ _ _ _ Hne Hloop) as (_ & Hr & Hu).
    rewrite (Hnone r) in Hu; [done | by eapply list_elem_of_lookup_2].
Qed.

Lemma X5_witness :
  is_all_rate_limited
    (mark_invalid (mark_invalid Samples.two_accounts "a@x" "Auth error")
       "b@x" "Auth error")
    (Some "gemini-3-flash") 1000
  = true.
Proof.
  apply (proj1 (proj2 (X5_is_all_rate_limited_meaning _ _ _))).
  - discriminate.
  - intros r Hr. apply list_elem_of_In in Hr. simpl in Hr.
    destruct Hr as [<- | [<- | []]]; reflexivity.
Defined.

Lemma residual_wait_nonneg limits key now : 0 <= Cover.residual_wait limits key now.
Proof.
  unfold Cover.residual_wait. destruct (limits !! key) as [limit |]; [| lia].
  destruct (gtb_spec (reset_time limit) now); [| lia].
  apply int_bounds. lra.
Qed.

(** While the truncated wait of an entry has not fully passed, the entry
    limits. *)
Lemma key_limited_before_residual limits key now t :
  0 < Cover.residual_wait limits key now ->
  (t < now + inject_Z (Cover.residual_wait limits key now))%Q ->
  key_limited limits key t = true.
Proof.
  unfold key_limited, Cover.residual_wait.
  destruct (limits !! key) as [limit |]; [| lia].
  destruct (gtb_spec (reset_time limit) now) as [Hgt | _]; [| lia].
  intros _ Ht.
  destruct (int_bounds (reset_time limit - now) ltac:(lra)) as (_ & Hle & _).
  apply gtb_lt. lra.
Qed.

(** One millisecond after the truncated wait of an entry, the entry no longer
    limits. *)
Lemma key_limited_after_residual limits key now w :
  Cover.residual_wait limits key now <= w ->
  key_limited limits key (now + inject_Z w + 1) = false.
Proof.
  unfold key_limited, Cover.residual_wait.
  destruct (limits !! key) as [limit |]; [| done].
  intros Hw. apply gtb_le.
  destruct (gtb_spec (reset_time limit) now) as [Hgt | Hle].
  - destruct (int_bounds (reset_time limit - now) ltac:(lra)) as (_ & _ & Hlt).
    assert (Hq : (inject_Z (PyFloat.int (reset_time limit - now)) <= inject_Z w)%Q)
      by (by rewrite <- Zle_Qle).
    lra.
  - assert (Hq : (inject_Z 0 <= inject_Z w)%Q) by (by rewrite <- Zle_Qle).
    change (inject_Z 0) with 0%Q in Hq. lra.
Qed.

(** The wait computed by [should_wait_for_current_account]. *)
Lemma should_wait_fold limits key global_key now :
  fold_left
    (fun wait_ms k =>
       match limits !! k with
       | Some limit =>
           if PyFloat.gtb (reset_time limit) now
           then Z.max wait_ms (PyFloat.int (reset_time limit - now))
           else wait_ms
       | None => wait_ms
       end)
    [key; global_key] 0
  = Z.max (Cover.residual_wait limits key now)
      (Cover.residual_wait limits global_key now).
Proof.
  pose proof (residual_wait_nonneg limits key now) as H1.
  pose proof (residual_wait_nonneg limits global_key now) as H2.
  unfold Cover.residual_wait in *. cbn [fold_left].
  destruct (limits !! key) as [l1 |], (limits !! global_key) as [l2 |];
    repeat match goal with
           | |- context [PyFloat.gtb ?a ?b] => destruct (PyFloat.gtb a b)
           end; lia.
Qed.

(** X6. [get_current_sticky_account] on a non-empty list first brings the
    index into range (an index past the end becomes 0, any other index stays)
    and returns the account at that index exactly when it is neither
    rate-limited nor invalid. *)
Theorem X6_sticky_account_in_range (m : AccountManager)
    (model : option string) (now : Q) :
  get_accounts (_authenticator m) <> [] ->
  let res := get_current_sticky_account m model now in
  let i := _current_index res.2 in
  (i < length (get_accounts (_authenticator m)))%nat
  /\ i = (if (_current_index m <? length (get_accounts (_authenticator m)))%nat
          then _current_index m else 0%nat)
  /\ res.2 = with_index m i
  /\ exists r, get_accounts (_authenticator m) !! i = Some r
               /\ res.1 = if usable m model now r then Some r else None.
Proof.
  intros Hne. unfold get_current_sticky_account.
  destruct (get_accounts (_authenticator m)) as [| a0 rest] eqn:Hacc; [done |].
  rewrite <- Hacc. clear Hne.
  assert (Hpos : (0 < length (get_accounts (_authenticator m)))%nat)
    by (rewrite Hacc; simpl; lia).
  destruct (Nat.leb_spec (length (get_accounts (_authenticator m))) (_current_index m))
    as [Hge | Hlt].
  - destruct (Nat.ltb_spec (_current_index m) (length (get_accounts (_authenticator m))));
      [lia |].
    destruct (lookup_lt_is_Some_2 (get_accounts (_authenticator m)) 0%nat Hpos)
      as [r Hr].
    cbn [_current_index with_index]. unfold ref in *. rewrite Hr.
    cbn [from_option]. unfold Datatypes.id.
    change (usable (with_index m 0) model now r) with (usable m model now r).
    destruct (usable m model now r) eqn:Hu; cbn [fst snd _current_index with_index];
      (split; [done | split; [done | split; [done |]]]);
      exists r; by rewrite Hu.
  - destruct (Nat.ltb_spec (_current_index m) (length (get_accounts (_authenticator m))));
      [| lia].
    destruct (lookup_lt_is_Some_2 (get_accounts (_authenticator m)) _ Hlt) as [r Hr].
    unfold ref in *. rewrite Hr. cbn [from_option]. unfold Datatypes.id.
    destruct (usable m model now r) eqn:Hu; cbn [fst snd];
      (split; [done | split; [done | split; [by destruct m |]]]);
      exists r; by rewrite Hu.
Qed.

Lemma X6_witness :
  let m := with_index Samples.two_accounts 7 in
  let res := get_current_sticky_account m None 0 in
  let i := _current_index res.2 in
  (i < 2)%nat
  /\ i = 0%nat
  /\ res.2 = with_index m i
  /\ exists r, [0; 1]%nat !! i = Some r
               /\ res.1 = if usable m None 0 r then Some r else None.
Proof.
  apply (X6_sticky_account_in_range (with_index Samples.two_accounts 7) None 0%Q).
  discriminate.
Defined.

Lemma should_wait_true m model now w acc :
  should_wait_for_current_account m model now = (true, w, acc) ->
  exists r,
    acc = Some r
    /\ get_accounts (_authenticator m) !! _current_index m = Some r
    /\ _is_account_invalid (deref (heap (_authenticator m)) r) = false
    /\ 0 < w <= CommonUtils.MAX_WAIT_BEFORE_ERROR_MS
    /\ w = Z.max
             (Cover.residual_wait (_rate_limits m)
                (_get_rate_limit_key (email (deref (heap (_authenticator m)) r)) model)
                now)
             (Cover.residual_wait (_rate_limits m)
                (email (deref (heap (_authenticator m)) r)) now).
Proof.
  unfold should_wait_for_current_account.
  destruct (get_accounts (_authenticator m) !! _current_index m) as [r |] eqn:Hr;
    [| done].
  destruct (_is_account_invalid _) eqn:Hinv; [done |].
  rewrite should_wait_fold.
  destruct (andb _ _) eqn:Hw; [| done].
  intros [= <- <-]. apply andb_true_iff in Hw as [H1 H2].
  apply Z.ltb_lt in H1. apply Z.leb_le in H2.
  exists r. repeat split; done.
Qed.

Lemma should_wait_false m model now w acc :
  should_wait_for_current_account m model now = (false, w, acc) ->
  w = 0 /\ acc = None.
Proof.
  unfold should_wait_for_current_account.
  destruct (get_accounts (_authenticator m) !! _current_index m) as [r |];
    [| by intros [= <- <-]].
  destruct (_is_account_invalid _); [by intros [= <- <-] |].
  destruct (andb _ _); [done | by intros [= <- <-]].
Qed.

Lemma limited_after_wait m account model now w :
  Z.max (Cover.residual_wait (_rate_limits m)
           (_get_rate_limit_key (email account) model) now)
        (Cover.residual_wait (_rate_limits m) (email account) now) <= w ->
  _is_account_rate_limited m account model (now + inject_Z w + 1) = false.
Proof.
  intros Hw. unfold _is_account_rate_limited.
  rewrite key_limited_after_residual by lia.
  change (_get_rate_limit_key (email account) None) with (email account).
  by rewrite key_limited_after_residual by lia.
Qed.

Lemma limited_before_wait m account model now t :
  let w := Z.max (Cover.residual_wait (_rate_limits m)
                    (_get_rate_limit_key (email account) model) now)
                 (Cover.residual_wait (_rate_limits m) (email account) now) in
  0 < w -> (t < now + inject_Z w)%Q ->
  _is_account_rate_limited m account model t = true.
Proof.
  intros w Hpos Ht. unfold _is_account_rate_limited.
  change (_get_rate_limit_key (email account) None) with (email account).
  subst w.
  destruct (Z.max_spec
              (Cover.residual_wait (_rate_limits m)
                 (_get_rate_limit_key (email account) model) now)
              (Cover.residual_wait (_rate_limits m) (email account) now))
    as [[_ Hmax] | [_ Hmax]]; rewrite Hmax in Hpos, Ht.
  - rewrite (key_limited_before_residual _ (email account) now t Hpos Ht).
    by destruct (key_limited _ _ _).
  - by rewrite (key_limited_before_residual _ _ now t Hpos Ht).
Qed.

(** X7. When [should_wait_for_current_account] answers [(True, wait_ms,
    account)], the account is the one at the current index, it is not invalid,
    [wait_ms] is the larger of the remaining waits of its per-model and its
    account-wide entry, each truncated to whole milliseconds, and
    [0 < wait_ms <= 120_000].  The account is rate-limited now and at every
    time before [now + wait_ms], and it is no longer rate-limited at
    [now + wait_ms + 1]: because of the truncation the wait can end up to one
    millisecond before the reset.  Every other answer is [(False, 0, None)]. *)
Theorem X7_should_wait_for_current_account (m : AccountManager)
    (model : option string) (now : Q) :
  match should_wait_for_current_account m model now with
  | (true, w, acc) =>
      exists r,
        acc = Some r
        /\ get_accounts (_authenticator m) !! _current_index m = Some r
        /\ _is_account_invalid (deref (heap (_authenticator m)) r) = false
        /\ 0 < w <= 120000
        /\ w = Z.max
                 (Cover.residual_wait (_rate_limits m)
                    (_get_rate_limit_key
                       (email (deref (heap (_authenticator m)) r)) model) now)
                 (Cover.residual_wait (_rate_limits m)
                    (email (deref (heap (_authenticator m)) r)) now)
        /\ (forall t, (t < now + inject_Z w)%Q ->
              _is_account_rate_limited m (deref (heap (_authenticator m)) r) model t
              = true)
        /\ _is_account_rate_limited m (deref (heap (_authenticator m)) r) model
             (now + inject_Z w + 1)
           = false
  | (false, w, acc) => w = 0 /\ acc = None
  end.
Proof.
  destruct (should_wait_for_current_account m model now) as [[b w] acc] eqn:Hsw.
  destruct b; [| by apply (should_wait_false m model now)].
  destruct (should_wait_true _ _ _ _ _ Hsw) as (r & -> & Hr & Hinv & Hw & Hmax).
  exists r. repeat split; try done; try apply Hw.
  - intros t Ht. rewrite Hmax in Ht. apply (limited_before_wait _ _ _ now); [| done].
    rewrite <- Hmax. apply Hw.
  - apply limited_after_wait. lia.
Qed.

(** A result of [pick_next] is usable. *)
Lemma pick_next_Some_usable m model now r m' :
  pick_next m model now = (Some r, m') -> usable m model now r = true.
Proof.
  unfold pick_next.
  destruct (get_accounts (_authenticator m)) as [| a0 rest] eqn:Hacc; [done |].
  rewrite <- Hacc.
  destruct (pick_next_loop _ _ _ _ _ _) as [[r' idx] |] eqn:Hloop; [| done].
  intros [= <- _].
  eapply pick_next_loop_Some; [| exact Hloop]. by rewrite Hacc.
Qed.

(** A result of [get_current_sticky_account] is usable, and the call changes
    nothing but the index. *)
Lemma sticky_Some_usable m model now r m1 :
  get_current_sticky_account m model now = (Some r, m1) ->
  usable m model now r = true.
Proof.
  unfold get_current_sticky_account.
  destruct (get_accounts (_authenticator m)) as [| a0 rest]; [done |].
  destruct (length _ <=? _)%nat;
    match goal with
    | |- context [usable ?mm model now ?a] =>
        change (usable mm model now a) with (usable m model now a);
        destruct (usable m model now a) eqn:Hu
    end; intros [= <- _]; done.
Qed.

Lemma sticky_state m model now :
  (get_current_sticky_account m model now).2
  = with_index m (_current_index (get_current_sticky_account m model now).2).
Proof.
  unfold get_current_sticky_account.
  destruct (get_accounts (_authenticator m)) as [| a0 rest]; [by destruct m |].
  destruct (length _ <=? _)%nat;
    match goal with
    | |- context [usable ?mm model now ?a] => destruct (usable mm model now a)
    end; by destruct m.
Qed.

Lemma sticky_current_usable m model now r :
  get_accounts (_authenticator m) !! _current_index m = Some r ->
  usable m model now r = true ->
  get_current_sticky_account m model now = (Some r, m).
Proof.
  intros Hr Hu. unfold get_current_sticky_account.
  pose proof (lookup_lt_Some _ _ _ Hr) as Hlt.
  destruct (get_accounts (_authenticator m)) as [| a0 rest] eqn:Hacc;
    [simpl in Hlt; lia |].
  rewrite <- Hacc in *.
  destruct (Nat.leb_spec (length (get_accounts (_authenticator m)))
              (_current_index m)) as [Hge | _]; [lia |].
  unfold ref in *. rewrite Hr. cbn [from_option]. unfold Datatypes.id.
  by rewrite Hu.
Qed.

(** X8. [pick_sticky_account] never hands out an unusable account: an account
    it returns is neither rate-limited nor invalid, and comes with wait 0.
    When it returns no account but a positive wait, the wait is at most
    60_000 ms and the account at the current index, which is not invalid, is
    usable one millisecond after the wait has passed (the wait is truncated to
    whole milliseconds, so at the end of the wait itself the account can still
    be rate-limited).  When the account at the current index is usable it is
    the one returned, and the index stays. *)
Theorem X8_pick_sticky_account (m : AccountManager) (model : option string)
    (now : Q) :
  let res := pick_sticky_account m model now in
  (forall r, res.1.1 = Some r -> usable m model now r = true /\ res.1.2 = 0)
  /\ (res.1.1 = None -> 0 < res.1.2 ->
      res.1.2 <= 60000
      /\ exists r,
           get_accounts (_authenticator m) !! _current_index res.2 = Some r
           /\ usable m model (now + inject_Z res.1.2 + 1) r = true)
  /\ (forall r,
        get_accounts (_authenticator m) !! _current_index m = Some r ->
        usable m model now r = true ->
        res = (Some r, 0, m)).
Proof.
  unfold pick_sticky_account.
  destruct (get_current_sticky_account m model now) as [[sticky |] m1] eqn:Hst.
  - cbn [fst snd]. split; [| split].
    + intros r [= <-]. split; [| done]. by eapply sticky_Some_usable.
    + done.
    + intros r Hr Hu. rewrite (sticky_current_usable m model now r Hr Hu) in Hst.
      by injection Hst as <- <-.
  - pose proof (sticky_state m model now) as Hm1. rewrite Hst in Hm1.
    cbn [snd] in Hm1.
    destruct (should_wait_for_current_account m1 model now) as [[b w] acc] eqn:Hsw.
    destruct (b && (w <=? CommonUtils.MAX_WAIT_BEFORE_ERROR_MS / 2)) eqn:Hb.
    + cbn [fst snd]. apply andb_true_iff in Hb as [-> Hw].
      apply Z.leb_le in Hw.
      destruct (should_wait_true _ _ _ _ _ Hsw) as (r & _ & Hr & Hinv & Hpos & Hmax).
      split; [done | split].
      * intros _ _. split; [exact Hw |]. exists r.
        rewrite Hm1 in Hr, Hinv, Hmax. cbn [_authenticator with_index _rate_limits] in *.
        split; [exact Hr |]. unfold usable. rewrite Hinv.
        rewrite limited_after_wait; [done | lia].
      * intros r' Hr' Hu.
        rewrite (sticky_current_usable m model now r' Hr' Hu) in Hst. done.
    + destruct (pick_next m1 model now) as [next m2] eqn:Hpn. cbn [fst snd].
      split; [| split].
      * intros r ->. split; [| done].
        apply pick_next_Some_usable in Hpn. by rewrite Hm1 in Hpn.
      * intros _ Hlt. lia.
      * intros r' Hr' Hu.
        rewrite (sticky_current_usable m model now r' Hr' Hu) in Hst. done.
Qed.

Lemma X8_witness :
  pick_sticky_account Samples.two_accounts (Some "gemini-3-flash") 1000
  = (Some 0%nat, 0, Samples.two_accounts).
Proof.
  apply (proj2 (proj2 (X8_pick_sticky_account Samples.two_accounts
                         (Some "gemini-3-flash") 1000))); reflexivity.
Defined.

Lemma pick_sticky_Some_usable m model now r w m' :
  pick_sticky_account m model now = (Some r, w, m') ->
  usable m model now r = true.
Proof.
  unfold pick_sticky_account.
  destruct (get_current_sticky_account m model now) as [[sticky |] m1] eqn:Hst.
  - intros [= <- _ _]. by eapply sticky_Some_usable.
  - pose proof (sticky_state m model now) as Hm1. rewrite Hst in Hm1.
    cbn [snd] in Hm1.
    destruct (should_wait_for_current_account m1 model now) as [[b w'] acc].
    destruct (b && _); [done |].
    destruct (pick_next m1 model now) as [next m2] eqn:Hpn.
    intros [= -> _ _]. apply pick_next_Some_usable in Hpn. by rewrite Hm1 in Hpn.
Qed.

Lemma mark_invalid_loop_not_found h accounts e reason :
  find_by_email h accounts e = None ->
  mark_invalid_loop h accounts e reason = h.
Proof.
  unfold find_by_email.
  induction accounts as [| r0 rest IH]; intros Hfind; simpl in *; [done |].
  destruct (String.eqb (email (deref h r0)) e); [done | by apply IH].
Qed.

(** X9. Once [mark_invalid(email)] has found the account, that account dict
    (and no other) is flagged, and no selection ever returns it, whatever the
    ledger and the index are afterwards: not [pick_next], not
    [get_current_sticky_account], not [pick_sticky_account], and it is not
    among the available accounts.  For an email that no listed account carries,
    [mark_invalid] changes nothing. *)
Theorem X9_invalid_account_is_never_selected (m : AccountManager)
    (e reason : string) :
  (forall r d,
      find_by_email (heap (_authenticator m)) (_accounts (_authenticator m)) e
        = Some r ->
      heap (_authenticator m) !! r = Some d ->
      let a' := _authenticator (mark_invalid m e reason) in
      _is_account_invalid (deref (heap a') r) = true
      /\ (forall r', r' <> r -> deref (heap a') r' = deref (heap (_authenticator m)) r')
      /\ forall idx limits model now,
           let m' := mkAccountManager a' idx limits in
           (pick_next m' model now).1 <> Some r
           /\ (get_current_sticky_account m' model now).1 <> Some r
           /\ (pick_sticky_account m' model now).1.1 <> Some r
           /\ r ∉ get_available_accounts m' model now)
  /\ (find_by_email (heap (_authenticator m)) (_accounts (_authenticator m)) e = None ->
      mark_invalid m e reason = m).
Proof.
  split.
  - intros r d Hfind Hd a'.
    assert (Hheap : heap a'
                    = <[r := mkAccount (email d) (refresh_token d) (project_id d)
                                (Some true) (Some reason)]> (heap (_authenticator m))).
    { unfold a', mark_invalid. cbn [_authenticator with_authenticator heap with_heap].
      by apply mark_invalid_loop_found. }
    assert (Hinv : _is_account_invalid (deref (heap a') r) = true).
    { rewrite Hheap. unfold deref.
      rewrite list_lookup_insert_eq by (by eapply lookup_lt_Some). done. }
    split; [exact Hinv | split].
    + intros r' Hne. rewrite Hheap. unfold deref.
      by rewrite list_lookup_insert_ne.
    + intros idx limits model now m'.
      assert (Hu : usable m' model now r = false).
      { unfold usable, m'. cbn [_authenticator]. rewrite Hinv. apply andb_false_r. }
      repeat split.
      * destruct (pick_next m' model now) as [[r' |] m2] eqn:Hpn; [| done].
        intros [= ->]. apply pick_next_Some_usable in Hpn. congruence.
      * destruct (get_current_sticky_account m' model now) as [[r' |] m2] eqn:Hst;
          [| done].
        intros [= ->]. apply sticky_Some_usable in Hst. congruence.
      * destruct (pick_sticky_account m' model now) as [[[r' |] w] m2] eqn:Hps;
          [| done].
        intros [= ->]. apply pick_sticky_Some_usable in Hps. congruence.
      * unfold get_available_accounts. intros Hin.
        apply list_elem_of_In, filter_In in Hin as [_ Hin]. congruence.
  - intros Hnone. unfold mark_invalid, get_accounts.
    rewrite mark_invalid_loop_not_found by done.
    destruct m as [[h l tc pc f] i lim]. reflexivity.
Qed.

Lemma X9_witness :
  let a' := _authenticator (mark_invalid Samples.two_accounts "a@x" "Auth error") in
  _is_account_invalid (deref (heap a') 0%nat) = true
  /\ (forall r', r' <> 0%nat ->
        deref (heap a') r' = deref (heap (_authenticator Samples.two_accounts)) r')
  /\ forall idx limits model now,
       let m' := mkAccountManager a' idx limits in
       (pick_next m' model now).1 <> Some 0%nat
       /\ (get_current_sticky_account m' model now).1 <> Some 0%nat
       /\ (pick_sticky_account m' model now).1.1 <> Some 0%nat
       /\ 0%nat ∉ get_available_accounts m' model now.
Proof.
  apply (proj1 (X9_invalid_account_is_never_selected Samples.two_accounts
                  "a@x" "Auth error") 0%nat (Samples.acct "a@x"));
    reflexivity.
Defined.

(** ** The status report *)

Lemma filter_partition_length {A} (L I : A -> bool) (l : list A) :
  length l
  = (length (List.filter (fun a => negb (L a) && negb (I a)) l)
     + length (List.filter (fun a => L a && negb (I a)) l)
     + length (List.filter I l))%nat.
Proof.
  induction l as [| a l IH]; [done |]. simpl.
  destruct (L a), (I a); simpl; lia.
Qed.

(** X10. The counts of [get_status] partition the accounts (the clock
    standing still during the call): every account is counted exactly once as
    available, as rate-limited or as invalid (an account that is both invalid
    and rate-limited counts as invalid), so
    [total = available + rate_limited + invalid]; and the report lists one
    entry per account, in list order. *)
Theorem X10_status_counts_partition (m : AccountManager) (now : Q) :
  let s := Status.get_status m now in
  Status.total s
  = (Status.available s + Status.rate_limited s + Status.invalid s)%nat
  /\ length (Status.accounts s) = Status.total s
  /\ Status.invalid s
     = length (List.filter Status.st_is_invalid (Status.accounts s))
  /\ map Status.st_email (Status.accounts s)
     = map (fun r => email (deref (heap (_authenticator m)) r))
         (get_accounts (_authenticator m)).
Proof.
  unfold Status.get_status. cbn [Status.total Status.available Status.rate_limited
    Status.invalid Status.accounts].
  split; [| split; [| split]].
  - unfold get_available_accounts, usable.
    apply (filter_partition_length
             (fun a => _is_account_rate_limited m (deref (heap (_authenticator m)) a)
                         None now)
             (fun a => _is_account_invalid (deref (heap (_authenticator m)) a))).
  - by rewrite length_map.
  - induction (get_accounts (_authenticator m)) as [| a l IH]; [done |]. simpl.
    destruct (_is_account_invalid _); simpl; by rewrite IH.
  - by rewrite map_map.
Qed.

(** ** The token cache beyond [set] and [get] *)

(** X11. [clear(email)] makes [get(email)] answer [None] and, for a non-empty
    email, leaves every other entry as it was; [clear()] and [clear("")] empty
    the whole cache, so an empty email clears every token.  [set] for one email
    does not change what [get] answers for another. *)
Theorem X11_token_cache_clear_and_frame (cache : gmap string TokenEntry)
    (e e' t : string) (ttl set_time now : Z) :
  TokenCache_get (TokenCache_clear cache (Some e)) e now = None
  /\ (e <> "" -> e' <> e ->
      TokenCache_get (TokenCache_clear cache (Some e)) e' now
      = TokenCache_get cache e' now)
  /\ TokenCache_get (TokenCache_clear cache None) e' now = None
  /\ TokenCache_get (TokenCache_clear cache (Some "")) e' now = None
  /\ (e' <> e ->
      TokenCache_get (TokenCache_set cache e t ttl set_time) e' now
      = TokenCache_get cache e' now).
Proof.
  unfold TokenCache_get, TokenCache_clear, TokenCache_set, PyStr.truthy.
  split; [| split; [| split; [| split]]].
  - destruct (String.eqb_spec e ""); cbn [negb default from_option].
    + by rewrite lookup_empty.
    + unfold Datatypes.id. by rewrite lookup_delete_eq.
  - intros He Hne. destruct (String.eqb_spec e ""); [done |].
    cbn [negb default from_option]. unfold Datatypes.id.
    by rewrite lookup_delete_ne.
  - by rewrite lookup_empty.
  - cbn [String.eqb negb]. by rewrite lookup_empty.
  - intros Hne. by rewrite lookup_insert_ne.
Qed.

Lemma X11_witness :
  TokenCache_get
    (TokenCache_clear (TokenCache_set (TokenCache_set ∅ "a@x" "tok-a" 3600 0)
                         "b@x" "tok-b" 3600 0) (Some "a@x")) "b@x" 100
  = TokenCache_get
      (TokenCache_set (TokenCache_set ∅ "a@x" "tok-a" 3600 0) "b@x" "tok-b" 3600 0)
      "b@x" 100.
Proof.
  apply (X11_token_cache_clear_and_frame _ "a@x" "b@x" "" 0 0 100); discriminate.
Defined.

(** ** The account list *)

Lemma email_deref_insert h r a' r' :
  email a' = email (deref h r) ->
  email (deref (<[r := a']> h) r') = email (deref h r').
Proof.
  intros He. unfold deref in *.
  destruct (decide (r = r')) as [<- | Hne].
  - destruct (h !! r) as [d |] eqn:Hd.
    + rewrite list_lookup_insert_eq by (by eapply lookup_lt_Some). done.
    + rewrite list_insert_ge; [by rewrite Hd |]. by apply lookup_ge_None.
  - by rewrite list_lookup_insert_ne.
Qed.

Lemma listed_emails_insert a r a' :
  email a' = email (deref (heap a) r) ->
  Cover.listed_emails (with_heap a (<[r := a']> (heap a))) = Cover.listed_emails a.
Proof.
  intros He. unfold Cover.listed_emails. cbn [heap _accounts with_heap].
  apply map_ext. intros r'. by apply email_deref_insert.
Qed.

Lemma unique_emails_insert a r a' :
  email a' = email (deref (heap a) r) ->
  Cover.unique_emails a ->
  Cover.unique_emails (with_heap a (<[r := a']> (heap a))).
Proof.
  intros He [Hnd Hrange]. split.
  - by rewrite listed_emails_insert.
  - cbn [heap _accounts with_heap]. by rewrite length_insert.
Qed.

Lemma find_by_email_None h accounts e :
  find_by_email h accounts e = None ->
  e ∉ map (fun r => email (deref h r)) accounts.
Proof.
  unfold find_by_email. intros Hnone Hin.
  apply list_elem_of_In, in_map_iff in Hin as (r & He & Hr).
  pose proof (find_none _ _ Hnone r Hr) as Hf. simpl in Hf.
  rewrite He, String.eqb_refl in Hf. done.
Qed.

Lemma unique_emails_append a new :
  find_by_email (heap a) (_accounts a) (email new) = None ->
  Cover.unique_emails a ->
  Cover.unique_emails
    (with_accounts (with_heap a (heap a ++ [new])) (_accounts a ++ [length (heap a)])).
Proof.
  intros Hnone [Hnd Hrange]. unfold Cover.unique_emails, Cover.listed_emails in *.
  cbn [heap _accounts with_heap with_accounts].
  assert (Hold : map (fun r => email (deref (heap a ++ [new]) r)) (_accounts a)
                 = map (fun r => email (deref (heap a) r)) (_accounts a)).
  { apply map_ext_in. intros r Hr. unfold deref.
    rewrite lookup_app_l; [done |].
    rewrite Forall_forall in Hrange. apply Hrange. by apply list_elem_of_In. }
  split.
  - rewrite map_app, Hold. simpl. unfold deref at 2.
    rewrite lookup_app_r, Nat.sub_diag by lia. simpl.
    apply NoDup_app. repeat split; [done | | apply NoDup_singleton].
    intros x Hx Hx'. apply list_elem_of_singleton in Hx'. subst x.
    by apply find_by_email_None in Hnone.
  - rewrite length_app. simpl. apply Forall_app. split.
    + eapply Forall_impl; [exact Hrange |]. simpl. intros; lia.
    + repeat constructor. lia.
Qed.

Lemma NoDup_map_filter {A B} (f : A -> B) (p : A -> bool) (l : list A) :
  NoDup (map f l) -> NoDup (map f (List.filter p l)).
Proof.
  induction l as [| x l IH]; [done |]. simpl. intros Hnd.
  apply NoDup_cons in Hnd as [Hx Hnd].
  destruct (p x); [| by apply IH]. simpl. apply NoDup_cons. split; [| by apply IH].
  intros Hin. apply Hx.
  apply list_elem_of_In, in_map_iff in Hin as (y & Hy & Hin).
  apply filter_In in Hin as [Hin _].
  apply list_elem_of_In, in_map_iff. by exists y.
Qed.

(** X12. Every operation on the account list keeps the emails of the listed
    accounts distinct (and the references valid): [mark_invalid], adding an
    account from the command line or through the OAuth callback, removing an
    account, project discovery and saving.  Hence so does every sequence of
    them, and the accounts file written by a save holds no email twice. *)
Theorem X12_emails_stay_unique (m : AccountManager) (ops : list Derived.op) :
  Cover.unique_emails (_authenticator m) ->
  Cover.unique_emails (_authenticator (Derived.run m ops))
  /\ NoDup (map email
              (accounts_file (_save_accounts (_authenticator (Derived.run m ops))))).
Proof.
  assert (Hstep : forall m o, Cover.unique_emails (_authenticator m) ->
                    Cover.unique_emails (_authenticator (Derived.step m o))).
  { clear. intros m o Hu.
    destruct o as [e reason | r now | r now | e | acc disc |]; simpl.
    - unfold get_accounts.
      destruct (find_by_email (heap (_authenticator m)) (_accounts (_authenticator m)) e)
        as [r |] eqn:Hfind.
      + destruct (heap (_authenticator m) !! r) as [d |] eqn:Hd.
        * rewrite (mark_invalid_loop_found _ _ _ reason _ _ Hfind Hd).
          apply unique_emails_insert; [| done]. unfold deref. by rewrite Hd.
        * destruct Hu as [_ Hrange]. rewrite Forall_forall in Hrange.
          apply find_by_email_elem in Hfind. apply Hrange in Hfind.
          apply lookup_ge_None in Hd. lia.
      + rewrite mark_invalid_loop_not_found by done.
        by destruct (_authenticator m).
    - unfold add_account_interactive.
      destruct (find_by_email _ _ _) as [existing |] eqn:Hfind.
      + by apply (unique_emails_insert (_authenticator m)).
      + by apply (unique_emails_append (_authenticator m)
                    (mkAccount (oa_email r) (oa_refresh_token r) (oa_project_id r)
                       None None)).
    - unfold get_accounts.
      destruct (find_by_email _ _ _) as [existing |] eqn:Hfind.
      + by apply (unique_emails_insert (_authenticator m)).
      + by apply (unique_emails_append (_authenticator m)
                    (mkAccount (oa_email r) (oa_refresh_token r) (oa_project_id r)
                       None None)).
    - unfold remove_account.
      assert (Hf : Cover.unique_emails
                (with_accounts (_authenticator m)
                   (List.filter
                      (fun r => negb (String.eqb
                                        (email (deref (heap (_authenticator m)) r)) e))
                      (_accounts (_authenticator m))))).
      { destruct Hu as [Hnd Hrange]. split.
        - unfold Cover.listed_emails. cbn [heap _accounts with_accounts].
          by apply NoDup_map_filter.
        - cbn [heap _accounts with_accounts]. apply Forall_forall. intros r Hr.
          apply list_elem_of_In, filter_In in Hr as [Hr _].
          rewrite Forall_forall in Hrange. apply Hrange. by apply list_elem_of_In. }
      by destruct (_ <? _)%nat.
    - unfold get_project_for_account.
      destruct (PyStr.truthy (ProjectCache_get _ _)); [done |].
      destruct (PyStr.truthy (project_id _)); [done |].
      destruct (PyStr.truthy disc); [| done].
      by apply (unique_emails_insert (_authenticator m)).
    - done. }
  intros Hu.
  assert (Hrun : Cover.unique_emails (_authenticator (Derived.run m ops))).
  { unfold Derived.run. revert m Hu.
    induction ops as [| o ops IH]; intros m Hu; [done |]. simpl.
    apply IH. by apply Hstep. }
  split; [exact Hrun |].
  destruct Hrun as [Hnd _]. unfold Cover.listed_emails in Hnd.
  cbn [accounts_file _save_accounts with_file]. by rewrite map_map.
Qed.

Lemma X12_witness :
  Cover.unique_emails
    (_authenticator
       (Derived.run Samples.two_accounts
          [Derived.AddAccountInteractive
             (mkOAuthResult "a@x" "tok" (Some "rt-new") 3600 (Some "proj-2")) 0;
           Derived.RemoveAccount "b@x"]))
  /\ NoDup
       (map email
          (accounts_file
             (_save_accounts
                (_authenticator
                   (Derived.run Samples.two_accounts
                      [Derived.AddAccountInteractive
                         (mkOAuthResult "a@x" "tok" (Some "rt-new") 3600
                            (Some "proj-2")) 0;
                       Derived.RemoveAccount "b@x"]))))).
Proof.
  apply X12_emails_stay_unique. split.
  - apply (bool_decide_unpack _). vm_compute. reflexivity.
  - vm_compute. repeat constructor.
Defined.

Lemma filter_length_le {A} (p : A -> bool) (l : list A) :
  (length (List.filter p l) <= length l)%nat.
Proof. induction l as [| x l IH]; simpl; [lia |]. destruct (p x); simpl; lia. Qed.

Lemma filter_length_lt {A} (p : A -> bool) (l : list A) :
  (length (List.filter p l) < length l)%nat <-> exists x, In x l /\ p x = false.
Proof.
  induction l as [| x l IH]; simpl.
  - split; [lia | by intros (x & [] & _)].
  - pose proof (filter_length_le p l) as Hle.
    destruct (p x) eqn:Hx; simpl.
    + rewrite <- Nat.succ_lt_mono, IH. split.
      * intros (y & Hy & Hp). exists y. auto.
      * intros (y & [-> | Hy] & Hp); [congruence |]. by exists y.
    + split; [| lia]. intros _. exists x. auto.
Qed.

Lemma filter_length_eq {A} (p : A -> bool) (l : list A) :
  length (List.filter p l) = length l -> List.filter p l = l.
Proof.
  induction l as [| x l IH]; simpl; [done |].
  pose proof (filter_length_le p l) as Hle.
  destruct (p x); simpl; intros Hlen; [f_equal; apply IH; lia | lia].
Qed.

Lemma find_by_email_filter_out h accounts e :
  find_by_email h
    (List.filter (fun r => negb (String.eqb (email (deref h r)) e)) accounts) e
  = None.
Proof.
  unfold find_by_email.
  destruct (List.find _ _) as [r |] eqn:Hfind; [| done].
  apply find_some in Hfind as [Hin He]. apply filter_In in Hin as [_ Hne].
  simpl in *. by rewrite He in Hne.
Qed.

(** X13. [remove_account(email)] answers [True] exactly when a listed account
    carries the email.  Afterwards no listed account carries it, the other
    accounts are listed as before and in the same order, and the account dicts
    are untouched.  On [True] the file is rewritten from the shortened list and
    the token and project caches no longer answer for the email; on [False]
    nothing at all has changed. *)
Theorem X13_remove_account (a : Authenticator) (e : string) :
  let res := remove_account a e in
  (res.1 = true <-> e ∈ Cover.listed_emails a)
  /\ find_by_email (heap res.2) (_accounts res.2) e = None
  /\ _accounts res.2
     = List.filter (fun r => negb (String.eqb (email (deref (heap a) r)) e))
         (_accounts a)
  /\ heap res.2 = heap a
  /\ (res.1 = true ->
      accounts_file res.2 = map (deref (heap a)) (_accounts res.2)
      /\ (forall now, TokenCache_get (_token_cache res.2) e now = None)
      /\ ProjectCache_get (_project_cache res.2) e = None)
  /\ (res.1 = false -> res.2 = a).
Proof.
  unfold remove_account. cbn [_accounts with_accounts].
  set (kept := List.filter
                 (fun r => negb (String.eqb (email (deref (heap a) r)) e))
                 (_accounts a)).
  assert (Hlt : (length kept < length (_accounts a))%nat
                <-> e ∈ Cover.listed_emails a).
  { unfold kept. rewrite filter_length_lt. unfold Cover.listed_emails. split.
    - intros (r & Hr & He). apply negb_false_iff, String.eqb_eq in He.
      apply list_elem_of_In, in_map_iff. by exists r.
    - intros Hin. apply list_elem_of_In, in_map_iff in Hin as (r & He & Hr).
      exists r. split; [done |]. apply negb_false_iff, String.eqb_eq. done. }
  destruct (Nat.ltb_spec (length kept) (length (_accounts a))) as [Hl | Hge];
    cbn [fst snd].
  - split; [by rewrite <- Hlt |].
    split; [apply find_by_email_filter_out |].
    split; [done | split; [done | split; [| done]]].
    intros _. split; [done | split].
    + intros now. unfold TokenCache_get, TokenCache_clear, PyStr.truthy.
      cbn [_token_cache with_token_cache with_project_cache _save_accounts with_file].
      destruct (String.eqb_spec e ""); cbn [negb from_option].
      * by rewrite lookup_empty.
      * unfold Datatypes.id. by rewrite lookup_delete_eq.
    + unfold ProjectCache_get, ProjectCache_clear, PyStr.truthy.
      cbn [_project_cache with_project_cache].
      destruct (String.eqb_spec e ""); cbn [negb from_option].
      * by rewrite lookup_empty.
      * unfold Datatypes.id. by rewrite lookup_delete_eq.
  - split; [split; [done | intros Hin; apply Hlt in Hin; lia] |].
    split; [apply find_by_email_filter_out |].
    split; [done | split; [done | split; [done |]]].
    intros _. unfold kept. rewrite filter_length_eq.
    + by destruct a.
    + pose proof (filter_length_le
                    (fun r => negb (String.eqb (email (deref (heap a) r)) e))
                    (_accounts a)). fold kept in H |- *. lia.
Qed.

Lemma X13_witness :
  accounts_file (remove_account (_authenticator Samples.two_accounts) "b@x").2
  = map (deref (heap (_authenticator Samples.two_accounts)))
      (_accounts (remove_account (_authenticator Samples.two_accounts) "b@x").2)
  /\ (forall now,
        TokenCache_get
          (_token_cache (remove_account (_authenticator Samples.two_accounts) "b@x").2)
          "b@x" now = None)
  /\ ProjectCache_get
       (_project_cache (remove_account (_authenticator Samples.two_accounts) "b@x").2)
       "b@x" = None.
Proof.
  apply (X13_remove_account (_authenticator Samples.two_accounts) "b@x").
  reflexivity.
Defined.

Lemma find_by_email_insert h accounts e r a' :
  email a' = email (deref h r) ->
  find_by_email (<[r := a']> h) accounts e = find_by_email h accounts e.
Proof.
  intros He. unfold find_by_email.
  induction accounts as [| r0 rest IH]; [done |]. simpl.
  by rewrite (email_deref_insert h r a' r0 He), IH.
Qed.

Lemma find_by_email_first h accounts e r :
  find_by_email h accounts e = Some r -> email (deref h r) = e.
Proof.
  unfold find_by_email. intros H. apply find_some in H as [_ H].
  by apply String.eqb_eq in H.
Qed.

Lemma find_by_email_append h accounts new :
  Forall (fun r => (r < length h)%nat) accounts ->
  find_by_email h accounts (email new) = None ->
  find_by_email (h ++ [new]) (accounts ++ [length h]) (email new)
  = Some (length h).
Proof.
  unfold find_by_email. intros Hrange.
  induction Hrange as [| r0 rest Hr0 Hrest IH]; simpl.
  - intros _. unfold deref. rewrite lookup_app_r, Nat.sub_diag by lia. simpl.
    by rewrite String.eqb_refl.
  - unfold deref at 1 3. rewrite lookup_app_l by done.
    destruct (String.eqb _ _); [done | apply IH].
Qed.

Lemma deref_insert_eq h r x :
  (r < length h)%nat -> deref (<[r := x]> h) r = x.
Proof. intros Hlt. unfold deref. by rewrite list_lookup_insert_eq. Qed.

Lemma deref_app_new h x : deref (h ++ [x]) (length h) = x.
Proof. unfold deref. by rewrite lookup_app_r, Nat.sub_diag by lia. Qed.

(** X14. After an account has been added (or re-authorised) from the command
    line, looking its email up finds an account dict that carries the new
    refresh token and project id; the list has grown by one exactly when the
    email was not listed before; the file holds the listed dicts as they now
    are; and the token cache answers with the fresh access token until 60
    seconds before it expires. *)
Theorem X14_add_account_then_lookup (a : Authenticator) (res : OAuthResult)
    (now : Z) :
  Cover.unique_emails a ->
  let a' := add_account_interactive a res now in
  (exists r,
      find_by_email (heap a') (_accounts a') (oa_email res) = Some r
      /\ email (deref (heap a') r) = oa_email res
      /\ refresh_token (deref (heap a') r) = oa_refresh_token res
      /\ project_id (deref (heap a') r) = oa_project_id res)
  /\ length (_accounts a')
     = (if bool_decide (oa_email res ∈ Cover.listed_emails a)
        then length (_accounts a) else S (length (_accounts a)))
  /\ accounts_file a' = map (deref (heap a')) (_accounts a')
  /\ (forall t, t < now + oa_expires_in res - 60 ->
        TokenCache_get (_token_cache a') (oa_email res) t
        = Some (oa_access_token res)).
Proof.
  intros [Hnd Hrange] a'. unfold a', add_account_interactive.
  assert (Htok : forall a0 : Authenticator, forall t,
             t < now + oa_expires_in res - 60 ->
             TokenCache_get
               (TokenCache_set (_token_cache a0) (oa_email res) (oa_access_token res)
                  (oa_expires_in res) now) (oa_email res) t
             = Some (oa_access_token res)).
  { intros a0 t Ht. rewrite TokenCache_get_set_same.
    destruct (Z.gtb_spec (now + oa_expires_in res - 60) t); [done | lia]. }
  destruct (find_by_email (heap a) (_accounts a) (oa_email res)) as [existing |]
    eqn:Hfind.
  - cbn [heap _accounts _token_cache accounts_file with_heap with_token_cache
         _save_accounts with_file].
    pose proof (find_by_email_elem _ _ _ _ Hfind) as Hin.
    pose proof (find_by_email_first _ _ _ _ Hfind) as Hemail.
    assert (Hlt : (existing < length (heap a))%nat).
    { rewrite Forall_forall in Hrange. by apply Hrange. }
    split; [| split; [| split]].
    + exists existing. rewrite find_by_email_insert by done.
      split; [done |]. rewrite deref_insert_eq by done. done.
    + rewrite bool_decide_true; [done |].
      unfold Cover.listed_emails. apply list_elem_of_In, in_map_iff.
      exists existing. split; [done | by apply list_elem_of_In].
    + done.
    + apply Htok.
  - cbn [heap _accounts _token_cache accounts_file with_heap with_accounts
         with_token_cache _save_accounts with_file].
    split; [| split; [| split]].
    + exists (length (heap a)).
      pose proof (find_by_email_append (heap a) (_accounts a)
                    (mkAccount (oa_email res) (oa_refresh_token res)
                       (oa_project_id res) None None) Hrange Hfind) as Hnew.
      split; [exact Hnew |]. by rewrite deref_app_new.
    + rewrite bool_decide_false by (by apply find_by_email_None).
      rewrite length_app. simpl. lia.
    + done.
    + apply Htok.
Qed.

Lemma X14_witness :
  let a' := add_account_interactive (_authenticator Samples.two_accounts)
              (mkOAuthResult "c@x" "ya29.c" (Some "rt-c") 3600 (Some "proj-9")) 1000 in
  (exists r,
      find_by_email (heap a') (_accounts a') "c@x" = Some r
      /\ email (deref (heap a') r) = "c@x"
      /\ refresh_token (deref (heap a') r) = Some "rt-c"
      /\ project_id (deref (heap a') r) = Some "proj-9")
  /\ length (_accounts a')
     = (if bool_decide
             ("c@x" ∈ Cover.listed_emails (_authenticator Samples.two_accounts))
        then 2%nat else 3%nat)
  /\ accounts_file a' = map (deref (heap a')) (_accounts a')
  /\ (forall t, t < 1000 + 3600 - 60 ->
        TokenCache_get (_token_cache a') "c@x" t = Some "ya29.c").
Proof.
  apply (X14_add_account_then_lookup (_authenticator Samples.two_accounts)
           (mkOAuthResult "c@x" "ya29.c" (Some "rt-c") 3600 (Some "proj-9")) 1000).
  split.
  - apply (bool_decide_unpack _). vm_compute. reflexivity.
  - vm_compute. repeat constructor.
Defined.

(** ** Project ids *)

Lemma truthy_Some_nonempty o :
  PyStr.truthy o = true -> o = Some (default "" o) /\ default "" o <> "".
Proof.
  destruct o as [s |]; simpl; [| done]. intros H.
  apply negb_true_iff, String.eqb_neq in H. done.
Qed.

(** X15. [get_project_for_account] never answers an empty project id.  Once
    it has answered from the cache, from the stored account or from discovery,
    it is memoised: every later call for the same account answers the same id
    straight from the cache, with no further discovery, write or state change.
    When all three sources are empty it answers the default id and changes
    nothing. *)
Theorem X15_project_is_memoised (a : Authenticator) (account : ref)
    (discovered : option string) :
  let e := email (deref (heap a) account) in
  let res := get_project_for_account a account discovered in
  res.1 <> ""
  /\ (PyStr.truthy (ProjectCache_get (_project_cache a) e)
      || PyStr.truthy (project_id (deref (heap a) account))
      || PyStr.truthy discovered = true ->
      forall discovered',
        get_project_for_account res.2 account discovered' = (res.1, res.2))
  /\ (PyStr.truthy (ProjectCache_get (_project_cache a) e)
      || PyStr.truthy (project_id (deref (heap a) account))
      || PyStr.truthy discovered = false ->
      res = (CommonUtils.DEFAULT_PROJECT_ID, a)).
Proof.
  intros e res.
  assert (Hhit : forall (a0 : Authenticator) p d',
             email (deref (heap a0) account) = e ->
             _project_cache a0 !! e = Some p -> p <> "" ->
             get_project_for_account a0 account d' = (p, a0)).
  { intros a0 p d' He Hp Hne. unfold get_project_for_account, ProjectCache_get.
    rewrite He, Hp. simpl.
    by destruct (String.eqb_spec p ""). }
  destruct (PyStr.truthy (ProjectCache_get (_project_cache a) e)) eqn:Hc.
  { destruct (truthy_Some_nonempty _ Hc) as [Hsome Hne].
    assert (Hres : res = (default "" (ProjectCache_get (_project_cache a) e), a)).
    { unfold res, get_project_for_account. fold e. by rewrite Hc. }
    rewrite Hres. cbn [fst snd orb]. split; [done | split; [| done]].
    intros _ d'. by apply Hhit. }
  destruct (PyStr.truthy (project_id (deref (heap a) account))) eqn:Hs.
  { destruct (truthy_Some_nonempty _ Hs) as [Hsome Hne].
    set (p := default "" (project_id (deref (heap a) account))) in *.
    assert (Hres : res = (p, with_project_cache a
                               (ProjectCache_set (_project_cache a) e p))).
    { unfold res, get_project_for_account. fold e. by rewrite Hc, Hs. }
    rewrite Hres. cbn [fst snd orb]. split; [done | split; [| done]].
    intros _ d'. apply Hhit; [done | | done].
    cbn [_project_cache with_project_cache]. apply lookup_insert_eq. }
  destruct (PyStr.truthy discovered) eqn:Hd.
  { destruct (truthy_Some_nonempty _ Hd) as [Hsome Hne].
    set (p := default "" discovered) in *.
    assert (Hres : exists a', res = (p, a')
                     /\ email (deref (heap a') account) = e
                     /\ _project_cache a' !! e = Some p).
    { eexists. split; [| split].
      - unfold res, get_project_for_account. fold e. rewrite Hc, Hs, Hd.
        reflexivity.
      - cbn [heap with_heap with_project_cache _save_accounts with_file].
        unfold e. by apply (email_deref_insert (heap a) account _ account).
      - cbn [_project_cache with_heap with_project_cache _save_accounts with_file].
        apply lookup_insert_eq. }
    destruct Hres as (a' & Hres & He' & Hp').
    rewrite Hres. cbn [fst snd orb]. split; [done | split; [| done]].
    intros _ d'. by apply Hhit. }
  cbn [orb]. split; [| split; [done |]].
  - unfold res, get_project_for_account. fold e. by rewrite Hc, Hs, Hd.
  - intros _. unfold res, get_project_for_account. fold e. by rewrite Hc, Hs, Hd.
Qed.

Lemma X15_witness :
  get_project_for_account
    (get_project_for_account (_authenticator Samples.two_accounts) 0%nat None).2
    0%nat (Some "proj-2")
  = ((get_project_for_account (_authenticator Samples.two_accounts) 0%nat None).1,
     (get_project_for_account (_authenticator Samples.two_accounts) 0%nat None).2).
Proof.
  apply (proj1 (proj2 (X15_project_is_memoised
                         (_authenticator Samples.two_accounts) 0%nat None))).
  reflexivity.
Defined.

(** X16. Re-authorising a listed account treats the invalid flag differently
    on the two paths.  [add_account_interactive] (command line) replaces the
    refresh token and the project id and leaves [is_invalid] and
    [invalid_reason] as they were, so an account that was marked invalid stays
    invalid.  The OAuth callback of the proxy removes [is_invalid], so the
    account is valid again, but keeps [invalid_reason], which the save that
    follows writes to the file. *)
Theorem X16_reauthorisation_and_the_invalid_flag (m : AccountManager)
    (res : OAuthResult) (now : Z) (r : ref) (d : Account) :
  find_by_email (heap (_authenticator m)) (_accounts (_authenticator m))
    (oa_email res) = Some r ->
  heap (_authenticator m) !! r = Some d ->
  let cli := add_account_interactive (_authenticator m) res now in
  let web := _authenticator (Endpoints.antigravity_auth_callback m res now) in
  deref (heap cli) r
  = mkAccount (email d) (oa_refresh_token res) (oa_project_id res)
      (is_invalid d) (invalid_reason d)
  /\ _is_account_invalid (deref (heap cli) r) = _is_account_invalid d
  /\ deref (heap web) r
     = mkAccount (email d) (oa_refresh_token res) (oa_project_id res)
         None (invalid_reason d)
  /\ _is_account_invalid (deref (heap web) r) = false
  /\ deref (heap web) r ∈ accounts_file web.
Proof.
  intros Hfind Hd cli web.
  pose proof (lookup_lt_Some _ _ _ Hd) as Hlt.
  assert (Hderef : deref (heap (_authenticator m)) r = d)
    by (unfold deref; by rewrite Hd).
  assert (Hcli : deref (heap cli) r
                 = mkAccount (email d) (oa_refresh_token res) (oa_project_id res)
                     (is_invalid d) (invalid_reason d)).
  { unfold cli, add_account_interactive. rewrite Hfind.
    cbn [heap with_heap with_token_cache _save_accounts with_file].
    by rewrite deref_insert_eq, Hderef. }
  assert (Hweb : deref (heap web) r
                 = mkAccount (email d) (oa_refresh_token res) (oa_project_id res)
                     None (invalid_reason d)).
  { unfold web, Endpoints.antigravity_auth_callback, get_accounts. rewrite Hfind.
    cbn [_authenticator with_authenticator heap with_heap with_accounts
         with_token_cache _save_accounts with_file].
    by rewrite deref_insert_eq, Hderef. }
  split; [exact Hcli | split; [by rewrite Hcli | split; [exact Hweb | split]]].
  - by rewrite Hweb.
  - unfold web, Endpoints.antigravity_auth_callback, get_accounts. rewrite Hfind.
    cbn [_authenticator with_authenticator heap _accounts accounts_file with_heap
         with_accounts with_token_cache _save_accounts with_file].
    apply list_elem_of_In, in_map_iff. exists r. split; [done |].
    apply list_elem_of_In. by eapply find_by_email_elem.
Qed.

Lemma X16_witness :
  let m := mark_invalid Samples.two_accounts "a@x" "Auth error" in
  let res := mkOAuthResult "a@x" "ya29.a" (Some "rt-2") 3600 (Some "proj-1") in
  _is_account_invalid
    (deref (heap (add_account_interactive (_authenticator m) res 0)) 0%nat)
  = true
  /\ _is_account_invalid
       (deref (heap (_authenticator (Endpoints.antigravity_auth_callback m res 0)))
          0%nat)
     = false.
Proof.
  intros m res.
  destruct (X16_reauthorisation_and_the_invalid_flag m res 0 0%nat
              (mkAccount "a@x" (Some "rt-a@x") (Some "proj-1") (Some true)
                 (Some "Auth error")) eq_refl eq_refl)
    as (_ & Hcli & _ & Hweb & _).
  split; [exact Hcli | exact Hweb].
Defined.


(** ** The invalid flag and the accounts file *)







(** ** The fallback table and the account selection of [completion] *)

Lemma get_fallback_model_In model f :
  Models.get_fallback_model model = Some f ->
  In (model, f) Models.MODEL_FALLBACK_MAP.
Proof.
  unfold Models.get_fallback_model, Models.MODEL_FALLBACK_MAP.
  cbn [List.find fst].
  repeat match goal with
         | |- context [String.eqb ?a model] =>
             destruct (String.eqb_spec a model) as [<- | ?];
             [cbn [option_map snd]; intros [= <-]; simpl; tauto |]
         end.
  done.
Qed.

Lemma supported_has_fallback model :
  In model Models.ANTIGRAVITY_MODELS ->
  exists f, Models.get_fallback_model model = Some f.
Proof.
  intros Hin. simpl in Hin.
  repeat (destruct Hin as [<- | Hin]; [eexists; reflexivity |]).
  done.
Qed.

(** X17. The fallback table.  [get_fallback_model] answers exactly for the
    supported models; the fallback is a supported model of the other family,
    so it has a fallback of its own, and from the first fallback on the chain
    alternates between two models: it never ends. *)
Theorem X17_fallback_chain_never_ends :
  (forall model,
      In model Models.ANTIGRAVITY_MODELS
      <-> exists f, Models.get_fallback_model model = Some f)
  /\ (forall model f,
        Models.get_fallback_model model = Some f ->
        In f Models.ANTIGRAVITY_MODELS
        /\ f <> ""
        /\ get_model_family model <> unknown
        /\ get_model_family f <> unknown
        /\ get_model_family f <> get_model_family model
        /\ exists g, Models.get_fallback_model f = Some g
                     /\ Models.get_fallback_model g = Some f).
Proof.
  split.
  - intros model. split; [apply supported_has_fallback |].
    intros [f Hf]. apply get_fallback_model_In in Hf. simpl in Hf.
    repeat (destruct Hf as [[= <- <-] | Hf]; [simpl; tauto |]).
    done.
  - intros model f Hf. apply get_fallback_model_In in Hf. simpl in Hf.
    repeat (destruct Hf as [[= <- <-] | Hf];
            [split; [simpl; tauto |];
             split; [discriminate |];
             split; [vm_compute; discriminate |];
             split; [vm_compute; discriminate |];
             split; [vm_compute; discriminate |];
             eexists; split; reflexivity |]).
    done.
Qed.

Lemma X17_witness :
  In "claude-sonnet-4.5" Models.ANTIGRAVITY_MODELS
  /\ get_model_family "claude-sonnet-4.5" <> get_model_family "gemini-3-pro-low"
  /\ exists g, Models.get_fallback_model "claude-sonnet-4.5" = Some g
               /\ Models.get_fallback_model g = Some "claude-sonnet-4.5".
Proof.
  destruct (proj2 X17_fallback_chain_never_ends "gemini-3-pro-low"
              "claude-sonnet-4.5" eq_refl) as (H1 & _ & _ & _ & H2 & H3).
  split; [exact H1 | split; [exact H2 | exact H3]].
Defined.

Lemma pick_next_state m model now :
  exists i, (pick_next m model now).2 = with_index m i.
Proof.
  unfold pick_next.
  destruct (get_accounts (_authenticator m)) as [| a0 rest].
  - exists (_current_index m). by destruct m.
  - destruct (pick_next_loop _ _ _ _ _ _) as [[r idx] |]; eexists; reflexivity.
Qed.

Lemma pick_sticky_state m model now :
  exists i, (pick_sticky_account m model now).2 = with_index m i.
Proof.
  unfold pick_sticky_account.
  pose proof (sticky_state m model now) as Hm1.
  destruct (get_current_sticky_account m model now) as [[sticky |] m1];
    cbn [snd] in *.
  - by eexists.
  - destruct (should_wait_for_current_account m1 model now) as [[b w] acc].
    destruct (b && _); cbn [snd]; [by eexists |].
    destruct (pick_next_state m1 model now) as [i Hi].
    destruct (pick_next m1 model now) as [next m2]. cbn [snd] in *.
    exists i. rewrite Hi, Hm1. reflexivity.
Qed.

Lemma pick_next_Some_elem m model now r m' :
  pick_next m model now = (Some r, m') -> r ∈ get_accounts (_authenticator m).
Proof.
  unfold pick_next.
  destruct (get_accounts (_authenticator m)) as [| a0 rest] eqn:Hacc; [done |].
  rewrite <- Hacc.
  destruct (pick_next_loop _ _ _ _ _ _) as [[r' idx] |] eqn:Hloop; [| done].
  intros [= <- _].
  assert (Hne : get_accounts (_authenticator m) <> []) by (by rewrite Hacc).
  destruct (pick_next_loop_Some _ _ _ _ _ _ _ _ Hne Hloop) as (_ & Hr & _).
  by eapply list_elem_of_lookup_2.
Qed.

Lemma sticky_Some_elem m model now r m1 :
  get_current_sticky_account m model now = (Some r, m1) ->
  r ∈ get_accounts (_authenticator m).
Proof.
  unfold get_current_sticky_account.
  destruct (get_accounts (_authenticator m)) as [| a0 rest] eqn:Hacc; [done |].
  rewrite <- Hacc.
  set (m0 := if (length (get_accounts (_authenticator m)) <=? _current_index m)%nat
             then with_index m 0%nat else m).
  assert (Hlt : (_current_index m0 < length (get_accounts (_authenticator m)))%nat).
  { unfold m0. destruct (Nat.leb_spec (length (get_accounts (_authenticator m)))
                           (_current_index m)); [| done].
    rewrite Hacc. simpl. lia. }
  destruct (lookup_lt_is_Some_2 _ _ Hlt) as [a Ha].
  unfold ref in *. rewrite Ha. cbn [from_option]. unfold Datatypes.id.
  destruct (usable m0 model now a); [| done].
  intros [= <- _]. by eapply list_elem_of_lookup_2.
Qed.

Lemma pick_sticky_Some_elem m model now r w m' :
  pick_sticky_account m model now = (Some r, w, m') ->
  r ∈ get_accounts (_authenticator m).
Proof.
  unfold pick_sticky_account.
  destruct (get_current_sticky_account m model now) as [[sticky |] m1] eqn:Hst.
  - intros [= <- _ _]. by eapply sticky_Some_elem.
  - pose proof (sticky_state m model now) as Hm1. rewrite Hst in Hm1.
    cbn [snd] in Hm1.
    destruct (should_wait_for_current_account m1 model now) as [[b w'] acc].
    destruct (b && _); [done |].
    destruct (pick_next m1 model now) as [next m2] eqn:Hpn.
    intros [= -> _ _]. apply pick_next_Some_elem in Hpn. by rewrite Hm1 in Hpn.
Qed.

Lemma usable_not_invalid m model now r :
  usable m model now r = true ->
  _is_account_invalid (deref (heap (_authenticator m)) r) = false.
Proof.
  unfold usable. intros Hu. apply andb_true_iff in Hu as [_ Hu].
  by apply negb_true_iff in Hu.
Qed.

(** What [completion] holds once an attempt has chosen: the pool is the one
    it started with, the ledger has only lost entries, and the outcome is
    justified by the state. *)
Lemma select_account_spec m model c sel m' :
  Dispatch.select_account m model c = (sel, m') ->
  _authenticator m' = _authenticator m
  /\ (forall key limit, _rate_limits m' !! key = Some limit ->
        _rate_limits m !! key = Some limit)
  /\ match sel with
     | Dispatch.Use r =>
         r ∈ get_accounts (_authenticator m)
         /\ exists t, In t [Dispatch.t_pick_sticky c; Dispatch.t_sticky c;
                            Dispatch.t_pick_next c]
                      /\ usable m' (Some model) t r = true
     | Dispatch.QuotaExhausted w =>
         120000 < w
         /\ w = get_min_wait_time_ms m' (Some model) (Dispatch.t_min_wait c)
         /\ is_all_rate_limited m' (Some model) (Dispatch.t_all_limited c) = true
     | Dispatch.Fallback f => Models.get_fallback_model model = Some f
     | Dispatch.NoAccounts => Models.get_fallback_model model = None
     end.
Proof.
  assert (Hno : forall m0 sel0 m0',
             Dispatch.no_account model m0 = (sel0, m0') ->
             m0' = m0
             /\ match sel0 with
                | Dispatch.Fallback f => Models.get_fallback_model model = Some f
                | Dispatch.NoAccounts => Models.get_fallback_model model = None
                | _ => False
                end).
  { intros m0 sel0 m0'. unfold Dispatch.no_account.
    destruct (Models.get_fallback_model model) as [f |] eqn:Hf.
    - destruct (String.eqb_spec f "") as [-> | Hne].
      + apply get_fallback_model_In in Hf. simpl in Hf.
        repeat (destruct Hf as [Hf' | Hf]; [discriminate Hf' |]). done.
      + by intros [= <- <-].
    - by intros [= <- <-]. }
  unfold Dispatch.select_account.
  destruct (pick_sticky_account m (Some model) (Dispatch.t_pick_sticky c))
    as [[account wait_ms] m1] eqn:Hps.
  destruct (pick_sticky_state m (Some model) (Dispatch.t_pick_sticky c)) as [i1 Hm1].
  rewrite Hps in Hm1. cbn [snd] in Hm1. subst m1.
  destruct account as [a |].
  { intros [= <- <-]. split; [done | split; [done |]]. split.
    - by eapply pick_sticky_Some_elem.
    - exists (Dispatch.t_pick_sticky c). split; [by left |].
      rewrite usable_with_index. by eapply pick_sticky_Some_usable. }
  assert (Hstage2 : exists account2 i2 limits2,
             (if (0 <? wait_ms) && (wait_ms <=? MAX_WAIT_BEFORE_ERROR_MS)
              then get_current_sticky_account
                     (clear_expired_limits (with_index m i1) (Dispatch.t_sweep1 c)).2
                     (Some model) (Dispatch.t_sticky c)
              else (None, with_index m i1))
             = (account2, mkAccountManager (_authenticator m) i2 limits2)
             /\ (forall key limit, limits2 !! key = Some limit ->
                   _rate_limits m !! key = Some limit)
             /\ forall r, account2 = Some r ->
                  r ∈ get_accounts (_authenticator m)
                  /\ usable (mkAccountManager (_authenticator m) i2 limits2)
                       (Some model) (Dispatch.t_sticky c) r = true).
  { destruct ((0 <? wait_ms) && (wait_ms <=? MAX_WAIT_BEFORE_ERROR_MS)).
    - cbn [clear_expired_limits snd].
      set (ms := with_rate_limits (with_index m i1) _).
      pose proof (sticky_state ms (Some model) (Dispatch.t_sticky c)) as Hst.
      destruct (get_current_sticky_account ms (Some model) (Dispatch.t_sticky c))
        as [account2 m2] eqn:Hsticky.
      cbn [snd] in Hst. exists account2, (_current_index m2), (_rate_limits ms).
      split; [by rewrite Hst at 1 |]. split.
      + intros key limit Hl. unfold ms in Hl. cbn [_rate_limits with_rate_limits] in Hl.
        by apply sweep_lookup in Hl as [Hl _].
      + intros r ->. split.
        * by apply sticky_Some_elem in Hsticky.
        * by apply sticky_Some_usable in Hsticky.
    - exists None, i1, (_rate_limits m). by destruct m. }
  destruct Hstage2 as (account2 & i2 & limits2 & -> & Hsub2 & Hacc2).
  set (m2 := mkAccountManager (_authenticator m) i2 limits2) in *.
  destruct account2 as [a |].
  { intros [= <- <-]. split; [done | split; [done |]].
    destruct (Hacc2 a eq_refl) as [Hin Hu]. split; [done |].
    exists (Dispatch.t_sticky c). split; [right; by left | done]. }
  destruct (is_all_rate_limited m2 (Some model) (Dispatch.t_all_limited c)) eqn:Hall.
  - destruct (Z.gtb_spec (get_min_wait_time_ms m2 (Some model) (Dispatch.t_min_wait c))
                MAX_WAIT_BEFORE_ERROR_MS) as [Hgt | Hle].
    + intros [= <- <-]. split; [done | split; [done |]]. done.
    + cbn [clear_expired_limits snd].
      set (m3 := with_rate_limits m2 _).
      destruct (pick_next_state m3 (Some model) (Dispatch.t_pick_next c)) as [i4 Hm4].
      destruct (pick_next m3 (Some model) (Dispatch.t_pick_next c))
        as [[a |] m4] eqn:Hpn; cbn [snd] in Hm4; subst m4.
      * intros [= <- <-]. split; [done | split].
        -- intros key limit Hl. apply Hsub2.
           cbn [_rate_limits with_index m3 with_rate_limits] in Hl.
           by apply sweep_lookup in Hl as [Hl _].
        -- split; [by apply pick_next_Some_elem in Hpn |].
           exists (Dispatch.t_pick_next c). split; [right; right; by left |].
           rewrite usable_with_index. by apply pick_next_Some_usable in Hpn.
      * intros Hres. apply Hno in Hres as [-> Hsel].
        split; [done | split].
        -- intros key limit Hl. apply Hsub2.
           cbn [_rate_limits with_index m3 with_rate_limits] in Hl.
           by apply sweep_lookup in Hl as [Hl _].
        -- by destruct sel.
  - intros Hres. apply Hno in Hres as [-> Hsel].
    split; [done | split; [done |]]. by destruct sel.
Qed.

(** X18. One attempt of [completion] is sound.  It leaves the pool alone and
    only removes ledger entries.  An account it settles on belongs to the pool
    and was neither rate-limited nor invalid when it was chosen; quota
    exhaustion is raised only for a minimum wait above 120_000 ms; the attempt
    restarts with the fallback model exactly as the table says; and it ends in
    [AntigravityNoAccountsError] only for a model that has no fallback, that
    is, a model outside the supported list. *)
Theorem X18_select_account_sound (m : AccountManager) (model : string)
    (c : Dispatch.Clocks) :
  let res := Dispatch.select_account m model c in
  _authenticator res.2 = _authenticator m
  /\ (forall key limit, _rate_limits res.2 !! key = Some limit ->
        _rate_limits m !! key = Some limit)
  /\ (forall r, res.1 = Dispatch.Use r ->
        r ∈ get_accounts (_authenticator m)
        /\ _is_account_invalid (deref (heap (_authenticator m)) r) = false
        /\ exists t, In t [Dispatch.t_pick_sticky c; Dispatch.t_sticky c;
                           Dispatch.t_pick_next c]
                     /\ _is_account_rate_limited res.2
                          (deref (heap (_authenticator m)) r) (Some model) t = false)
  /\ (forall w, res.1 = Dispatch.QuotaExhausted w -> 120000 < w)
  /\ (forall f, res.1 = Dispatch.Fallback f ->
        Models.get_fallback_model model = Some f)
  /\ (res.1 = Dispatch.NoAccounts -> ~ In model Models.ANTIGRAVITY_MODELS).
Proof.
  intros res.
  destruct (Dispatch.select_account m model c) as [sel m'] eqn:Hsel.
  apply select_account_spec in Hsel as (Hauth & Hsub & Hout).
  subst res. cbn [fst snd].
  split; [done | split; [done |]].
  split; [| split; [| split]].
  - intros r ->. destruct Hout as (Hin & t & Ht & Hu). split; [done |].
    pose proof (usable_not_invalid _ _ _ _ Hu) as Hinv. rewrite Hauth in Hinv.
    split; [done |]. exists t. split; [done |].
    unfold usable in Hu. apply andb_true_iff in Hu as [Hu _].
    apply negb_true_iff in Hu. by rewrite Hauth in Hu.
  - intros w ->. by destruct Hout.
  - by intros f ->.
  - intros -> Hin. apply supported_has_fallback in Hin as [f Hf]. congruence.
Qed.

Lemma min_wait_bounded m model now bound :
  0 <= bound ->
  (forall key limit, _rate_limits m !! key = Some limit ->
     (reset_time limit - now <= inject_Z bound)%Q) ->
  get_min_wait_time_ms m model now <= bound.
Proof.
  intros Hb Hall. unfold get_min_wait_time_ms.
  destruct (fold_left _ _ None) as [w |] eqn:Hfold; [| done].
  apply fold_min_wait_attained in Hfold as [Hnone | (k & lim & Hin & [_ Hc] & ->)];
    [done |].
  simpl in Hc. apply elem_of_map_to_list in Hin.
  destruct (int_bounds (reset_time lim - now) ltac:(lra)) as (_ & Hle & _).
  pose proof (Hall k lim Hin) as Hk.
  rewrite Zle_Qle. lra.
Qed.

(** With every account of the pool invalid (or no account at all) and no
    ledger entry more than 120 s ahead of the clock, an attempt ends in the
    restart with the fallback model. *)
Lemma select_account_all_invalid m model c f :
  (forall r, r ∈ get_accounts (_authenticator m) ->
     _is_account_invalid (deref (heap (_authenticator m)) r) = true) ->
  (forall key limit, _rate_limits m !! key = Some limit ->
     (reset_time limit - Dispatch.t_min_wait c <= 120000)%Q) ->
  Models.get_fallback_model model = Some f ->
  (Dispatch.select_account m model c).1 = Dispatch.Fallback f.
Proof.
  intros Hinv Hledger Hf.
  destruct (Dispatch.select_account m model c) as [sel m'] eqn:Hsel.
  apply select_account_spec in Hsel as (Hauth & Hsub & Hout). cbn [fst].
  destruct sel as [r | w | f' | ].
  - destruct Hout as (Hin & t & _ & Hu).
    apply usable_not_invalid in Hu. rewrite Hauth, (Hinv r Hin) in Hu. done.
  - destruct Hout as (Hgt & -> & _).
    pose proof (min_wait_bounded m' (Some model) (Dispatch.t_min_wait c) 120000
                  ltac:(lia)) as Hle.
    specialize (Hle ltac:(intros key limit Hl; apply (Hledger key), Hsub, Hl)).
    lia.
  - congruence.
  - congruence.
Qed.

(** X19. Without a valid account [completion] does not end by itself.  When
    every account of the pool is marked invalid, or the pool is empty, and no
    ledger entry lies more than 120 s ahead of the clock, a call for a
    supported model raises neither [AntigravityNoAccountsError] nor
    [AntigravityQuotaExhaustedError]: every round restarts [completion] with
    the fallback model, whatever the number of rounds. *)
Theorem X19_completion_restarts_forever_without_valid_account
    (m : AccountManager) (model : string) (clocks : nat -> Dispatch.Clocks)
    (fuel : nat) :
  (forall r, r ∈ get_accounts (_authenticator m) ->
     _is_account_invalid (deref (heap (_authenticator m)) r) = true) ->
  (forall key limit n, _rate_limits m !! key = Some limit ->
     (reset_time limit - Dispatch.t_min_wait (clocks n) <= 120000)%Q) ->
  In model Models.ANTIGRAVITY_MODELS ->
  Dispatch.select_with_fallback fuel m model clocks = None.
Proof.
  revert m model. induction fuel as [| fuel IH]; intros m model Hinv Hledger Hin;
    [done |].
  cbn [Dispatch.select_with_fallback].
  destruct (supported_has_fallback model Hin) as [f Hf].
  pose proof (select_account_all_invalid m model (clocks fuel) f Hinv
                ltac:(intros key limit Hl; by apply (Hledger key)) Hf) as Hfb.
  destruct (Dispatch.select_account m model (clocks fuel)) as [sel m'] eqn:Hsel.
  cbn [fst] in Hfb. subst sel.
  apply select_account_spec in Hsel as (Hauth & Hsub & _).
  apply IH.
  - rewrite Hauth. exact Hinv.
  - intros key limit n Hl. apply (Hledger key). by apply Hsub.
  - apply get_fallback_model_In in Hf. simpl in Hf.
    repeat (destruct Hf as [[= <- <-] | Hf]; [simpl; tauto |]). done.
Qed.

Lemma X19_witness :
  Dispatch.select_with_fallback 1000
    (mark_invalid (mark_invalid Samples.two_accounts "a@x" "Auth error")
       "b@x" "Auth error")
    "gemini-3-flash"
    (fun n =>
       let t := inject_Z (Z.of_nat n) in Dispatch.mkClocks t t t t t t t)
  = None.
Proof.
  apply X19_completion_restarts_forever_without_valid_account.
  - intros r Hr. apply list_elem_of_In in Hr. simpl in Hr.
    destruct Hr as [<- | [<- | []]]; reflexivity.
  - intros key limit n Hl. done.
  - simpl. tauto.
Defined.


(** ** Model names *)

Lemma lower_idem s : PyStr.lower (PyStr.lower s) = PyStr.lower s.
Proof.
  induction s as [| c s IH]; [done |]. cbn [PyStr.lower].
  by rewrite lower_char_idem, IH.
Qed.

Lemma lower_app s t : PyStr.lower (s +:+ t) = PyStr.lower s +:+ PyStr.lower t.
Proof.
  induction s as [| c s IH]; [done |].
  rewrite append_cons. cbn [PyStr.lower]. by rewrite append_cons, IH.
Qed.

Lemma lower_all_digits s : Texts.all_digits s = true -> PyStr.lower s = s.
Proof.
  induction s as [| c s IH]; [done |]. cbn [Texts.all_digits PyStr.lower].
  intros H. apply andb_true_iff in H as [Hc Hs].
  by rewrite (lower_char_digit c Hc), (IH Hs).
Qed.

Lemma span_digits_number ds rest :
  Texts.all_digits ds = true ->
  Texts.no_leading_digit rest = true ->
  Re.span_digits (ds +:+ rest) = (ds, rest).
Proof.
  intros Hds Hrest. induction ds as [| c ds IH].
  - rewrite append_empty_l. destruct rest as [| d rest]; [done |].
    cbn [Re.span_digits]. simpl in Hrest. apply negb_true_iff in Hrest.
    by rewrite Hrest.
  - rewrite append_cons. cbn [Re.span_digits Texts.all_digits] in *.
    apply andb_true_iff in Hds as [Hc Hds]. by rewrite Hc, (IH Hds).
Qed.

(** The capture group takes a whole number that a non-digit follows. *)
Lemma match_here_number ic toks ds rest :
  Texts.number ds = true ->
  Texts.no_leading_digit rest = true ->
  Re.match_here ic (Re.Digits :: toks) (ds +:+ rest)
  = option_map (cons ds) (Re.match_here ic toks rest).
Proof.
  intros Hds Hrest. apply andb_true_iff in Hds as [Hne Hds].
  cbn [Re.match_here]. rewrite (span_digits_number _ _ Hds Hrest).
  destruct ds; [done | done].
Qed.

(** A literal start of the pattern consumes the same literal of the text. *)
Lemma match_here_lits ic lit toks rest :
  Re.match_here ic (map Re.Lit (list_ascii_of_string lit) ++ toks) (lit +:+ rest)
  = Re.match_here ic toks rest.
Proof.
  induction lit as [| c lit IH]; [done |].
  rewrite append_cons. cbn [list_ascii_of_string map app Re.match_here].
  rewrite !Ascii.eqb_refl. by destruct ic.
Qed.

Lemma search_gemini_version ds rest :
  Texts.number ds = true ->
  Texts.no_leading_digit rest = true ->
  Re.search "gemini[.-]?(\d+)" ("gemini-" +:+ ds +:+ rest) false = Some [ds].
Proof.
  intros Hds Hrest. unfold Re.search.
  change (Re.compile "gemini[.-]?(\d+)")
    with (map Re.Lit (list_ascii_of_string "gemini")
          ++ [Re.OptDotDash; Re.Digits]).
  change ("gemini-" +:+ ds +:+ rest) with ("gemini" +:+ String "-" (ds +:+ rest)).
  assert (Hm : Re.match_here false
                 (map Re.Lit (list_ascii_of_string "gemini")
                  ++ [Re.OptDotDash; Re.Digits])
                 ("gemini" +:+ String "-" (ds +:+ rest))
               = Some [ds]).
  { rewrite match_here_lits.
    change (Re.match_here false [Re.OptDotDash; Re.Digits] (String "-" (ds +:+ rest)))
      with (match Re.match_here false [Re.Digits] (ds +:+ rest) with
            | Some g => Some g
            | None => Re.match_here false [Re.Digits] (String "-" (ds +:+ rest))
            end).
    by rewrite (match_here_number _ _ _ _ Hds Hrest). }
  change ("gemini" +:+ String "-" (ds +:+ rest))
    with (String "g" ("emini" +:+ String "-" (ds +:+ rest))) in *.
  cbn [Re.search_toks]. by rewrite Hm.
Qed.

(** X20. Model names are classified without regard to letter case, and a
    thinking model always belongs to a known family.  A name that contains
    ["thinking"] is a thinking model exactly when its family is known.  A name
    ["gemini-<N><rest>"] with a decimal number [N] is a thinking model exactly
    when it contains ["thinking"] or [N >= 3]. *)
Theorem X20_family_and_thinking (name : string) :
  get_model_family (PyStr.lower name) = get_model_family name
  /\ is_thinking_model (PyStr.lower name) = is_thinking_model name
  /\ (is_thinking_model name = true -> get_model_family name <> unknown)
  /\ (PyStr.contains "thinking" (PyStr.lower name) = true ->
      is_thinking_model name = negb (family_eqb (get_model_family name) unknown))
  /\ (forall ds rest,
        Texts.number ds = true ->
        Texts.no_leading_digit rest = true ->
        name = "gemini-" +:+ ds +:+ rest ->
        get_model_family name <> unknown
        /\ is_thinking_model name
           = PyStr.contains "thinking" (PyStr.lower name) || (3 <=? PyStr.int ds)).
Proof.
  split; [| split; [| split; [| split]]].
  - unfold get_model_family. by rewrite lower_idem.
  - unfold is_thinking_model. by rewrite lower_idem.
  - unfold is_thinking_model, get_model_family.
    destruct (PyStr.contains "claude" _); [done |].
    destruct (PyStr.contains "gemini" _); done.
  - intros Hth. unfold is_thinking_model, get_model_family. rewrite Hth.
    destruct (PyStr.contains "claude" _); [done |].
    destruct (PyStr.contains "gemini" _); done.
  - intros ds rest Hds Hrest ->.
    assert (Hdig : Texts.all_digits ds = true)
      by (by apply andb_true_iff in Hds as [_ ?]).
    assert (Hlow : PyStr.lower ("gemini-" +:+ ds +:+ rest)
                   = "gemini-" +:+ ds +:+ PyStr.lower rest).
    { by rewrite !lower_app, (lower_all_digits ds Hdig). }
    assert (Hrest' : Texts.no_leading_digit (PyStr.lower rest) = true).
    { destruct rest as [| c rest]; [done |]. simpl in *.
      by rewrite is_digit_lower_char. }
    assert (Hgem : PyStr.contains "gemini" ("gemini-" +:+ ds +:+ PyStr.lower rest)
                   = true).
    { by rewrite !append_cons. }
    unfold is_thinking_model, get_model_family. rewrite Hlow, Hgem.
    split; [by destruct (PyStr.contains "claude" _) |].
    destruct (PyStr.contains "thinking" _).
    + by rewrite andb_true_r; destruct (PyStr.contains "claude" _).
    + rewrite andb_false_r.
      by rewrite (search_gemini_version ds _ Hds Hrest').
Qed.


(** ** Reset-time parsing: the six forms *)

Lemma digit_value_nonneg c : PyStr.is_digit c = true -> 0 <= PyStr.digit_value c <= 9.
Proof.
  unfold PyStr.is_digit, PyStr.digit_value. intros H.
  apply andb_true_iff in H as [H1 H2].
  apply N.leb_le in H1, H2. lia.
Qed.

Lemma int_nonneg s : Texts.all_digits s = true -> 0 <= PyStr.int s.
Proof.
  unfold PyStr.int. intros Hs.
  assert (Hgen : forall acc, 0 <= acc ->
            0 <= fold_left (fun acc c => 10 * acc + PyStr.digit_value c)
                   (list_ascii_of_string s) acc).
  { induction s as [| c s IH]; intros a Ha; [done |].
    cbn [list_ascii_of_string fold_left Texts.all_digits] in *.
    apply andb_true_iff in Hs as [Hc Hs].
    apply IH; [done |]. pose proof (digit_value_nonneg c Hc). lia. }
  apply Hgen. lia.
Qed.

Lemma span_digits_all_digits s : Texts.all_digits (Re.span_digits s).1 = true.
Proof.
  induction s as [| c s IH]; [done |]. cbn [Re.span_digits].
  destruct (PyStr.is_digit c) eqn:Hc; [| done].
  destruct (Re.span_digits s) as [ds rest]. cbn [fst Texts.all_digits] in *.
  by rewrite Hc, IH.
Qed.

(** Every captured group is a run of digits. *)
Lemma match_here_groups ic toks s g :
  Re.match_here ic toks s = Some g ->
  Forall (fun x => Texts.all_digits x = true) g.
Proof.
  revert s g. induction toks as [| t toks IH]; intros s g.
  - intros [= <-]. constructor.
  - destruct t as [c | |]; cbn [Re.match_here].
    + destruct s as [| d s]; [done |].
      destruct (if ic then _ else _); [apply IH | done].
    + pose proof (span_digits_all_digits s) as Hds.
      destruct (Re.span_digits s) as [ds rest]. cbn [fst] in Hds.
      destruct ds as [| c ds]; [done |].
      destruct (Re.match_here ic toks rest) as [g' |] eqn:Hm; [| done].
      intros [= <-]. constructor; [done | by eapply IH].
    + destruct s as [| d s]; [apply IH |].
      destruct (Re.is_dot_dash d); [| apply IH].
      destruct (Re.match_here ic toks s) as [g' |] eqn:Hm; [| apply IH].
      intros [= <-]. by eapply IH.
Qed.

Lemma search_toks_groups ic toks s g :
  Re.search_toks ic toks s = Some g ->
  Forall (fun x => Texts.all_digits x = true) g.
Proof.
  induction s as [| c s IH]; cbn [Re.search_toks];
    destruct (Re.match_here ic toks _) as [g' |] eqn:Hm;
    try (intros [= <-]; by eapply match_here_groups); done.
Qed.

Lemma group_nonneg groups i :
  Forall (fun x => Texts.all_digits x = true) groups -> 0 <= group groups i.
Proof.
  intros Hall. unfold group. apply int_nonneg.
  destruct (nth_in_or_default i groups "") as [Hin | ->]; [| done].
  rewrite Forall_forall in Hall. apply Hall. by apply list_elem_of_In.
Qed.

Lemma reset_ms_of_whole_seconds pattern groups :
  Forall (fun x => Texts.all_digits x = true) groups ->
  exists seconds, 0 <= seconds /\ reset_ms_of pattern groups = 1000 * seconds.
Proof.
  intros Hall.
  pose proof (group_nonneg groups 0 Hall).
  pose proof (group_nonneg groups 1 Hall).
  pose proof (group_nonneg groups 2 Hall).
  unfold reset_ms_of.
  destruct (length groups =? 3)%nat.
  { exists (group groups 0 * 3600 + group groups 1 * 60 + group groups 2). lia. }
  destruct (length groups =? 2)%nat.
  { destruct (_ && _).
    - exists (group groups 0 * 3600 + group groups 1 * 60). lia.
    - exists (group groups 0 * 60 + group groups 1). lia. }
  destruct (PyStr.contains "h" pattern).
  { exists (group groups 0 * 3600). lia. }
  destruct (PyStr.contains "m" pattern).
  { exists (group groups 0 * 60). lia. }
  exists (group groups 0). lia.
Qed.

Lemma match_here_lit1 ic c toks rest :
  Re.match_here ic (Re.Lit c :: toks) (String c EmptyString +:+ rest)
  = Re.match_here ic toks rest.
Proof. apply (match_here_lits ic (String c EmptyString) toks rest). Qed.

Lemma free_of_app c s t :
  Texts.free_of c (s +:+ t) = Texts.free_of c s && Texts.free_of c t.
Proof.
  induction s as [| d s IH]; [done |].
  rewrite append_cons. cbn [Texts.free_of]. by rewrite IH, andb_assoc.
Qed.

Lemma free_of_r_digits s : Texts.all_digits s = true -> Texts.free_of "r" s = true.
Proof.
  induction s as [| d s IH]; [done |]. cbn [Texts.all_digits Texts.free_of].
  intros H. apply andb_true_iff in H as [Hd Hs]. rewrite (IH Hs), andb_true_r.
  destruct d as [[] [] [] [] [] [] [] []]; done.
Qed.

Lemma free_of_r_number s : Texts.number s = true -> Texts.free_of "r" s = true.
Proof.
  intros H. apply andb_true_iff in H as [_ H]. by apply free_of_r_digits.
Qed.

(** A pattern that begins with [c] matches nowhere in a text free of [c]. *)
Lemma search_toks_free c toks s :
  Texts.free_of c s = true ->
  Re.search_toks true (Re.Lit c :: toks) s = None.
Proof.
  induction s as [| d s IH]; [done |]. cbn [Texts.free_of].
  intros H. apply andb_true_iff in H as [Hd Hs]. apply negb_true_iff in Hd.
  cbn [Re.search_toks Re.match_here]. rewrite Hd. by apply IH.
Qed.

(** In a text that begins with ["reset after "] and has no further [r], a
    pattern that begins with ["reset after "] can only match at the start. *)
Lemma search_reset_after_at_start toks body :
  Texts.free_of "r" body = true ->
  Re.search_toks true (Re.compile "reset after " ++ toks) ("reset after " +:+ body)
  = Re.match_here true toks body.
Proof.
  intros Hfree.
  assert (Hm : Re.match_here true (Re.compile "reset after " ++ toks)
                 ("reset after " +:+ body)
               = Re.match_here true toks body)
    by apply (match_here_lits true "reset after " toks body).
  change ("reset after " +:+ body) with (String "r" ("eset after " +:+ body)) in *.
  cbn [Re.search_toks]. rewrite Hm.
  destruct (Re.match_here true toks body) as [g |]; [done |].
  rewrite (search_toks_skip "reset after " toks "eset after " body);
    [| vm_compute; reflexivity | reflexivity].
  by apply search_toks_free.
Qed.

Lemma search_reset_after_pattern pattern toks body :
  Re.compile pattern = (Re.compile "reset after " ++ toks)%list ->
  Texts.free_of "r" body = true ->
  Re.search pattern ("reset after " +:+ body) true = Re.match_here true toks body.
Proof.
  intros Hpat Hfree. unfold Re.search. rewrite Hpat.
  by apply search_reset_after_at_start.
Qed.

Ltac free_of_r :=
  rewrite ?free_of_app;
  repeat match goal with
         | H : Texts.number ?s = true |- context [Texts.free_of "r" ?s] =>
             rewrite (free_of_r_number s H)
         end;
  reflexivity.

Ltac match_numbers :=
  repeat first
    [ rewrite match_here_lit1
    | match goal with
      | H : Texts.number ?ds = true
        |- context [Re.match_here _ (Re.Digits :: _) (?ds +:+ ?rest)] =>
          rewrite (match_here_number true _ ds rest H eq_refl)
      end ].

(** X21. The reset time that [parse_reset_time_from_error] reads.  A result is
    never negative and is a whole number of seconds.  For decimal numbers [h],
    [m] and [s] the six forms give: ["reset after <h>h<m>m<s>s"], whatever
    follows it, [h*3_600_000 + m*60_000 + s*1000]; and the texts
    ["reset after <h>h<m>m"], ["reset after <h>h"], ["reset after <m>m<s>s"],
    ["reset after <m>m"] and ["reset after <s>s"] the corresponding sums. *)
Theorem X21_parse_reset_time_forms :
  (forall error_text ms,
      parse_reset_time_from_error error_text = Some ms ->
      exists seconds, 0 <= seconds /\ ms = 1000 * seconds)
  /\ (forall h m s post,
        Texts.number h = true -> Texts.number m = true -> Texts.number s = true ->
        parse_reset_time_from_error
          ("reset after " +:+ h +:+ "h" +:+ m +:+ "m" +:+ s +:+ "s" +:+ post)
        = Some (PyStr.int h * 3600000 + PyStr.int m * 60000 + PyStr.int s * 1000))
  /\ (forall h m,
        Texts.number h = true -> Texts.number m = true ->
        parse_reset_time_from_error ("reset after " +:+ h +:+ "h" +:+ m +:+ "m")
        = Some (PyStr.int h * 3600000 + PyStr.int m * 60000))
  /\ (forall h,
        Texts.number h = true ->
        parse_reset_time_from_error ("reset after " +:+ h +:+ "h")
        = Some (PyStr.int h * 3600000))
  /\ (forall m s,
        Texts.number m = true -> Texts.number s = true ->
        parse_reset_time_from_error ("reset after " +:+ m +:+ "m" +:+ s +:+ "s")
        = Some (PyStr.int m * 60000 + PyStr.int s * 1000))
  /\ (forall m,
        Texts.number m = true ->
        parse_reset_time_from_error ("reset after " +:+ m +:+ "m")
        = Some (PyStr.int m * 60000))
  /\ (forall s,
        Texts.number s = true ->
        parse_reset_time_from_error ("reset after " +:+ s +:+ "s")
        = Some (PyStr.int s * 1000)).
Proof.
  split; [| split; [| split; [| split; [| split; [| split]]]]].
  - intros text ms. unfold parse_reset_time_from_error.
    induction patterns as [| p ps IH]; [done |]. cbn [parse_loop].
    destruct (Re.search p text true) as [g |] eqn:Hs; [| exact IH].
    intros [= <-]. apply reset_ms_of_whole_seconds.
    by eapply search_toks_groups.
  - intros h m s post Hh Hm Hs.
    unfold parse_reset_time_from_error, patterns. cbn [parse_loop].
    unfold Re.search.
    change (Re.compile "reset after (\d+)h(\d+)m(\d+)s")
      with (map Re.Lit (list_ascii_of_string "reset after ")
            ++ [Re.Digits; Re.Lit "h"; Re.Digits; Re.Lit "m"; Re.Digits; Re.Lit "s"])%list.
    assert (Hmatch : Re.match_here true
                       (map Re.Lit (list_ascii_of_string "reset after ")
                        ++ [Re.Digits; Re.Lit "h"; Re.Digits; Re.Lit "m";
                            Re.Digits; Re.Lit "s"])%list
                       ("reset after " +:+ h +:+ "h" +:+ m +:+ "m" +:+ s +:+ "s" +:+ post)
                     = Some [h; m; s]).
    { rewrite match_here_lits. match_numbers. reflexivity. }
    change ("reset after " +:+ h +:+ "h" +:+ m +:+ "m" +:+ s +:+ "s" +:+ post)
      with (String "r" ("eset after " +:+ h +:+ "h" +:+ m +:+ "m" +:+ s +:+ "s" +:+ post))
      in *.
    cbn [Re.search_toks]. rewrite Hmatch. reflexivity.
  - intros h m Hh Hm.
    unfold parse_reset_time_from_error, patterns. cbn [parse_loop].
    rewrite (search_reset_after_pattern "reset after (\d+)h(\d+)m(\d+)s"
               [Re.Digits; Re.Lit "h"; Re.Digits; Re.Lit "m"; Re.Digits; Re.Lit "s"]
               _ eq_refl) by free_of_r.
    match_numbers.
    rewrite (search_reset_after_pattern "reset after (\d+)h(\d+)m"
               [Re.Digits; Re.Lit "h"; Re.Digits; Re.Lit "m"] _ eq_refl)
      by free_of_r.
    match_numbers. reflexivity.
  - intros h Hh.
    unfold parse_reset_time_from_error, patterns. cbn [parse_loop].
    rewrite (search_reset_after_pattern "reset after (\d+)h(\d+)m(\d+)s"
               [Re.Digits; Re.Lit "h"; Re.Digits; Re.Lit "m"; Re.Digits; Re.Lit "s"]
               _ eq_refl) by free_of_r.
    match_numbers.
    rewrite (search_reset_after_pattern "reset after (\d+)h(\d+)m"
               [Re.Digits; Re.Lit "h"; Re.Digits; Re.Lit "m"] _ eq_refl)
      by free_of_r.
    match_numbers.
    rewrite (search_reset_after_pattern "reset after (\d+)h"
               [Re.Digits; Re.Lit "h"] _ eq_refl) by free_of_r.
    match_numbers. reflexivity.
  - intros m s Hm Hs.
    unfold parse_reset_time_from_error, patterns. cbn [parse_loop].
    rewrite (search_reset_after_pattern "reset after (\d+)h(\d+)m(\d+)s"
               [Re.Digits; Re.Lit "h"; Re.Digits; Re.Lit "m"; Re.Digits; Re.Lit "s"]
               _ eq_refl) by free_of_r.
    match_numbers.
    rewrite (search_reset_after_pattern "reset after (\d+)h(\d+)m"
               [Re.Digits; Re.Lit "h"; Re.Digits; Re.Lit "m"] _ eq_refl)
      by free_of_r.
    match_numbers.
    rewrite (search_reset_after_pattern "reset after (\d+)h"
               [Re.Digits; Re.Lit "h"] _ eq_refl) by free_of_r.
    match_numbers.
    rewrite (search_reset_after_pattern "reset after (\d+)m(\d+)s"
               [Re.Digits; Re.Lit "m"; Re.Digits; Re.Lit "s"] _ eq_refl)
      by free_of_r.
    match_numbers. reflexivity.
  - intros m Hm.
    unfold parse_reset_time_from_error, patterns. cbn [parse_loop].
    rewrite (search_reset_after_pattern "reset after (\d+)h(\d+)m(\d+)s"
               [Re.Digits; Re.Lit "h"; Re.Digits; Re.Lit "m"; Re.Digits; Re.Lit "s"]
               _ eq_refl) by free_of_r.
    match_numbers.
    rewrite (search_reset_after_pattern "reset after (\d+)h(\d+)m"
               [Re.Digits; Re.Lit "h"; Re.Digits; Re.Lit "m"] _ eq_refl)
      by free_of_r.
    match_numbers.
    rewrite (search_reset_after_pattern "reset after (\d+)h"
               [Re.Digits; Re.Lit "h"] _ eq_refl) by free_of_r.
    match_numbers.
    rewrite (search_reset_after_pattern "reset after (\d+)m(\d+)s"
               [Re.Digits; Re.Lit "m"; Re.Digits; Re.Lit "s"] _ eq_refl)
      by free_of_r.
    match_numbers.
    rewrite (search_reset_after_pattern "reset after (\d+)m"
               [Re.Digits; Re.Lit "m"] _ eq_refl) by free_of_r.
    match_numbers. reflexivity.
  - intros s Hs.
    unfold parse_reset_time_from_error, patterns. cbn [parse_loop].
    rewrite (search_reset_after_pattern "reset after (\d+)h(\d+)m(\d+)s"
               [Re.Digits; Re.Lit "h"; Re.Digits; Re.Lit "m"; Re.Digits; Re.Lit "s"]
               _ eq_refl) by free_of_r.
    match_numbers.
    rewrite (search_reset_after_pattern "reset after (\d+)h(\d+)m"
               [Re.Digits; Re.Lit "h"; Re.Digits; Re.Lit "m"] _ eq_refl)
      by free_of_r.
    match_numbers.
    rewrite (search_reset_after_pattern "reset after (\d+)h"
               [Re.Digits; Re.Lit "h"] _ eq_refl) by free_of_r.
    match_numbers.
    rewrite (search_reset_after_pattern "reset after (\d+)m(\d+)s"
               [Re.Digits; Re.Lit "m"; Re.Digits; Re.Lit "s"] _ eq_refl)
      by free_of_r.
    match_numbers.
    rewrite (search_reset_after_pattern "reset after (\d+)m"
               [Re.Digits; Re.Lit "m"] _ eq_refl) by free_of_r.
    match_numbers.
    rewrite (search_reset_after_pattern "reset after (\d+)s"
               [Re.Digits; Re.Lit "s"] _ eq_refl) by free_of_r.
    match_numbers. reflexivity.
Qed.


(** ** The reply, part by part *)

Lemma imap_shift {A B} (f : nat -> A -> B) (n : nat) (x : A) (l : list A) :
  imap (fun k => f (n + k)%nat) (x :: l)
  = f n x :: imap (fun k => f (S n + k)%nat) l.
Proof.
  cbn [imap]. rewrite Nat.add_0_r. f_equal.
  apply imap_ext. intros i y _. simpl. f_equal. lia.
Qed.

(** The loop over the parts appends, in order, the block of every part that
    has one and the tool call of every part that has one. *)
Lemma convert_parts_spec token_hex ps blocks calls :
  convert_parts token_hex ps blocks calls
  = (blocks ++ omap Reply.block_of ps,
     calls ++ imap (fun k => Reply.tool_call token_hex (length calls + k))
                (omap Reply.call_of ps)).
Proof.
  revert blocks calls. induction ps as [| part ps IH]; intros blocks calls.
  - simpl. by rewrite !app_nil_r.
  - cbn [convert_parts omap list_omap]. unfold Reply.block_of at 1, Reply.call_of at 1.
    destruct (text part) as [t |].
    + destruct (thought part); rewrite IH; by rewrite <- app_assoc.
    + destruct (functionCall part) as [fc |].
      * rewrite IH. f_equal. rewrite <- app_assoc. f_equal.
        rewrite length_app. cbn [length app].
        rewrite imap_shift. unfold Reply.tool_call at 2. f_equal.
        apply imap_ext. intros i y _. simpl. f_equal. lia.
      * by rewrite IH.
Qed.

(** X22. The finish reason of the converted reply is one of ["stop"],
    ["length"] and ["tool_calls"].  It is ["length"] exactly for the Google
    reason ["MAX_TOKENS"], and ["tool_calls"] exactly when the Google reason is
    neither ["STOP"] nor ["MAX_TOKENS"] and either is ["TOOL_USE"] or the
    message carries tool calls; so a reply that carries function calls and
    whose reason is ["STOP"], or absent, is reported as ["stop"].  A reply
    wrapped under ["response"] converts like the bare body. *)
Theorem X22_finish_reason (token_hex : nat -> string) (now : Z)
    (google_response : GoogleResponse) (model : string) :
  let r := _convert_google_response_to_openai token_hex now google_response model in
  In (finish_reason r) ["stop"; "length"; "tool_calls"]
  /\ (finish_reason r = "length" <-> Reply.reason google_response = "MAX_TOKENS")
  /\ (finish_reason r = "tool_calls"
      <-> Reply.reason google_response <> "STOP"
          /\ Reply.reason google_response <> "MAX_TOKENS"
          /\ (Reply.reason google_response = "TOOL_USE"
              \/ tool_calls (message r) <> None))
  /\ (Reply.reason google_response = "STOP" -> finish_reason r = "stop")
  /\ r = _convert_google_response_to_openai token_hex now
           (Bare (unwrap google_response)) model.
Proof.
  intros r. subst r. unfold _convert_google_response_to_openai, Reply.reason.
  cbn [unwrap].
  destruct (convert_parts _ _ [] []) as [blocks calls].
  cbn [finish_reason message tool_calls].
  set (reason := default "STOP" (head (candidates (unwrap google_response))
                                 ≫= finishReason)).
  destruct (String.eqb_spec reason "STOP") as [Hstop | Hstop].
  { repeat split; simpl; intuition congruence. }
  destruct (String.eqb_spec reason "MAX_TOKENS") as [Hmax | Hmax].
  { repeat split; simpl; intuition congruence. }
  destruct (String.eqb_spec reason "TOOL_USE") as [Htool | Htool].
  { cbn [orb]. repeat split; simpl; intuition congruence. }
  destruct calls as [| c calls]; cbn [length Nat.eqb negb orb];
    repeat split; simpl; intuition congruence.
Qed.

(** X23. What the converted message is made of.  Its tool calls are, in
    order, those of the parts that carry ["functionCall"] and no ["text"]: a
    function call inside a part that also has text is dropped.  Each keeps the
    id, name and arguments it was given, with a fresh ["call_..."] id, the
    empty name and [{}] as defaults.  The key [tool_calls] is absent exactly
    when there is no such part, and the content is the concatenation of the
    text blocks, thinking blocks left out. *)
Theorem X23_message_tool_calls (token_hex : nat -> string) (now : Z)
    (google_response : GoogleResponse) (model : string) :
  let r := _convert_google_response_to_openai token_hex now google_response model in
  let calls := omap Reply.call_of (Reply.first_parts google_response) in
  tool_calls (message r)
  = (if bool_decide (calls = []) then None
     else Some (imap (Reply.tool_call token_hex) calls))
  /\ (forall part fc,
        In part (Reply.first_parts google_response) ->
        text part <> None -> functionCall part = Some fc ->
        Reply.call_of part = None)
  /\ (length calls
      + length (omap Reply.block_of (Reply.first_parts google_response))
      <= length (Reply.first_parts google_response))%nat
  /\ content (message r)
     = (let t := join_text (omap Reply.block_of (Reply.first_parts google_response)) ""
        in if String.eqb t "" then None else Some t).
Proof.
  intros r calls. subst r calls.
  unfold _convert_google_response_to_openai, Reply.first_parts.
  set (ps := match head (candidates (unwrap google_response)) with
             | Some c => parts c
             | None => []
             end).
  rewrite convert_parts_spec. cbn [app length Nat.add message tool_calls content].
  split; [| split; [| split]].
  - destruct (omap Reply.call_of ps) as [| fc fcs]; [done |].
    rewrite bool_decide_eq_false_2 by done. done.
  - intros part fc _ Ht _. unfold Reply.call_of. by destruct (text part).
  - clear. induction ps as [| part ps IH]; [done |].
    cbn [omap list_omap length]. unfold Reply.call_of at 1, Reply.block_of at 1.
    destruct (text part); [simpl; lia |].
    destruct (functionCall part); simpl; lia.
  - done.
Qed.


(** ** The generation config and the tool declarations *)

(** X24. The generation config never invents an output limit: it carries
    [maxOutputTokens] exactly when the request carries [max_tokens].  For a
    model of the Gemini family the limit is the smaller of [max_tokens] and
    16_384.  A thinking config is attached exactly for a thinking model, in
    the Claude form for the Claude family and otherwise in the Gemini form
    with a budget of 16_000 unless the request gives one.  Temperature and
    top-p are passed on as they are. *)
Theorem X24_generation_config (model : string) (optional_params : OptionalParams) :
  let g := build_generation_config model optional_params in
  (maxOutputTokens g = None <-> max_tokens optional_params = None)
  /\ (get_model_family model = gemini ->
      maxOutputTokens g = option_map (Z.min 16384) (max_tokens optional_params))
  /\ (thinkingConfig g = None <-> is_thinking_model model = false)
  /\ (forall t, thinkingConfig g = Some t ->
        match t with
        | ClaudeThinking include_thoughts budget =>
            get_model_family model = claude /\ include_thoughts = true
            /\ (budget = None
                \/ budget = thinking_budget_tokens optional_params)
        | GeminiThinking include_thoughts budget =>
            get_model_family model <> claude /\ include_thoughts = true
            /\ budget = default 16000 (thinking_budget_tokens optional_params)
        end)
  /\ gc_temperature g = temperature optional_params
  /\ topP g = top_p optional_params.
Proof.
  intros g. subst g. unfold build_generation_config.
  destruct (is_thinking_model model) eqn:Hthink;
    destruct (get_model_family model) eqn:Hfam; cbn [family_eqb];
    destruct (max_tokens optional_params) as [m |] eqn:Hm;
    destruct (thinking_budget_tokens optional_params) as [b |] eqn:Hb;
    cbn [from_option maxOutputTokens with_thinkingConfig with_maxOutputTokens
         thinkingConfig gc_temperature topP];
    unfold nonzero, GEMINI_MAX_OUTPUT_TOKENS;
    repeat match goal with
           | |- context [?a =? ?b] => destruct (Z.eqb_spec a b)
           | |- context [?a <=? ?b] => destruct (Z.leb_spec a b)
           | |- context [?a >? ?b] => destruct (Z.gtb_spec a b)
           end;
    cbn [negb andb from_option maxOutputTokens with_thinkingConfig
         with_maxOutputTokens thinkingConfig gc_temperature topP option_map];
    repeat split; try done; try (intros t [= <-]); try (intros _);
    try (repeat split; first [done | by left | by right]);
    try (unfold Datatypes.id in *; f_equal; lia).
Qed.

Lemma sanitize_schema_shape s :
  exists items,
    _sanitize_schema s = JObj items
    /\ dict_has "type" items = true
    /\ NoDup items.*1
    /\ forall k, key_in k dropped_keys = true -> dict_has k items = false.
Proof.
  destruct s as [| b | n | m e | t | l | items0];
    try (exists [("type", JStr "object")]; split; [done |]; split; [done |];
         split; [apply NoDup_singleton |];
         intros k Hk; destruct (dict_has k _) eqn:Hh; [| done];
         apply dict_has_keys in Hh; simpl in Hh;
         apply list_elem_of_singleton in Hh; by subst).
  rewrite sanitize_schema_dict. cbn zeta.
  set (R := Derived.store_all (Derived.entry_value _sanitize_schema) items0 []).
  assert (HND : NoDup R.*1) by (apply store_all_NoDup; constructor).
  assert (Hdrop : forall k, key_in k dropped_keys = true -> k ∉ R.*1).
  { intros k Hk Hin. apply list_elem_of_fmap in Hin as ([k' v] & -> & Hin).
    apply store_all_elem in Hin as [Hin | (x & _ & Hx)].
    - by apply elem_of_nil in Hin.
    - unfold Derived.entry_value in Hx. cbn [fst] in Hk. by rewrite Hk in Hx. }
  destruct (dict_has "type" R) eqn:Htype.
  - exists R. split; [done |]. split; [done |]. split; [done |].
    intros k Hk. destruct (dict_has k R) eqn:Hh; [| done].
    apply dict_has_keys in Hh. by apply Hdrop in Hh.
  - exists (dict_set R "type" (JStr "object")).
    assert (Hfresh : "type" ∉ R.*1).
    { intros Hin. apply dict_has_keys in Hin. congruence. }
    split; [done |]. rewrite dict_set_fresh by done.
    split; [| split].
    + apply dict_has_keys. rewrite fmap_app. apply elem_of_app. right.
      apply list_elem_of_singleton. done.
    + rewrite <- (dict_set_fresh R "type" (JStr "object")) by done.
      by apply dict_set_NoDup.
    + intros k Hk. destruct (dict_has k _) eqn:Hh; [| done].
      apply dict_has_keys in Hh. rewrite fmap_app in Hh.
      apply elem_of_app in Hh as [Hh | Hh]; [by apply Hdrop in Hh |].
      simpl in Hh. apply list_elem_of_singleton in Hh. by subst.
Qed.

(** X25. The tool declarations of the payload.  The payload has the key
    [tools] exactly when the request lists a tool, and then one declaration
    per tool, in order.  The parameters of every declaration are a sanitized
    schema: a dict with a ["type"], with none of the dropped keys, and one
    that sanitizing again leaves as it is.  They are taken from
    ["parameters"], else from ["input_schema"], else they are
    [{"type": "object"}]; and a tool given as [{"function": f}] is declared as
    [f] itself would be. *)
Theorem X25_tool_declarations (model : string) (optional_params : OptionalParams)
    (project_id : string) :
  let p := _build_request_payload model optional_params project_id in
  (payload_tools p = None <-> tools optional_params = [])
  /\ (forall ds, payload_tools p = Some ds ->
        length ds = length (tools optional_params)
        /\ forall i d, ds !! i = Some d ->
             exists tool items,
               tools optional_params !! i = Some tool
               /\ d = function_declaration tool
               /\ fd_parameters d = JObj items
               /\ dict_has "type" items = true
               /\ (forall k, key_in k dropped_keys = true -> dict_has k items = false)
               /\ _sanitize_schema (fd_parameters d) = fd_parameters d)
  /\ (forall func rest,
        dict_get func "function" = None ->
        function_declaration (JObj (("function", func) :: rest))
        = function_declaration func)
  /\ (forall tool,
        dict_get tool "function" = None ->
        dict_get tool "parameters" = None ->
        fd_parameters (function_declaration tool)
        = _sanitize_schema
            (default (JObj [("type", JStr "object")]) (dict_get tool "input_schema"))).
Proof.
  intros p. subst p. cbn [_build_request_payload payload_tools].
  split; [| split; [| split]].
  - by destruct (tools optional_params).
  - intros ds Hds.
    assert (Hmap : ds = map function_declaration (tools optional_params)).
    { destruct (tools optional_params); [done | by injection Hds as <-]. }
    subst ds. split; [by rewrite length_map |].
    intros i d Hd. rewrite list_lookup_fmap in Hd.
    destruct (tools optional_params !! i) as [tool |] eqn:Htool; [| done].
    injection Hd as <-.
    destruct (sanitize_schema_shape
                (default (default (JObj [("type", JStr "object")])
                            (dict_get (default tool (dict_get tool "function"))
                               "input_schema"))
                   (dict_get (default tool (dict_get tool "function")) "parameters")))
      as (items & Hitems & Htype & _ & Hdrop).
    exists tool, items. unfold function_declaration. cbn [fd_parameters].
    split; [done |]. split; [done |]. split; [done |]. split; [done |].
    split; [done |]. apply sanitize_schema_idem_strong.
  - intros func rest Hnone. unfold function_declaration.
    change (dict_get (JObj (("function", func) :: rest)) "function") with (Some func).
    cbn [from_option]. unfold Datatypes.id. by rewrite Hnone.
  - intros tool Hf Hp. unfold function_declaration. rewrite Hf.
    cbn [from_option]. by rewrite Hp.
Qed.

(** *** What the sanitizer keeps *)

Section StoreAllKeeps.
Variable h : string -> json -> option json.

Lemma dict_set_elem_other (d : list (string * json)) k v k' v' :
  k' <> k -> (k', v') ∈ d -> (k', v') ∈ dict_set d k v.
Proof.
  intros Hne. induction d as [| [k0 v0] d IH]; intros Hin.
  - by apply elem_of_nil in Hin.
  - simpl. apply elem_of_cons in Hin as [[= <- <-] | Hin].
    + destruct (String.eqb_spec k' k); [done |]. apply elem_of_cons. by left.
    + destruct (String.eqb_spec k0 k); apply elem_of_cons; right; [done | by apply IH].
Qed.

Lemma dict_set_elem_same (d : list (string * json)) k v : (k, v) ∈ dict_set d k v.
Proof.
  induction d as [| [k0 v0] d IH]; simpl.
  - apply list_elem_of_singleton. done.
  - destruct (String.eqb_spec k0 k) as [-> | Hne]; apply elem_of_cons;
      [by left | by right].
Qed.

Lemma store_all_keeps_result items result k v :
  k ∉ items.*1 -> (k, v) ∈ result -> (k, v) ∈ Derived.store_all h items result.
Proof.
  revert result. induction items as [| [k0 x0] items IH]; intros result Hk Hin;
    [done |].
  rewrite store_all_cons. rewrite fmap_cons in Hk.
  apply not_elem_of_cons in Hk as [Hne Hk]. simpl in Hne. apply IH; [done |].
  simpl. destruct (h k0 x0); [| done]. by apply dict_set_elem_other.
Qed.

(** With distinct keys, what the loop stores for an item is in the result. *)
Lemma store_all_stores items result k x v :
  NoDup items.*1 -> (k, x) ∈ items -> h k x = Some v ->
  (k, v) ∈ Derived.store_all h items result.
Proof.
  revert result. induction items as [| [k0 x0] items IH]; intros result Hnd Hin Hh.
  - by apply elem_of_nil in Hin.
  - rewrite fmap_cons in Hnd. apply NoDup_cons in Hnd as [Hfresh Hnd].
    rewrite store_all_cons.
    apply elem_of_cons in Hin as [[= <- <-] | Hin].
    + simpl. rewrite Hh. apply store_all_keeps_result; [done |].
      apply dict_set_elem_same.
    + by apply IH.
Qed.

End StoreAllKeeps.

Lemma NoDup_keys_functional {V} (l : list (string * V)) k x y :
  NoDup l.*1 -> (k, x) ∈ l -> (k, y) ∈ l -> x = y.
Proof.
  induction l as [| [k0 v0] l IH]; intros Hnd Hx Hy.
  - by apply elem_of_nil in Hx.
  - rewrite fmap_cons in Hnd. apply NoDup_cons in Hnd as [Hfresh Hnd].
    simpl in Hfresh.
    apply elem_of_cons in Hx as [Hx | Hx];
      apply elem_of_cons in Hy as [Hy | Hy]; simplify_eq; try done.
    + exfalso. apply Hfresh. apply list_elem_of_fmap. by exists (k0, y).
    + exfalso. apply Hfresh. apply list_elem_of_fmap. by exists (k0, x).
    + by apply IH.
Qed.

(** X26. The shape of a sanitized schema.  [_sanitize_schema] always returns
    a dict with a ["type"] and without [$schema], [$id], [$ref],
    [definitions], [$defs], [examples] and [default]; every key of the result
    is a key of the input or ["type"]; anything that is not a dict becomes
    [{"type": "object"}].  In a dict (keys distinct) a value that is not a dict
    is kept as it is under its key, lists included, which are not looked into;
    except under ["additionalProperties"], where only [False] is kept and
    [True] disappears. *)
Theorem X26_sanitized_schema_shape (schema : json) :
  (exists items,
      _sanitize_schema schema = JObj items
      /\ dict_has "type" items = true
      /\ NoDup items.*1
      /\ (forall k, key_in k dropped_keys = true -> dict_has k items = false)
      /\ (forall k, k ∈ items.*1 -> k = "type" \/ k ∈ (dict_items schema).*1)
      /\ (is_dict schema = false -> items = [("type", JStr "object")]))
  /\ (forall items0 k v,
        schema = JObj items0 -> NoDup items0.*1 -> (k, v) ∈ items0 ->
        is_dict v = false -> key_in k dropped_keys = false ->
        (k <> "additionalProperties" ->
         (k, v) ∈ dict_items (_sanitize_schema schema))
        /\ (k = "additionalProperties" ->
            dict_has k (dict_items (_sanitize_schema schema)) = is_False v)).
Proof.
  split.
  - destruct (sanitize_schema_shape schema) as (items & Hs & Htype & Hnd & Hdrop).
    exists items. split; [done |]. split; [done |]. split; [done |].
    split; [done |]. split.
    + intros k Hk. destruct schema as [| b | n | m e | t | l | items0];
        try (injection Hs as <-; simpl in Hk; apply list_elem_of_singleton in Hk;
             by left).
      rewrite sanitize_schema_dict in Hs. cbn zeta in Hs. cbn [dict_items].
      set (R := Derived.store_all (Derived.entry_value _sanitize_schema) items0 [])
        in *.
      assert (HR : forall k', k' ∈ R.*1 -> k' ∈ items0.*1).
      { intros k' Hk'. apply list_elem_of_fmap in Hk' as ([k1 v1] & -> & Hin).
        apply store_all_elem in Hin as [Hin | (x & Hx & _)].
        - by apply elem_of_nil in Hin.
        - apply list_elem_of_fmap. by exists (k1, x). }
      destruct (dict_has "type" R) eqn:HtR; injection Hs as <-.
      * right. by apply HR.
      * assert (Hfresh : "type" ∉ R.*1).
        { intros Hin. apply dict_has_keys in Hin. congruence. }
        rewrite dict_set_fresh, fmap_app in Hk by done.
        apply elem_of_app in Hk as [Hk | Hk]; [right; by apply HR |].
        simpl in Hk. apply list_elem_of_singleton in Hk. by left.
    + intros Hnd'. destruct schema; try done; by injection Hs as <-.
  - intros items0 k v -> Hnd Hin Hv Hdropk.
    rewrite sanitize_schema_dict. cbn zeta. cbn [dict_items].
    set (R := Derived.store_all (Derived.entry_value _sanitize_schema) items0 []).
    assert (Hentry : Derived.entry_value _sanitize_schema k v
                     = if String.eqb k "additionalProperties"
                       then (if is_False v then Some (JBool false) else None)
                       else Some v).
    { unfold Derived.entry_value. rewrite Hdropk, Hv, !andb_false_r. done. }
    split.
    + intros Hne. apply String.eqb_neq in Hne. rewrite Hne in Hentry.
      assert (HinR : (k, v) ∈ R) by (by eapply store_all_stores).
      destruct (dict_has "type" R) eqn:HtR; [done |].
      assert (Hfresh : "type" ∉ R.*1).
      { intros Hin'. apply dict_has_keys in Hin'. congruence. }
      rewrite dict_set_fresh by done. apply elem_of_app. by left.
    + intros ->. rewrite String.eqb_refl in Hentry.
      assert (HhasR : dict_has "additionalProperties" R = is_False v).
      { destruct (is_False v) eqn:HF.
        - apply dict_has_keys. apply list_elem_of_fmap.
          exists ("additionalProperties", JBool false). split; [done |].
          by eapply store_all_stores.
        - destruct (dict_has "additionalProperties" R) eqn:Hh; [| done].
          apply dict_has_keys in Hh.
          apply list_elem_of_fmap in Hh as ([k1 v1] & Hk1 & Hin1).
          simpl in Hk1. subst k1.
          apply store_all_elem in Hin1 as [Hin1 | (x & Hx & Hxv)];
            [by apply elem_of_nil in Hin1 |].
          assert (x = v).
          { by apply (NoDup_keys_functional items0 "additionalProperties"). }
          subst x. congruence. }
      destruct (dict_has "type" R) eqn:HtR; [done |].
      assert (Hfresh : "type" ∉ R.*1).
      { intros Hin'. apply dict_has_keys in Hin'. congruence. }
      rewrite dict_set_fresh by done.
      rewrite <- HhasR. unfold dict_has. rewrite existsb_app. simpl.
      by rewrite orb_false_r.
Qed.

Lemma X26_witness :
  (("enum", JArr [JObj [("$ref", JStr "#/x")]])
     ∈ dict_items
         (_sanitize_schema
            (JObj [("enum", JArr [JObj [("$ref", JStr "#/x")]]);
                   ("additionalProperties", JBool true)])))
  /\ dict_has "additionalProperties"
       (dict_items
          (_sanitize_schema
             (JObj [("enum", JArr [JObj [("$ref", JStr "#/x")]]);
                    ("additionalProperties", JBool true)])))
     = false.
Proof.
  pose proof (proj2 (X26_sanitized_schema_shape
                       (JObj [("enum", JArr [JObj [("$ref", JStr "#/x")]]);
                              ("additionalProperties", JBool true)]))) as H.
  split.
  - apply (H _ "enum" (JArr [JObj [("$ref", JStr "#/x")]]) eq_refl); try done.
    + apply (bool_decide_unpack _). vm_compute. reflexivity.
    + apply elem_of_cons. by left.
  - apply (H _ "additionalProperties" (JBool true) eq_refl); try done.
    + apply (bool_decide_unpack _). vm_compute. reflexivity.
    + apply elem_of_cons. right. apply elem_of_cons. by left.
Defined.


(** ** From OpenAI messages to Google contents *)

Import Messages.

Lemma split_once_None c s :
  split_once c s = None <-> PyStr.contains (String c EmptyString) s = false.
Proof.
  induction s as [| d s IH]; [done |].
  cbn [split_once PyStr.contains String.prefix].
  destruct (Ascii.eqb_spec d c) as [-> | Hne].
  - destruct (ascii_dec c c); [| done]. by destruct s.
  - destruct (ascii_dec c d) as [-> | _]; [done |]. cbn [orb].
    rewrite <- IH. by destruct (split_once c s) as [[a b] |].
Qed.

Lemma free_of_ne c d : Ascii.eqb (PyStr.lower_char c) (PyStr.lower_char d) = false -> d <> c.
Proof. intros H ->. by rewrite Ascii.eqb_refl in H. Qed.

Lemma split_once_app c a b :
  Texts.free_of c a = true -> split_once c (a +:+ String c b) = Some (a, b).
Proof.
  induction a as [| d a IH]; cbn [Texts.free_of].
  - intros _. rewrite append_empty_l. cbn [split_once]. by rewrite Ascii.eqb_refl.
  - intros H. apply andb_true_iff in H as [Hd Ha]. apply negb_true_iff in Hd.
    rewrite append_cons. cbn [split_once].
    destruct (Ascii.eqb_spec d c) as [-> | _];
      [by rewrite Ascii.eqb_refl in Hd |].
    by rewrite (IH Ha).
Qed.

Lemma split_once_free c s : Texts.free_of c s = true -> split_once c s = None.
Proof.
  induction s as [| d s IH]; [done |]. cbn [Texts.free_of split_once].
  intros H. apply andb_true_iff in H as [Hd Hs]. apply negb_true_iff in Hd.
  destruct (Ascii.eqb_spec d c) as [-> | _];
    [by rewrite Ascii.eqb_refl in Hd |].
  by rewrite (IH Hs).
Qed.

Lemma prefix_app a s : String.prefix a (a +:+ s) = true.
Proof.
  induction a as [| c a IH]; [by destruct s |].
  rewrite append_cons. cbn [String.prefix].
  destruct (ascii_dec c c); [apply IH | done].
Qed.

Section MessageConversion.
Variable strip : string -> string.
Variable py_str : Content -> string.
Variable json_loads : string -> option json.
Variables is_claude is_gemini : bool.

Lemma convert_block_raises block :
  convert_block strip block is_claude is_gemini = None <-> raises block = true.
Proof.
  destruct block as [| t | src | url | n i d sg | ct tid | th sg |];
    cbn [convert_block raises]; try (split; done).
  - destruct (_ && _); split; done.
  - destruct (is_str _ "base64"); [split; done |].
    destruct (is_str _ "url"); split; done.
  - destruct (String.prefix "data:" (default "" url)); cbn [andb]; [| split; done].
    rewrite negb_true_iff, <- split_once_None.
    destruct (split_once "," (default "" url)) as [[h dt] |]; split; done.
  - destruct (_ && _); split; done.
Qed.






(** X28. Image URLs.  A URL that does not begin with [data:] is passed on as
    file data of type [image/jpeg], whatever it names, and so is the empty
    URL of a block without one.  A URL [data:<mime>;<params>,<data>] or
    [data:<mime>,<data>], in which [<mime>] has no comma, semicolon or
    [data:] and [<params>] no comma, becomes inline data with that MIME type
    and that data; a URL that begins with [data:] and has no comma raises. *)
Theorem X28_image_urls :
  (forall url,
      String.prefix "data:" url = false ->
      convert_block strip (BImageUrl (Some url)) is_claude is_gemini
      = Some [PFileData "image/jpeg" (Some url)])
  /\ convert_block strip (BImageUrl None) is_claude is_gemini
     = Some [PFileData "image/jpeg" (Some "")]
  /\ (forall mime params data,
        Texts.free_of "," mime = true -> Texts.free_of ";" mime = true ->
        remove_data mime = mime -> Texts.free_of "," params = true ->
        convert_block strip
          (BImageUrl (Some ("data:" +:+ mime +:+ ";" +:+ params +:+ "," +:+ data)))
          is_claude is_gemini
        = Some [PInlineData mime (Some data)])
  /\ (forall mime data,
        Texts.free_of "," mime = true -> Texts.free_of ";" mime = true ->
        remove_data mime = mime ->
        convert_block strip (BImageUrl (Some ("data:" +:+ mime +:+ "," +:+ data)))
          is_claude is_gemini
        = Some [PInlineData mime (Some data)])
  /\ (forall url,
        String.prefix "data:" url = true -> PyStr.contains "," url = false ->
        convert_block strip (BImageUrl (Some url)) is_claude is_gemini = None).
Proof.
  split; [| split; [| split; [| split]]].
  - intros url Hp. cbn [convert_block from_option]. unfold Datatypes.id.
    by rewrite Hp.
  - reflexivity.
  - intros mime params data Hc Hs Hr Hp.
    cbn [convert_block from_option]. unfold Datatypes.id.
    rewrite prefix_app.
    replace ("data:" +:+ mime +:+ ";" +:+ params +:+ "," +:+ data)
      with (("data:" +:+ mime +:+ ";" +:+ params) +:+ String "," data)
      by (by rewrite !append_assoc).
    rewrite split_once_app
      by (rewrite !free_of_app, Hc, Hp; reflexivity).
    unfold before.
    replace ("data:" +:+ mime +:+ ";" +:+ params)
      with (("data:" +:+ mime) +:+ String ";" params)
      by (by rewrite !append_assoc).
    rewrite split_once_app by (rewrite free_of_app, Hs; reflexivity).
    change (remove_data ("data:" +:+ mime)) with (remove_data mime).
    by rewrite Hr.
  - intros mime data Hc Hs Hr.
    cbn [convert_block from_option]. unfold Datatypes.id.
    rewrite prefix_app.
    replace ("data:" +:+ mime +:+ "," +:+ data)
      with (("data:" +:+ mime) +:+ String "," data)
      by (by rewrite !append_assoc).
    rewrite split_once_app by (rewrite free_of_app, Hc; reflexivity).
    unfold before.
    rewrite split_once_free by (rewrite free_of_app, Hs; reflexivity).
    change (remove_data ("data:" +:+ mime)) with (remove_data mime).
    by rewrite Hr.
  - intros url Hp Hc. apply convert_block_raises. cbn [raises from_option].
    unfold Datatypes.id. by rewrite Hp, Hc.
Qed.

Lemma convert_messages_acc messages contents system_instruction :
  convert_messages strip py_str json_loads messages is_claude is_gemini
    contents system_instruction
  = match convert_messages strip py_str json_loads messages is_claude is_gemini
            [] None with
    | Some (cs, si) =>
        Some (contents ++ cs,
              match si with Some p => Some p | None => system_instruction end)
    | None => None
    end.
Proof.
  revert contents system_instruction.
  induction messages as [| msg messages IH]; intros contents si.
  - simpl. by rewrite app_nil_r.
  - cbn [convert_messages].
    destruct (String.eqb (default "user" (msg_role msg)) "system").
    { rewrite IH. rewrite (IH [] (match system_parts _ with
                                  | Some p => Some p | None => None end)).
      destruct (convert_messages _ _ _ messages _ _ [] None) as [[cs si'] |];
        [| done].
      rewrite app_nil_l. f_equal. f_equal.
      destruct si' as [p |]; [done |]. by destruct (system_parts _). }
    destruct (String.eqb (default "user" (msg_role msg)) "tool").
    { rewrite IH. rewrite (IH ([] ++ _) None).
      destruct (convert_messages _ _ _ messages _ _ [] None) as [[cs si'] |];
        [| done].
      rewrite app_nil_l, <- app_assoc. f_equal. f_equal.
      by destruct si'. }
    destruct (_convert_content_to_parts strip py_str _ _ _) as [parts |]; [| done].
    destruct (tool_call_parts json_loads _ _) as [calls |]; [| done].
    rewrite IH. rewrite (IH ([] ++ _) None).
    destruct (convert_messages _ _ _ messages _ _ [] None) as [[cs si'] |];
      [| done].
    rewrite app_nil_l, <- app_assoc. f_equal. f_equal.
    by destruct si'.
Qed.



(** X30. The system instruction, and conversion by pieces.  Converting a
    list of messages in two pieces gives the contents of the pieces one after
    the other, and the system instruction of the second piece if it sets one,
    else that of the first.  A system message with string content sets the
    instruction to that text; one with list content sets it to the texts of
    its text blocks, and leaves it as it was when there is none; so the last
    system message that sets it wins, and without system messages there is no
    instruction. *)
Theorem X30_system_instruction (ms1 ms2 : list MessageIn) :
  convert_messages strip py_str json_loads (ms1 ++ ms2) is_claude is_gemini [] None
  = match convert_messages strip py_str json_loads ms1 is_claude is_gemini [] None,
          convert_messages strip py_str json_loads ms2 is_claude is_gemini [] None
    with
    | Some (c1, s1), Some (c2, s2) =>
        Some (c1 ++ c2, match s2 with Some p => Some p | None => s1 end)
    | _, _ => None
    end
  /\ (forall contents system_instruction,
        forallb (fun msg => negb (is_system msg)) ms1 = true ->
        convert_messages strip py_str json_loads ms1 is_claude is_gemini [] None
        = Some (contents, system_instruction) ->
        system_instruction = None)
  /\ (forall tool_call_id tcs content,
        convert_messages strip py_str json_loads
          [mkMessageIn (Some "system") content tool_call_id tcs]
          is_claude is_gemini [] None
        = Some ([], system_parts (default (CStr "") content)))
  /\ (forall s, system_parts (CStr s) = Some [PText s])
  /\ (forall blocks,
        system_parts (CList blocks) = None
        <-> forall text, BText text ∉ blocks).
Proof.
  split; [| split; [| split; [| split]]].
  - induction ms1 as [| msg ms1 IH].
    { cbn [app convert_messages].
      by destruct (convert_messages _ _ _ ms2 _ _ [] None) as [[c2 [p |]] |]. }
    cbn [app convert_messages].
    destruct (String.eqb (default "user" (msg_role msg)) "system").
    { rewrite (convert_messages_acc (ms1 ++ ms2)), (convert_messages_acc ms1), IH.
      destruct (convert_messages _ _ _ ms1 _ _ [] None) as [[c1 s1] |]; [| done].
      destruct (convert_messages _ _ _ ms2 _ _ [] None) as [[c2 s2] |]; [| done].
      rewrite ?app_nil_l. f_equal. f_equal. by destruct s2, s1. }
    destruct (String.eqb (default "user" (msg_role msg)) "tool").
    { rewrite (convert_messages_acc (ms1 ++ ms2)), (convert_messages_acc ms1), IH.
      destruct (convert_messages _ _ _ ms1 _ _ [] None) as [[c1 s1] |]; [| done].
      destruct (convert_messages _ _ _ ms2 _ _ [] None) as [[c2 s2] |]; [| done].
      rewrite ?app_nil_l, <- ?app_assoc. f_equal. f_equal. by destruct s2, s1. }
    destruct (_convert_content_to_parts strip py_str _ _ _) as [parts |]; [| done].
    destruct (tool_call_parts json_loads _ _) as [calls |]; [| done].
    rewrite (convert_messages_acc (ms1 ++ ms2)), (convert_messages_acc ms1), IH.
    destruct (convert_messages _ _ _ ms1 _ _ [] None) as [[c1 s1] |]; [| done].
    destruct (convert_messages _ _ _ ms2 _ _ [] None) as [[c2 s2] |]; [| done].
    rewrite ?app_nil_l, <- ?app_assoc. f_equal. f_equal. by destruct s2, s1.
  - induction ms1 as [| msg ms1 IH]; intros contents si Hall;
      [by intros [= _ <-] |].
    cbn [forallb] in Hall. apply andb_true_iff in Hall as [Hmsg Hall].
    unfold is_system in Hmsg. apply negb_true_iff in Hmsg.
    cbn [convert_messages]. rewrite Hmsg.
    destruct (String.eqb (default "user" (msg_role msg)) "tool").
    { rewrite convert_messages_acc.
      destruct (convert_messages _ _ _ ms1 _ _ [] None) as [[c1 s1] |] eqn:H1;
        [| done].
      intros [= _ <-]. by rewrite (IH c1 s1 Hall eq_refl). }
    destruct (_convert_content_to_parts strip py_str _ _ _) as [parts |]; [| done].
    destruct (tool_call_parts json_loads _ _) as [calls |]; [| done].
    rewrite convert_messages_acc.
    destruct (convert_messages _ _ _ ms1 _ _ [] None) as [[c1 s1] |] eqn:H1;
      [| done].
    intros [= _ <-]. by rewrite (IH c1 s1 Hall eq_refl).
  - intros tool_call_id tcs content0.
    cbn [convert_messages msg_role msg_content from_option].
    unfold Datatypes.id. cbn [String.eqb Ascii.eqb Bool.eqb].
    by destruct (system_parts _).
  - done.
  - intros blocks. cbn [system_parts]. split.
    + intros Hnone text Hin.
      induction blocks as [| b blocks IH]; [by apply elem_of_nil in Hin |].
      apply elem_of_cons in Hin as [<- | Hin]; [done |].
      cbn [omap list_omap] in Hnone.
      destruct b; try done; by apply IH.
    + intros Hno. induction blocks as [| b blocks IH]; [done |].
      cbn [omap list_omap].
      destruct b as [| t | | | | | |];
        try (apply IH; intros text Hin; apply (Hno text), elem_of_cons; by right).
      exfalso. apply (Hno t), elem_of_cons. by left.
Qed.

End MessageConversion.
